(** * ai-wright: Set-of-Marks annotation, selector synthesis, duplicate
      reconciliation and the act / verify / extract round trips

    A shallow embedding of the parts of [src/som-handler.ts] (and its compiled
    form, which adds [resolveSomTarget]) and [src/index.ts] that the
    specification's testable properties talk about.

    Conventions.
    - A JavaScript string is the list of its UTF-16 code units ([list N]).
    - A JavaScript number that only ever holds a count is [nat] or [N]; pixel
      geometry, confidences and durations are rationals ([Q]) with the
      non-finite values added where the code can produce them ([jsnum]).
      Reading a number from text, the product of a duration and the rendering
      of a number round to the nearest double ([mkFin], [numberToString]);
      the arithmetic on pixel geometry is exact, and a zero has no sign.
    - An optional field is an [option]; JavaScript truthiness is spelled out
      ([truthy_str], [truthy_flag]).
    - The browser driver, the oracle and the host assertion function are
      collaborators outside the repository: their answers are read from a
      script, and every call made to them is logged in a trace. *)

From Stdlib Require Import ZArith NArith QArith Qabs Qround Ascii String DecimalString DecimalN Lia.
From stdpp Require Import base option list gmap.

Open Scope N_scope.
Open Scope list_scope.

(* ================================================================== *)
(** * Part I — definitions                                              *)
(* ================================================================== *)

(** ** JavaScript strings and numbers *)

Module Js.

Abbreviation jsstring := (list N).

(** A string literal of the source; only used on ASCII text. *)
Definition lit (s : string) : jsstring :=
  map N_of_ascii (list_ascii_of_string s).

(** The one non-ASCII literal of the source, ['«'] (U+00AB). *)
Definition guillemet : jsstring := [171].

(** [!!s] for a string: the empty string is falsy. *)
Definition truthy_str (s : jsstring) : bool :=
  match s with [] => false | _ :: _ => true end.

(** [!!o] for an optional string field. *)
Definition truthy_ostr (o : option jsstring) : bool :=
  match o with Some s => truthy_str s | None => false end.

(** [!!b] for an optional boolean field. *)
Definition truthy_flag (o : option bool) : bool :=
  match o with Some b => b | None => false end.

Definition str_eqb (a b : jsstring) : bool := bool_decide (a = b).

(** [s.startsWith(p)], also the test behind an anchored regex [/^(p)/]. *)
Fixpoint startsWith (s p : jsstring) {struct p} : bool :=
  match p, s with
  | [], _ => true
  | _ :: _, [] => false
  | c :: p', d :: s' => (c =? d) && startsWith s' p'
  end.

(** [s.includes(sub)]. *)
Fixpoint includes (s sub : jsstring) : bool :=
  startsWith s sub ||
  match s with
  | [] => false
  | _ :: s' => includes s' sub
  end.

(** WhiteSpace and LineTerminator code units: what [trim] strips and what
    [\s] matches. *)
Definition isWhiteSpace (c : N) : bool :=
  ((9 <=? c) && (c <=? 13)) || (c =? 32) || (c =? 160) || (c =? 5760) ||
  ((8192 <=? c) && (c <=? 8202)) || (c =? 8232) || (c =? 8233) ||
  (c =? 8239) || (c =? 8287) || (c =? 12288) || (c =? 65279).

Fixpoint trimStart (s : jsstring) : jsstring :=
  match s with
  | [] => []
  | c :: s' => if isWhiteSpace c then trimStart s' else s
  end.

Definition trimEnd (s : jsstring) : jsstring := rev (trimStart (rev s)).

Definition trim (s : jsstring) : jsstring := trimEnd (trimStart s).

(** [s.split(/\s+/)]: the pieces between maximal runs of white space; a run
    at either end leaves an empty piece there. [cur] is the piece being
    read, reversed. *)
Fixpoint splitWs_go (insep : bool) (cur s : jsstring) : list jsstring :=
  match s with
  | [] => [rev cur]
  | c :: s' =>
      if isWhiteSpace c
      then if insep then splitWs_go true cur s'
           else rev cur :: splitWs_go true [] s'
      else splitWs_go false (c :: cur) s'
  end.

Definition splitWs (s : jsstring) : list jsstring := splitWs_go false [] s.

(** [s.split(' ')[0]]: the text before the first space. *)
Fixpoint beforeFirstSpace (s : jsstring) : jsstring :=
  match s with
  | [] => []
  | c :: s' => if c =? 32 then [] else c :: beforeFirstSpace s'
  end.

(** ASCII part of [toLowerCase]. *)
Definition lowerChar (c : N) : N :=
  if (65 <=? c) && (c <=? 90) then c + 32 else c.

Definition toLowerCase (s : jsstring) : jsstring := map lowerChar s.

(** Decimal numeral of a natural number: [String(n)] and [`${n}`] for the
    counters of the code. *)
Definition decimal (n : N) : jsstring :=
  lit (NilEmpty.string_of_uint (N.to_uint n)).

(** *** Numbers *)

Inductive jsnum : Type :=
| NaN
| Inf (negative : bool)
| Fin (q : Q).

Definition Qltb (a b : Q) : bool := negb (Qle_bool b a).

(** [Number.isFinite]. *)
Definition isFinite (x : jsnum) : bool :=
  match x with Fin _ => true | _ => false end.

(** The double nearest to [n / d], for [n] and [d] positive: its mantissa
    (at most [2^53]) and the exponent of its last place, ties to the even
    mantissa. Below [2^-1022] the last place stays at [2^-1074]. *)
Definition nearestDouble (n d : Z) : Z * Z :=
  let e0 := (Z.log2 n - Z.log2 d)%Z in
  let e := if (n * 2 ^ Z.max 0 (- e0) <? d * 2 ^ Z.max 0 e0)%Z then (e0 - 1)%Z else e0 in
  let p := (Z.max e (-1022) - 52)%Z in
  let num := (n * 2 ^ Z.max 0 (- p))%Z in
  let den := (d * 2 ^ Z.max 0 p)%Z in
  let f := (num / den)%Z in
  let r := (num mod den)%Z in
  let m := if (den <? 2 * r)%Z || ((den =? 2 * r)%Z && Z.odd f) then (f + 1)%Z else f in
  (m, p).

(** [m * 2^p] as a rational in lowest terms. *)
Definition scale2 (m p : Z) : Q :=
  if (0 <=? p)%Z then inject_Z (m * 2 ^ p)
  else Qred (Qmake m (Z.to_pos (2 ^ (- p)))).

(** The Number value for the real number [q]: the nearest double, an
    infinity from [2^1024 - 2^970] on. (The sign of a zero is not kept.) *)
Definition mkFin (q : Q) : jsnum :=
  if (Qnum q =? 0)%Z then Fin 0
  else
    let '(m, p) := nearestDouble (Z.abs (Qnum q)) (Zpos (Qden q)) in
    if (0 <=? p)%Z && (2 ^ 1024 <=? m * 2 ^ p)%Z then Inf (Qnum q <? 0)%Z
    else Fin (if (Qnum q <? 0)%Z then Qopp (scale2 m p) else scale2 m p).

Definition isDigit (c : N) : bool := (48 <=? c) && (c <=? 57).

(** Value of a digit in base 16 (also used for bases 2, 8 and 10). *)
Definition digitValue (c : N) : option N :=
  if isDigit c then Some (c - 48)
  else if (97 <=? c) && (c <=? 102) then Some (c - 87)
  else if (65 <=? c) && (c <=? 70) then Some (c - 55)
  else None.

(** A non-empty run of digits of base [base], read to the end of [s]. *)
Fixpoint digitsIn (base acc : N) (s : jsstring) : option N :=
  match s with
  | [] => Some acc
  | c :: s' =>
      match digitValue c with
      | Some d => if d <? base then digitsIn base (acc * base + d) s' else None
      | None => None
      end
  end.

Definition allDigitsIn (base : N) (s : jsstring) : option N :=
  match s with [] => None | _ => digitsIn base 0 s end.

(** Leading decimal digits of [s] and the rest. *)
Fixpoint spanDigits (s : jsstring) : jsstring * jsstring :=
  match s with
  | c :: s' =>
      if isDigit c
      then let '(d, r) := spanDigits s' in (c :: d, r)
      else ([], s)
  | [] => ([], [])
  end.

Definition decValue (ds : jsstring) : N :=
  match digitsIn 10 0 ds with Some n => n | None => 0 end.

(** [m * 10^e] as a rational. *)
Definition scale10 (m e : Z) : Q :=
  if (0 <=? e)%Z then inject_Z (m * 10 ^ e)
  else Qmake m (Z.to_pos (10 ^ (- e))).

(** ExponentPart, if any: [e] or [E], optional sign, at least one digit,
    then the end of the string. *)
Definition parseExponent (s : jsstring) : option Z :=
  match s with
  | [] => Some 0%Z
  | c :: s' =>
      if (c =? 101) || (c =? 69) then
        let '(neg, s'') :=
          match s' with
          | 45 :: t => (true, t)
          | 43 :: t => (false, t)
          | _ => (false, s')
          end in
        match allDigitsIn 10 s'' with
        | Some n => Some (if neg then (- Z.of_N n)%Z else Z.of_N n)
        | None => None
        end
      else None
  end.

(** StrUnsignedDecimalLiteral other than [Infinity]. *)
Definition parseUnsignedDecimal (s : jsstring) : option Q :=
  let '(ip, r1) := spanDigits s in
  let '(fp, r2) :=
    match r1 with
    | 46 :: t => spanDigits t
    | _ => ([], r1)
    end in
  match ip, fp with
  | [], [] => None
  | _, _ =>
      match parseExponent r2 with
      | Some e =>
          Some (scale10 (Z.of_N (decValue (ip ++ fp)))
                        (e - Z.of_nat (length fp)))
      | None => None
      end
  end.

(** StringToNumber, the conversion behind [Number(s)]: the double nearest
    to the value of the literal. *)
Definition Number_ (str : jsstring) : jsnum :=
  let s := trim str in
  match s with
  | [] => Fin 0
  | 48 :: x :: t =>
      if (x =? 120) || (x =? 88) then
        match allDigitsIn 16 t with Some n => mkFin (inject_Z (Z.of_N n)) | None => NaN end
      else if (x =? 111) || (x =? 79) then
        match allDigitsIn 8 t with Some n => mkFin (inject_Z (Z.of_N n)) | None => NaN end
      else if (x =? 98) || (x =? 66) then
        match allDigitsIn 2 t with Some n => mkFin (inject_Z (Z.of_N n)) | None => NaN end
      else
        match parseUnsignedDecimal s with Some q => mkFin q | None => NaN end
  | _ =>
      let '(neg, body) :=
        match s with
        | 45 :: t => (true, t)
        | 43 :: t => (false, t)
        | _ => (false, s)
        end in
      if str_eqb body (lit "Infinity") then Inf neg
      else
        match parseUnsignedDecimal body with
        | Some q => mkFin (if neg then Qopp q else q)
        | None => NaN
        end
  end.


(** *** Rendering numbers *)

(** For [0 < n / d < 1]: the least [m >= 1] with [n * 10^m >= d]. *)
Fixpoint leadingPlaces (fuel : nat) (n d m : Z) : Z :=
  match fuel with
  | O => m
  | S fuel' => if (d <=? n * 10)%Z then m else leadingPlaces fuel' (n * 10)%Z d (m + 1)%Z
  end.

(** The [n] with [10^(n-1) <= v < 10^n], for [v > 0]. *)
Definition decimalExponent (v : Q) : Z :=
  let n := Qnum v in
  let d := Zpos (Qden v) in
  if (d <=? n)%Z then Z.of_nat (length (decimal (Z.to_N (n / d))))
  else (1 - leadingPlaces 400 n d 1)%Z.

Definition sameNumber (x y : jsnum) : bool :=
  match x, y with
  | Fin a, Fin b => Qeq_bool a b
  | Inf s, Inf t => Bool.eqb s t
  | _, _ => false
  end.

(** The integer [s] of [k] digits (or [10^k]) for which [s * 10^(n0 - k)]
    reads back as [v], if there is one: of the two next to [v], the nearer,
    the even one when they are as near. *)
Definition digitsAt (v : Q) (n0 : Z) (k : Z) : option Z :=
  let x := (n0 - k)%Z in
  let lo := (Qnum v * 10 ^ Z.max 0 (- x) / (Zpos (Qden v) * 10 ^ Z.max 0 x))%Z in
  let hi := (lo + 1)%Z in
  let okLo := sameNumber (mkFin (scale10 lo x)) (Fin v) in
  let okHi := sameNumber (mkFin (scale10 hi x)) (Fin v) in
  match okLo, okHi with
  | false, false => None
  | true, false => Some lo
  | false, true => Some hi
  | true, true =>
      match Qcompare (v - scale10 lo x) (scale10 hi x - v) with
      | Lt => Some lo
      | Gt => Some hi
      | Eq => Some (if Z.even lo then lo else hi)
      end
  end.

(** The shortest such digits: [k] from [k0] upwards. *)
Fixpoint shortestDigits (fuel : nat) (v : Q) (n0 k : Z) : Z * Z :=
  match fuel with
  | O => (0%Z, k)
  | S fuel' =>
      match digitsAt v n0 k with
      | Some s => (s, k)
      | None => shortestDigits fuel' v n0 (k + 1)%Z
      end
  end.

Fixpoint dropZerosEnd (ds : jsstring) : jsstring :=
  match ds with
  | [] => []
  | c :: rest =>
      match dropZerosEnd rest with
      | [] => if c =? 48 then [] else [c]
      | rest' => c :: rest'
      end
  end.

(** Number::toString for a positive double [v]: the digits [ds] and the
    exponent [n] with [v = 0.ds * 10^n], laid out the way the standard
    says. *)
Definition layout (ds : jsstring) (n : Z) : jsstring :=
  let k := Z.of_nat (length ds) in
  if (k <=? n)%Z && (n <=? 21)%Z then ds ++ replicate (Z.to_nat (n - k)) 48
  else if (0 <? n)%Z && (n <=? 21)%Z then
    take (Z.to_nat n) ds ++ lit "." ++ drop (Z.to_nat n) ds
  else if (-6 <? n)%Z && (n <=? 0)%Z then
    lit "0." ++ replicate (Z.to_nat (- n)) 48 ++ ds
  else
    let e := (n - 1)%Z in
    (match ds with
     | [] => []
     | [c] => [c]
     | c :: rest => c :: lit "." ++ rest
     end) ++ lit "e" ++ (if (e <? 0)%Z then lit "-" else lit "+") ++ decimal (Z.to_N (Z.abs e)).

Definition positiveToString (v : Q) : jsstring :=
  let n0 := decimalExponent v in
  let '(s, k) := shortestDigits 17 v n0 1 in
  let all := decimal (Z.to_N s) in
  layout (dropZerosEnd all) (n0 + (Z.of_nat (length all) - k))%Z.

(** [String(x)] / [`${x}`] for a number: the shortest decimal text that
    reads back as the double nearest to [x]. *)
Definition numberToString (x : jsnum) : jsstring :=
  match x with
  | NaN => lit "NaN"
  | Inf neg => (if neg then lit "-" else []) ++ lit "Infinity"
  | Fin q =>
      match mkFin q with
      | Fin v =>
          if (Qnum v =? 0)%Z then lit "0"
          else (if (Qnum v <? 0)%Z then lit "-" else []) ++ positiveToString (Qabs v)
      | Inf neg => (if neg then lit "-" else []) ++ lit "Infinity"
      | NaN => lit "NaN"
      end
  end.

(** [Math.round]: nearest integer, halves towards plus infinity. *)
Definition mathRound (q : Q) : Q := inject_Z (Qfloor (q + (1 # 2))).

(** The double quote character, for building selector text. *)
Definition dquote : jsstring := [34].

End Js.

Import Js.

(** ** Data model ([som-types.ts], [types.ts]) *)

Inductive InteractionAction : Type :=
| CLICK | DOUBLE_CLICK | RIGHT_CLICK
| HOVER | MOUSE_DOWN | MOUSE_UP | DRAG
| FILL | TYPE | CLEAR
| PRESS | PRESS_SEQUENTIALLY
| SELECT | CHECK | UNCHECK
| FOCUS | BLUR | SCROLL | SCROLL_INTO_VIEW
| WAIT_FOR
| NAVIGATE | GO_BACK | GO_FORWARD | RELOAD.

#[export] Instance InteractionAction_eq_dec : EqDecision InteractionAction.
Proof. solve_decision. Defined.

(** The enum's string values. *)
Definition actionName (a : InteractionAction) : jsstring :=
  lit match a with
      | CLICK => "click" | DOUBLE_CLICK => "doubleClick" | RIGHT_CLICK => "rightClick"
      | HOVER => "hover" | MOUSE_DOWN => "mouseDown" | MOUSE_UP => "mouseUp"
      | DRAG => "drag" | FILL => "fill" | TYPE => "type" | CLEAR => "clear"
      | PRESS => "press" | PRESS_SEQUENTIALLY => "pressSequentially"
      | SELECT => "select" | CHECK => "check" | UNCHECK => "uncheck"
      | FOCUS => "focus" | BLUR => "blur" | SCROLL => "scroll"
      | SCROLL_INTO_VIEW => "scrollIntoView" | WAIT_FOR => "waitFor"
      | NAVIGATE => "navigate" | GO_BACK => "goBack" | GO_FORWARD => "goForward"
      | RELOAD => "reload"
      end.

Record Coordinate : Type := { cx : Q; cy : Q }.

(** [SomCommand]; the fields no modelled function reads ([fromCoord],
    [toCoord], [scrollAmount], [button], ...) are left out. *)
Record SomCommand : Type := {
  elementRef : option jsstring;
  action : InteractionAction;
  coord : option Coordinate;
  value : option jsstring;
  force : option bool;
  durationSeconds : option jsnum;
}.

Inductive CommandRunStatus : Type := SUCCESS | FAILURE.

#[export] Instance CommandRunStatus_eq_dec : EqDecision CommandRunStatus.
Proof. solve_decision. Defined.

Record CommandAttempt : Type := {
  attemptCommand : option jsstring;
  attemptStatus : CommandRunStatus;
  attemptError : option jsstring;
}.

Record SemanticCommandResult : Type := {
  failedAttempts : list CommandAttempt;
  successAttempt : option CommandAttempt;
  error : option jsstring;
  status : CommandRunStatus;
  mutations : option (list jsstring);
}.

Record BBox : Type := { bx : Q; by_ : Q; width : Q; height : Q }.

Record ParentInfo : Type := {
  parentTag : jsstring;
  parentRole : jsstring;
  parentClassName : jsstring;
  parentText : jsstring;
}.

Record SomElement : Type := {
  somId : jsstring;
  tag : jsstring;
  role : jsstring;
  text : jsstring;
  ariaLabel : jsstring;
  labelText : jsstring;
  placeholder : jsstring;
  name : jsstring;
  type_ : jsstring;
  id : jsstring;
  className : jsstring;
  bbox : BBox;
  hasVisiblePseudoElement : bool;
  parent : option ParentInfo;
}.

Inductive SelectorType : Type :=
| SelId | SelTestId | SelLabel | SelRole | SelPlaceholder | SelText
| SelTitle | SelAltText | SelName | SelLocator.

#[export] Instance SelectorType_eq_dec : EqDecision SelectorType.
Proof. solve_decision. Defined.

(** [TypedSelector]. [nth] is the disambiguation index the compiled handler
    adds; no modelled function fills the [parent] chain, so it is left out. *)
Record TypedSelector : Type := {
  selType : SelectorType;
  selValue : jsstring;
  roleOptionsName : option jsstring;
  nth : option nat;
}.

Definition mkSel (t : SelectorType) (v : jsstring) : TypedSelector :=
  {| selType := t; selValue := v; roleOptionsName := None; nth := None |}.

(** [AiActionResult], what [callAiAction] resolves to. *)
Record AiActionResult : Type := {
  preCommands : option (list SomCommand);
  extractedContentList : option (list jsstring);
  extractedContent : option jsstring;
  confidence : option Q;
  verificationSuccess : option bool;
  verificationReason : option jsstring;
  commandsToRun : option (list SomCommand);
  shouldWait : option bool;
  waitReason : option jsstring;
  needsRetryAfterPreActions : option bool;
  requestSomRefresh : option bool;
  somRefreshReason : option jsstring;
  stepCompleted : option bool;
}.

(** The response [{}]: every field undefined. *)
Definition emptyResult : AiActionResult :=
  {| preCommands := None; extractedContentList := None; extractedContent := None;
     confidence := None; verificationSuccess := None; verificationReason := None;
     commandsToRun := None; shouldWait := None; waitReason := None;
     needsRetryAfterPreActions := None; requestSomRefresh := None;
     somRefreshReason := None; stepCompleted := None |}.

Record AiActResult : Type := {
  command_results : list SemanticCommandResult;
  actStatus : CommandRunStatus;
  actError : option jsstring;
}.

(** What a call either returns or throws. [Error] is a plain [Error] object
    with its message; the other constructors are the error classes the code
    tells apart. *)
Inductive Thrown : Type :=
| Error (message : jsstring)
| SomReannotationRequiredError (message : jsstring)
| NavigationInProgressError (message : jsstring)
| AssertionError (message : jsstring).

Inductive Outcome (A : Type) : Type :=
| Returns (a : A)
| Throws (e : Thrown).
Arguments Returns {A} a.
Arguments Throws {A} e.

Definition thrownMessage (e : Thrown) : jsstring :=
  match e with
  | Error m | SomReannotationRequiredError m
  | NavigationInProgressError m | AssertionError m => m
  end.

(** ** [extract()]: coercion of the oracle's answer ([index.ts]) *)

Module Extract.

Inductive ExtractReturnType : Type := string_array | string_ | int_array | int.

Inductive Extracted : Type :=
| AString (s : jsstring)
| AStringArray (l : list jsstring)
| ANumber (x : jsnum)
| ANumberArray (l : list jsnum).

Definition castToNumber (value fieldName : jsstring) : Outcome jsnum :=
  let parsed := Number_ value in
  if negb (isFinite parsed)
  then Throws (Error (lit "Expected numeric value for " ++ fieldName ++
                      lit ", received: " ++ value))
  else Returns parsed.

(** [values.map(v => castToNumber(v, fieldName))]: the first failing entry
    throws. *)
Fixpoint castStringArrayToNumbers (values : list jsstring) (fieldName : jsstring)
  : Outcome (list jsnum) :=
  match values with
  | [] => Returns []
  | v :: vs =>
      match castToNumber v fieldName with
      | Throws e => Throws e
      | Returns x =>
          match castStringArrayToNumbers vs fieldName with
          | Throws e => Throws e
          | Returns xs => Returns (x :: xs)
          end
      end
  end.

(** [options?.return_type]; the empty options object and no options at all
    are both [None]. *)
Definition computeExtractResult (result : AiActionResult)
    (return_type : option ExtractReturnType) : Outcome Extracted :=
  let returnType := default string_ return_type in
  let list_ := default [] (extractedContentList result) in
  let content := extractedContent result in
  if negb (truthy_ostr content) && (length list_ =? 0)%nat then
    Throws (Error (lit "LLM response did not include extracted content."))
  else
    let fallback := if truthy_ostr content then [default [] content] else [] in
    match returnType with
    | string_array =>
        Returns (AStringArray (if (0 <? length list_)%nat then list_ else fallback))
    | int_array =>
        match castStringArrayToNumbers
                (if (0 <? length list_)%nat then list_ else fallback)
                (lit "extractedContentList") with
        | Returns l => Returns (ANumberArray l)
        | Throws e => Throws e
        end
    | int =>
        if truthy_ostr content then
          match castToNumber (default [] content) (lit "extractedContent") with
          | Returns x => Returns (ANumber x)
          | Throws e => Throws e
          end
        else
          match list_ with
          | [x] =>
              match castToNumber x (lit "extractedContentList") with
              | Returns x => Returns (ANumber x)
              | Throws e => Throws e
              end
          | _ => Throws (Error (lit "Expected a single numeric value in extractedContent."))
          end
    | string_ =>
        if (1 <? length list_)%nat then Returns (AStringArray list_)
        else
          match list_ with
          | [x] => Returns (AString x)
          | _ =>
              if truthy_ostr content then Returns (AString (default [] content))
              else Throws (Error (lit "Expected extractedContent to be a string."))
          end
    end.

End Extract.

(** ** The page handler ([som-handler.ts]) *)

Module SomHandler.

(** *** Selector synthesis *)

(** [selectors.push(x)] under a condition. *)
Definition pushIf {A} (c : bool) (x : A) (l : list A) : list A :=
  if c then l ++ [x] else l.

(** [/^(rc_|__)/] *)
Definition hasGeneratedIdPrefix (s : jsstring) : bool :=
  startsWith s (lit "rc_") || startsWith s (lit "__").

(** [/^(css-|MuiButton-|ant-|btn-)/] *)
Definition hasUtilityClassPrefix (s : jsstring) : bool :=
  startsWith s (lit "css-") || startsWith s (lit "MuiButton-") ||
  startsWith s (lit "ant-") || startsWith s (lit "btn-").

(** [['input', 'textarea', 'select'].includes(tag)] *)
Definition isFormField (t : jsstring) : bool :=
  str_eqb t (lit "input") || str_eqb t (lit "textarea") || str_eqb t (lit "select").

Definition generateSemanticSelectors (element : SomElement) : list TypedSelector :=
  let selectors : list TypedSelector := [] in
  (* Priority 2: stable id *)
  let selectors :=
    pushIf (truthy_str (id element) && negb (includes (id element) (lit ":")) &&
            negb (hasGeneratedIdPrefix (id element)) &&
            negb (includes (id element) guillemet))
           (mkSel SelId (id element)) selectors in
  (* Priority 3: getByLabel *)
  let selectors :=
    pushIf (truthy_str (labelText element))
           (mkSel SelLabel (labelText element)) selectors in
  (* Priority 4: input[name] *)
  let selectors :=
    pushIf (truthy_str (name element) && isFormField (tag element))
           (mkSel SelName (name element)) selectors in
  (* Priority 5: getByPlaceholder *)
  let selectors :=
    pushIf (truthy_str (placeholder element))
           (mkSel SelPlaceholder (placeholder element)) selectors in
  (* Priority 6: CSS selector for pseudo-element buttons *)
  let selectors :=
    if hasVisiblePseudoElement element && str_eqb (tag element) (lit "button") then
      let selectors :=
        pushIf (str_eqb (type_ element) (lit "submit"))
               (mkSel SelLocator (lit "button[type=" ++ dquote ++ lit "submit" ++
                                  dquote ++ lit "]")) selectors in
      if truthy_str (className element) then
        let firstClass := beforeFirstSpace (className element) in
        pushIf (truthy_str firstClass && negb (hasUtilityClassPrefix firstClass))
               (mkSel SelLocator (lit "button." ++ firstClass)) selectors
      else selectors
    else selectors in
  (* Priority 7: getByRole *)
  let selectors :=
    if negb (hasVisiblePseudoElement element) && truthy_str (role element) then
      let accessibleName :=
        if truthy_str (ariaLabel element) then ariaLabel element else text element in
      pushIf (truthy_str accessibleName)
             {| selType := SelRole; selValue := role element;
                roleOptionsName := Some accessibleName; nth := None |} selectors
    else selectors in
  (* Priority 8: getByText *)
  let selectors :=
    pushIf (negb (hasVisiblePseudoElement element) && truthy_str (text element))
           (mkSel SelText (text element)) selectors in
  (* Priority 9: parent-scoped locator *)
  let selectors :=
    match parent element with
    | Some p =>
        if truthy_str (parentClassName p) then
          let parentClass := beforeFirstSpace (parentClassName p) in
          pushIf (truthy_str parentClass)
                 (mkSel SelLocator (lit "." ++ parentClass ++ lit " " ++ tag element))
                 selectors
        else selectors
    | None => selectors
    end in
  selectors.

(** *** Duplicate-marker reconciliation (compiled handler) *)

(** What the in-page callback of [resolveSomTarget] reads off one node that
    carries the queried [tc-som-id]: lower-cased tag, class attribute,
    trimmed text, [aria-label], bounding box. *)
Record NodeSnapshot : Type := {
  nTag : jsstring;
  nClassName : jsstring;
  nText : jsstring;
  nAriaLabel : jsstring;
  nBBox : BBox;
}.

Record Candidate : Type := {
  index : nat;
  cTag : jsstring;
  cClassName : jsstring;
  cText : jsstring;
  cAriaLabel : jsstring;
  cBBox : BBox;
  score : option nat;   (* absent on the single-node path *)
}.

Definition candidateOf (idx : nat) (n : NodeSnapshot) : Candidate :=
  {| index := idx; cTag := nTag n; cClassName := nClassName n; cText := nText n;
     cAriaLabel := nAriaLabel n; cBBox := nBBox n; score := None |}.

Definition scoreOf (c : Candidate) : nat := default 0%nat (score c).

(** [new Set(s.split(/\s+/).map(t => t.trim()).filter(Boolean))] *)
Definition classTokens (s : jsstring) : gset jsstring :=
  list_to_set (filter (λ t, truthy_str t = true) (map trim (splitWs s))).

(** A number used as a condition: zero is falsy. *)
Definition truthy_q (q : Q) : bool := negb (Qeq_bool q 0).

Definition scoreCandidate (expected : SomElement) (candidate : Candidate) : nat :=
  let expectedTag := toLowerCase (tag expected) in
  let expectedText := trim (text expected) in
  let expectedAria := trim (ariaLabel expected) in
  let expectedClassTokens := classTokens (className expected) in
  let expectedBBox := bbox expected in
  let candidateClassTokens := classTokens (cClassName candidate) in
  let score := 0%nat in
  let score :=
    if str_eqb (cTag candidate) expectedTag && truthy_str expectedTag
    then (score + 5)%nat else score in
  let score :=
    if (0 <? size expectedClassTokens)%nat then
      let hasAllClasses :=
        forallb (λ cls, bool_decide (cls ∈ candidateClassTokens))
                (elements expectedClassTokens) in
      let overlap :=
        existsb (λ cls, bool_decide (cls ∈ candidateClassTokens))
                (elements expectedClassTokens) in
      if hasAllClasses then (score + 5)%nat
      else if overlap then (score + 3)%nat else score
    else score in
  let candidateText := trim (cText candidate) in
  let score :=
    if truthy_str expectedText then
      if str_eqb candidateText expectedText then (score + 4)%nat
      else if includes candidateText expectedText then (score + 2)%nat else score
    else score in
  let candidateAria := trim (cAriaLabel candidate) in
  let score :=
    if truthy_str expectedAria && str_eqb candidateAria expectedAria
    then (score + 2)%nat else score in
  let bbox_ := cBBox candidate in
  let score :=
    if truthy_q (width expectedBBox) && truthy_q (height expectedBBox) then
      let widthDiff := Qabs (width bbox_ - width expectedBBox) in
      let heightDiff := Qabs (height bbox_ - height expectedBBox) in
      if Qltb widthDiff 2 && Qltb heightDiff 2 then (score + 2)%nat
      else if Qltb widthDiff 6 && Qltb heightDiff 6 then (score + 1)%nat else score
    else score in
  score.

Definition withScore (expected : SomElement) (c : Candidate) : Candidate :=
  {| index := index c; cTag := cTag c; cClassName := cClassName c; cText := cText c;
     cAriaLabel := cAriaLabel c; cBBox := cBBox c;
     score := Some (scoreCandidate expected c) |}.

(** The selection loop: [best] starts at [scored[0]] and is replaced by a
    candidate with a strictly higher score, or the same score and a lower
    index. *)
Definition better (candidate best : Candidate) : bool :=
  (scoreOf best <? scoreOf candidate)%nat ||
  ((scoreOf candidate =? scoreOf best)%nat && (index candidate <? index best)%nat).

Definition pickBest (scored : list Candidate) : option Candidate :=
  match scored with
  | [] => None
  | first :: _ =>
      Some (foldl (λ best candidate, if better candidate best then candidate else best)
                  first scored)
  end.

Record Resolution : Type := {
  resIndex : nat;
  duplicateCount : nat;
  candidates : list Candidate;
}.

(** [nodes] is what [document.querySelectorAll('[tc-som-id="ref"]')] finds,
    in document order. *)
Definition resolveSomTarget (nodes : list NodeSnapshot) (elementRef : jsstring)
    (expected : SomElement) : Outcome Resolution :=
  let duplicates := imap candidateOf nodes in
  let duplicateCount := length duplicates in
  if (duplicateCount <=? 1)%nat then
    Returns {| resIndex := 0; duplicateCount := duplicateCount; candidates := duplicates |}
  else
    let scored := map (withScore expected) duplicates in
    match pickBest scored with
    | None =>
        Throws (SomReannotationRequiredError
                  (lit "Duplicate SoM id " ++ dquote ++ elementRef ++ dquote ++
                   lit " no longer matches original element"))
    | Some best =>
        if (scoreOf best <=? 0)%nat then
          Throws (SomReannotationRequiredError
                    (lit "Duplicate SoM id " ++ dquote ++ elementRef ++ dquote ++
                     lit " no longer matches original element"))
        else
          Returns {| resIndex := index best; duplicateCount := duplicateCount;
                     candidates := scored |}
    end.


(** *** Command execution *)

(** The handler's own state: whether [this.page] is there and open, and the
    marker map. ([canvasInjected] and [mutationsList] feed no result that is
    modelled here.) *)
Record Handler : Type := {
  pageOpen : bool;
  somMap : gmap jsstring SomElement;
}.

(** Answers of the browser side during one [runCommand]. [tryExecuteAction]
    and [executeCoordinateAction] are the handler methods that drive
    Playwright (locator actions with their one-shot heuristics, and mouse /
    keyboard actions at the element's centre); their results are taken as
    given. *)
Record Driver : Type := {
  navigateOutcome : SomCommand -> option Thrown;
  percentageCoordinateOutcome : SomCommand -> option Thrown;
  markedNodes : jsstring -> list NodeSnapshot;
  tryExecuteAction : TypedSelector -> SomCommand -> SomElement -> SemanticCommandResult;
  executeCoordinateAction : SomCommand -> SomElement -> SemanticCommandResult;
  filterRelevantMutations : list jsstring;
}.

(** What [runCommand] calls on the browser side, in order: operations of
    the page, and the handler's own [tryExecuteAction] and
    [executeCoordinateAction]. A call of [tryExecuteAction] is one entry,
    whatever it tries on the page by itself (the action on the locator, and
    after a failure once more after a scroll, with [force], after a wait, or
    with a selector refined by the parent). *)
Inductive DriverCall : Type :=
| DoNavigate (c : SomCommand)
| DoPercentageCoordinate (c : SomCommand)
| DoQueryMarked (ref : jsstring)
| DoSetupMutationObserver
| DoDisconnectMutationObserver
| DoSelectorAttempt (sel : TypedSelector) (c : SomCommand)
| DoCoordinateAction (c : SomCommand)
| DoWaitForTimeout (ms : N).

Definition isNavigation (a : InteractionAction) : bool :=
  match a with
  | NAVIGATE | GO_BACK | GO_FORWARD | RELOAD => true
  | _ => false
  end.

Definition isHoverOrFocus (a : InteractionAction) : bool :=
  match a with HOVER | FOCUS => true | _ => false end.

Definition successResult (cmd : jsstring) : SemanticCommandResult :=
  {| failedAttempts := [];
     successAttempt := Some {| attemptCommand := Some cmd; attemptStatus := SUCCESS;
                               attemptError := None |};
     error := None; status := SUCCESS; mutations := None |}.

Definition failedResult (cmd msg : jsstring) : SemanticCommandResult :=
  {| failedAttempts := [{| attemptCommand := Some cmd; attemptStatus := FAILURE;
                           attemptError := Some msg |}];
     successAttempt := None; error := Some msg; status := FAILURE; mutations := None |}.

(** A failure that tried nothing. *)
Definition rejectedResult (msg : jsstring) : SemanticCommandResult :=
  {| failedAttempts := []; successAttempt := None; error := Some msg;
     status := FAILURE; mutations := None |}.

Definition withForce (c : SomCommand) : SomCommand :=
  {| elementRef := elementRef c; action := action c; coord := coord c;
     value := value c; force := Some true; durationSeconds := durationSeconds c |}.

(** [{ ...command, force: true }] for pseudo-element targets of click and
    hover actions, the command itself otherwise. *)
Definition modifiedCommand (element : SomElement) (command : SomCommand) : SomCommand :=
  if hasVisiblePseudoElement element &&
     match action command with
     | CLICK | DOUBLE_CLICK | RIGHT_CLICK | HOVER => true
     | _ => false
     end
  then withForce command else command.

Definition withMutations (r : SemanticCommandResult) (m : list jsstring)
  : SemanticCommandResult :=
  {| failedAttempts := failedAttempts r; successAttempt := successAttempt r;
     error := error r; status := status r; mutations := Some m |}.

Definition withFailedAttempts (r : SemanticCommandResult) (l : list CommandAttempt)
  : SemanticCommandResult :=
  {| failedAttempts := l; successAttempt := successAttempt r;
     error := error r; status := status r; mutations := mutations r |}.

(** The loop over the semantic selectors. Returns the successful result, if
    any, the failed attempts gathered so far and the calls made. *)
Fixpoint trySelectors (drv : Driver) (element : SomElement) (command : SomCommand)
    (selectors : list TypedSelector) (failed : list CommandAttempt)
  : option SemanticCommandResult * list CommandAttempt * list DriverCall :=
  match selectors with
  | [] => (None, failed, [])
  | selector :: rest =>
      let cmd := modifiedCommand element command in
      let result := tryExecuteAction drv selector cmd element in
      let call := DoSelectorAttempt selector cmd in
      match status result with
      | SUCCESS =>
          if isHoverOrFocus (action command)
          then (Some (withMutations result (filterRelevantMutations drv)), failed,
                [call; DoWaitForTimeout 500; DoDisconnectMutationObserver])
          else (Some result, failed, [call; DoDisconnectMutationObserver])
      | FAILURE =>
          let '(r, f, t) :=
            trySelectors drv element command rest (failed ++ failedAttempts result) in
          (r, f, call :: t)
      end
  end.

Definition maxAttempts : nat := 7.

Definition somIdSelector (ref : jsstring) (res : Resolution) : TypedSelector :=
  {| selType := SelLocator;
     selValue := lit "[tc-som-id=" ++ dquote ++ ref ++ dquote ++ lit "]";
     roleOptionsName := None;
     nth := if (0 <? resIndex res)%nat then Some (resIndex res) else None |}.

(** [command.coord && !command.elementRef]: the coordinate of a command
    that is aimed at a point of the viewport. *)
Definition percentageTarget (command : SomCommand) : option Coordinate :=
  match coord command with
  | Some xy => if negb (truthy_ostr (elementRef command)) then Some xy else None
  | None => None
  end.

(** [runCommand] of the compiled handler; the TypeScript source differs only
    in not calling [resolveSomTarget] (and so never filling [nth]). *)
Definition runCommand (h : Handler) (drv : Driver) (command : SomCommand)
    (useSomIdBasedCommands : bool)
  : Outcome SemanticCommandResult * list DriverCall :=
  if negb (pageOpen h) then
    (Throws (Error (lit "Cannot run command: page is null or closed")), [])
  else if isNavigation (action command) then
    let failure e :=
      failedResult (lit "Navigation action: " ++ actionName (action command))
                   (thrownMessage e) in
    let go (playwrightCommand : jsstring) :=
      match navigateOutcome drv command with
      | None => (Returns (successResult playwrightCommand), [DoNavigate command])
      | Some e => (Returns (failure e), [DoNavigate command])
      end in
    match action command with
    | NAVIGATE =>
        if negb (truthy_ostr (value command)) then
          (Returns (failure (Error (lit "NAVIGATE action requires URL in value field"))), [])
        else go (lit "await page.goto('" ++ default [] (value command) ++ lit "')")
    | GO_BACK => go (lit "await page.goBack()")
    | GO_FORWARD => go (lit "await page.goForward()")
    | _ => go (lit "await page.reload()")
    end
  else
    match percentageTarget command with
    | Some xy =>
        let text_ :=
          lit "Coordinate action: " ++ actionName (action command) ++ lit " at (" ++
          numberToString (Fin (cx xy)) ++ lit "%, " ++
          numberToString (Fin (cy xy)) ++ lit "%)" in
        match percentageCoordinateOutcome drv command with
        | None => (Returns (successResult text_), [DoPercentageCoordinate command])
        | Some e => (Returns (failedResult text_ (thrownMessage e)),
                     [DoPercentageCoordinate command])
        end
    | None =>
        (* Lookup element in SoM map *)
        if negb (truthy_ostr (elementRef command)) then
          (Returns (rejectedResult
                      (lit "Command must have either elementRef or coord specified")), [])
        else
          let ref := default [] (elementRef command) in
          match somMap h !! ref with
          | None =>
              (Returns (rejectedResult
                          (lit "Element with SoM ID " ++ dquote ++ ref ++ dquote ++
                           lit " not found in map")), [])
          | Some element =>
              match resolveSomTarget (markedNodes drv ref) ref element with
              | Throws e => (Throws e, [DoQueryMarked ref])
              | Returns duplicateResolution =>
                  let opening :=
                    DoQueryMarked ref ::
                    (if isHoverOrFocus (action command)
                     then [DoSetupMutationObserver] else []) in
                  let selector := somIdSelector ref duplicateResolution in
                  let cmd := modifiedCommand element command in
                  let somResult := tryExecuteAction drv selector cmd element in
                  let first := opening ++ [DoSelectorAttempt selector cmd] in
                  match status somResult with
                  | SUCCESS =>
                      (Returns somResult, first ++ [DoDisconnectMutationObserver])
                  | FAILURE =>
                      let '(found, failed, calls) :=
                        if useSomIdBasedCommands
                        then (None, failedAttempts somResult, [])
                        else trySelectors drv element command
                               (take maxAttempts (generateSemanticSelectors element))
                               (failedAttempts somResult) in
                      match found with
                      | Some result => (Returns result, first ++ calls)
                      | None =>
                          let coordResult := executeCoordinateAction drv command element in
                          let final :=
                            match status coordResult with
                            | SUCCESS => withFailedAttempts coordResult failed
                            | FAILURE =>
                                if (0 <? length failed)%nat
                                then withFailedAttempts coordResult
                                       (failed ++ failedAttempts coordResult)
                                else coordResult
                            end in
                          (Returns final,
                           first ++ calls ++
                           [DoCoordinateAction command; DoDisconnectMutationObserver])
                      end
                  end
              end
          end
    end.

(** *** Annotation *)

(** A DOM node, by identity. *)
Abbreviation Node := nat (only parsing).

(** [getBoundingClientRect()]; width and height are never negative there,
    so [left = x] and [top = y]. *)
Record Rect : Type := { left : Q; top : Q; rectWidth : Q; rectHeight : Q }.

Definition right (r : Rect) : Q := (left r + rectWidth r)%Q.
Definition bottom (r : Rect) : Q := (top r + rectHeight r)%Q.

(** The three properties of [getComputedStyle(el)] the scan reads;
    [opacity] is [parseFloat(styles.opacity)]. *)
Record ComputedStyle : Type := {
  display : jsstring;
  visibility : jsstring;
  opacity : jsnum;
}.

(** [getComputedStyle(el, '::before')] and [..., '::after')]. *)
Record PseudoStyle : Type := {
  content : jsstring;
  pseudoVisibility : jsstring;
  pseudoDisplay : jsstring;
}.

(** The five ways an element can be marked disabled. *)
Record DisabledMarks : Type := {
  disabledProp : bool;        (* el.disabled *)
  disabledAttr : bool;        (* el.hasAttribute('disabled') *)
  ariaDisabled : bool;        (* aria-disabled === 'true' *)
  dataDisabled : bool;        (* data-disabled === 'true' *)
  disabledClass : bool;       (* classList contains 'disabled' *)
}.

Record RawParent : Type := {
  rpTagName : jsstring;
  rpRoleAttr : option jsstring;
  rpClassName : jsstring;
  rpTextContent : jsstring;
}.

(** The attribute and property reads behind one descriptor. *)
Record RawDetails : Type := {
  tagName : jsstring;
  roleAttr : option jsstring;
  textContent : jsstring;
  ariaLabelAttr : option jsstring;
  altAttr : option jsstring;
  placeholderProp : option jsstring;
  nameAttr : option jsstring;
  typeProp : option jsstring;
  idProp : jsstring;
  classNameProp : jsstring;
  labelForContent : option jsstring;      (* text of label[for=id], if there is one *)
  wrappingLabelContent : option jsstring; (* text of the nearest label ancestor below body *)
  parentElement : option RawParent;
}.

(** The page as the in-page callback of [updateSom] sees it.
    [topLevelInteractive] is the set the discovery steps end with (allow-list
    queries over the document and its shadow roots, container promotion,
    styled-as-interactive elements, labels of hidden inputs, minus
    descendants of true interactive elements), in its iteration order. *)
Record DomView : Type := {
  topLevelInteractive : list Node;
  rectOf : Node -> Rect;
  styleOf : Node -> ComputedStyle;
  beforeOf : Node -> PseudoStyle;
  afterOf : Node -> PseudoStyle;
  disabledOf : Node -> DisabledMarks;
  rawOf : Node -> RawDetails;
  elementFromPoint : Q -> Q -> option Node;
  contains : Node -> Node -> bool;      (* a.contains(b) *)
  innerWidth : Q;
  innerHeight : Q;
}.

Definition isZero (x : jsnum) : bool :=
  match x with Fin q => Qeq_bool q 0 | _ => false end.

Definition Qmaxb (a b : Q) : Q := if Qle_bool a b then b else a.
Definition Qminb (a b : Q) : Q := if Qle_bool a b then a else b.

Definition pseudoShows (p : PseudoStyle) : bool :=
  negb (str_eqb (content p) (lit "none")) &&
  str_eqb (pseudoVisibility p) (lit "visible") &&
  negb (str_eqb (pseudoDisplay p) (lit "none")).

(** [hasVisiblePseudo] of the scan. *)
Definition hasVisiblePseudo (v : DomView) (el : Node) : bool :=
  let styles := styleOf v el in
  if str_eqb (visibility styles) (lit "hidden") || isZero (opacity styles)
  then pseudoShows (beforeOf v el) || pseudoShows (afterOf v el)
  else false.

Definition isHidden (v : DomView) (el : Node) : bool :=
  let styles := styleOf v el in
  str_eqb (display styles) (lit "none") ||
  (str_eqb (visibility styles) (lit "hidden") && isZero (opacity styles)).

Definition isDisabled (v : DomView) (el : Node) : bool :=
  let d := disabledOf v el in
  disabledProp d || disabledAttr d || ariaDisabled d || dataDisabled d || disabledClass d.

(** The five sample points: centre, then the four corners moved inwards. *)
Definition testPoints (rect : Rect) : list (Q * Q) :=
  let centerX := (left rect + rectWidth rect / 2)%Q in
  let centerY := (top rect + rectHeight rect / 2)%Q in
  let inset := Qmaxb 1 (Qminb (rectWidth rect) (rectHeight rect) * (1 # 10))%Q in
  [ (centerX, centerY);
    (left rect + inset, top rect + inset)%Q;
    (right rect - inset, top rect + inset)%Q;
    (left rect + inset, bottom rect - inset)%Q;
    (right rect - inset, bottom rect - inset)%Q ].

Definition isInViewport (v : DomView) (rect : Rect) : bool :=
  Qltb (top rect) (innerHeight v) && Qltb 0 (bottom rect) &&
  Qltb (left rect) (innerWidth v) && Qltb 0 (right rect).

(** Whether the top element at a point is [el], inside [el], or around [el]. *)
Definition hitShows (v : DomView) (el : Node) (pt : Q * Q) : bool :=
  match elementFromPoint v (fst pt) (snd pt) with
  | Some topEl => (topEl =? el)%nat || contains v el topEl || contains v topEl el
  | None => false
  end.

Definition visiblePoints (v : DomView) (el : Node) : nat :=
  length (filter (λ pt, hitShows v el pt = true) (testPoints (rectOf v el))).

(** The filter of the scan: [true] when the callback reaches the line that
    assigns a marker to [el], [false] when it returns before. *)
Definition getsMarker (v : DomView) (includeOffscreen includeDisabled : bool)
    (el : Node) : bool :=
  let rect := rectOf v el in
  if Qeq_bool (rectWidth rect) 0 || Qeq_bool (rectHeight rect) 0 then false
  else if isHidden v el && negb (hasVisiblePseudo v el) then false
  else if isDisabled v el && negb includeDisabled then false
  else if negb includeOffscreen && isInViewport v rect then
    (* in the viewport: dropped when no sample point shows it *)
    if (visiblePoints v el <? 1)%nat then false else true
  else if includeOffscreen && negb (isInViewport v rect) then true
  else if negb includeOffscreen && negb (isInViewport v rect) then false
  else true.

(** [s.replace(/^["']|["']$/g, '')]: one quote off each end. *)
Definition isQuote (c : N) : bool := (c =? 34) || (c =? 39).

Definition stripLeadingQuote (s : jsstring) : jsstring :=
  match s with c :: s' => if isQuote c then s' else s | [] => [] end.

Definition stripQuotes (s : jsstring) : jsstring :=
  rev (stripLeadingQuote (rev (stripLeadingQuote s))).

Definition orEmpty (o : option jsstring) : jsstring :=
  if truthy_ostr o then default [] o else [].

(** The descriptor pushed for a marked element. *)
Definition describe (v : DomView) (el : Node) (somId_ : jsstring) : SomElement :=
  let raw := rawOf v el in
  let rect := rectOf v el in
  let styles := styleOf v el in
  let pseudo := hasVisiblePseudo v el in
  let displayText := take 50 (trim (textContent raw)) in
  let displayText :=
    if pseudo && (negb (truthy_str displayText) ||
                  str_eqb (visibility styles) (lit "hidden")) then
      let before := content (beforeOf v el) in
      let after := content (afterOf v el) in
      if truthy_str before && negb (str_eqb before (lit "none")) then stripQuotes before
      else if truthy_str after && negb (str_eqb after (lit "none")) then stripQuotes after
      else displayText
    else displayText in
  let tagLower := toLowerCase (tagName raw) in
  let accessibleName := orEmpty (ariaLabelAttr raw) in
  let accessibleName :=
    if str_eqb tagLower (lit "img") && negb (truthy_str accessibleName)
    then orEmpty (altAttr raw) else accessibleName in
  let labelText_ :=
    if isFormField tagLower then
      let byFor :=
        if truthy_str (idProp raw) then
          match labelForContent raw with
          | Some t => trim t
          | None => []
          end
        else [] in
      if negb (truthy_str byFor) then
        match wrappingLabelContent raw with
        | Some t => trim t
        | None => byFor
        end
      else byFor
    else [] in
  {| somId := somId_;
     tag := tagLower;
     role := if truthy_ostr (roleAttr raw) then default [] (roleAttr raw) else tagLower;
     text := displayText;
     ariaLabel := accessibleName;
     labelText := labelText_;
     placeholder := orEmpty (placeholderProp raw);
     name := orEmpty (nameAttr raw);
     type_ := orEmpty (typeProp raw);
     id := idProp raw;
     className := classNameProp raw;
     bbox := {| bx := mathRound (left rect); by_ := mathRound (top rect);
                width := mathRound (rectWidth rect);
                height := mathRound (rectHeight rect) |};
     hasVisiblePseudoElement := pseudo;
     parent :=
       match parentElement raw with
       | Some p =>
           Some {| parentTag := toLowerCase (rpTagName p);
                   parentRole := orEmpty (rpRoleAttr p);
                   parentClassName := rpClassName p;
                   parentText := take 30 (trim (rpTextContent p)) |}
       | None => None
       end |}.

(** State of the in-page scan: the counter, the descriptors pushed so far
    and the [tc-som-id] attributes of the document. *)
Record Scan : Type := {
  idCounter : N;
  scanned : list SomElement;
  somAttr : gmap Node jsstring;
}.

(** One iteration of [topLevelInteractive.forEach]. *)
Definition scanStep (v : DomView) (includeOffscreen includeDisabled : bool)
    (s : Scan) (el : Node) : Scan :=
  if getsMarker v includeOffscreen includeDisabled el then
    let somId_ := decimal (idCounter s) in
    {| idCounter := idCounter s + 1;
       scanned := scanned s ++ [describe v el somId_];
       somAttr := <[el := somId_]> (somAttr s) |}
  else s.

(** The in-page callback: the descriptors in discovery order, and the
    attributes it leaves on the document. Attributes are only ever set. *)
Definition scanPage (v : DomView) (includeOffscreen includeDisabled : bool)
    (attrs : gmap Node jsstring) : Scan :=
  foldl (scanStep v includeOffscreen includeDisabled)
        {| idCounter := 1; scanned := []; somAttr := attrs |}
        (topLevelInteractive v).

(** [this.somMap.clear(); elements.forEach(el => this.somMap.set(el.somId, el))] *)
Definition rebuildMap (elements : list SomElement) : gmap jsstring SomElement :=
  foldl (λ m el, <[somId el := el]> m) ∅ elements.

Record Annotated : Type := {
  count : nat;                        (* the value returned *)
  handlerAfter : Handler;
  attrsAfter : gmap Node jsstring;    (* tc-som-id attributes of the document *)
}.

(** [updateSom]. The coordinate-marker removal and the overlay drawing only
    touch the overlay layer and are not represented; the in-page callbacks
    are taken to run to completion. *)
Definition updateSom (h : Handler) (v : DomView) (attrs : gmap Node jsstring)
    (includeOffscreen includeDisabled : bool) : Annotated :=
  if negb (pageOpen h) then
    {| count := 0; handlerAfter := h; attrsAfter := attrs |}
  else
    let s := scanPage v includeOffscreen includeDisabled attrs in
    let elements := scanned s in
    {| count := length elements;
       handlerAfter := {| pageOpen := pageOpen h; somMap := rebuildMap elements |};
       attrsAfter := somAttr s |}.

End SomHandler.

(** ** The orchestrator ([index.ts]) *)

Module Orchestrator.

Import SomHandler.

(** *** Collaborators: scripted answers and the log of calls *)

Inductive Call : Type :=
| CallWaitForTimeout (ms : jsnum)
| CallWaitForPageStability
| CallPrepare                                (* [prepare()] of [stabilizeForLlm] *)
| CallScreenshot                             (* [capturePageScreenshot] in [extract] *)
| CallAiAct (waitCount waitRetryLimit : N)   (* [callAiAction] with the act prompt *)
| CallAiVerify
| CallAiExtract
| CallUpdateSom                              (* [handler.updateSom(false)] outside [prepare] *)
| CallExecuteSomCommand (c : SomCommand)     (* the Action Executor *)
| CallExpect (passed : bool) (message : jsstring).  (* a matcher of the host's [expect] *)

(** What the driver answers, call by call: [None] is a promise that
    resolves, [Some e] one that rejects with [e]. [waitForTimeout] and
    [waitForPageStability] are taken to resolve. *)
Record World : Type := {
  prepareS : list (option Thrown);
  updateSomS : list (option Thrown);
  executeS : list (Outcome SemanticCommandResult);
  trace : list Call;
}.

(** A run ends with a value, with an exception, or because a script had no
    answer left ([Stuck]). *)
Inductive Run (A : Type) : Type :=
| Val (a : A) (w : World)
| Exc (e : Thrown) (w : World)
| Stuck.
Arguments Val {A} a w.
Arguments Exc {A} e w.
Arguments Stuck {A}.

Definition M (A : Type) : Type := World -> Run A.

Definition ret {A} (a : A) : M A := λ w, Val a w.
Definition throw {A} (e : Thrown) : M A := λ w, Exc e w.
Definition stuck {A} : M A := λ _, Stuck.

Definition bind {A B} (m : M A) (k : A -> M B) : M B :=
  λ w, match m w with
       | Val a w' => k a w'
       | Exc e w' => Exc e w'
       | Stuck => Stuck
       end.

(** [try { m } catch (error) { h error }] *)
Definition tryCatch {A} (m : M A) (h : Thrown -> M A) : M A :=
  λ w, match m w with
       | Exc e w' => h e w'
       | r => r
       end.

Notation "'await' x ':=' m 'in' k" := (bind m (λ x, k))
  (at level 10, x name, m at level 100, k at level 200, only parsing).
Notation "'run' m 'in' k" := (bind m (λ _, k))
  (at level 10, m at level 100, k at level 200, only parsing).

Definition logged (w : World) (c : Call) : World :=
  {| prepareS := prepareS w; updateSomS := updateSomS w; executeS := executeS w;
     trace := trace w ++ [c] |}.

Definition log (c : Call) : M unit := λ w, Val tt (logged w c).

Definition waitForTimeout (ms : jsnum) : M unit := log (CallWaitForTimeout ms).
Definition waitForPageStability : M unit := log CallWaitForPageStability.

Definition prepare : M unit := λ w,
  match prepareS w with
  | [] => Stuck
  | answer :: rest =>
      let w' := {| prepareS := rest; updateSomS := updateSomS w;
                   executeS := executeS w; trace := trace w ++ [CallPrepare] |} in
      match answer with None => Val tt w' | Some e => Exc e w' end
  end.

Definition handlerUpdateSom : M unit := λ w,
  match updateSomS w with
  | [] => Stuck
  | answer :: rest =>
      let w' := {| prepareS := prepareS w; updateSomS := rest;
                   executeS := executeS w; trace := trace w ++ [CallUpdateSom] |} in
      match answer with None => Val tt w' | Some e => Exc e w' end
  end.

(** [executeSomCommand]: [runCommand] raced against the per-command timer.
    It resolves to a result, or rejects with a re-annotation request, a
    navigation interruption or another error. *)
Definition executeSomCommand (c : SomCommand) : M SemanticCommandResult := λ w,
  match executeS w with
  | [] => Stuck
  | answer :: rest =>
      let w' := {| prepareS := prepareS w; updateSomS := updateSomS w;
                   executeS := rest; trace := trace w ++ [CallExecuteSomCommand c] |} in
      match answer with Returns r => Val r w' | Throws e => Exc e w' end
  end.

(** The call of [callAiAction] in a round: it is logged and settles to the
    answer scripted for the round. What the client can answer at all is the
    matter of [AiClient.callAiAction]. *)
Definition callAiAction (c : Call) (answer : Outcome AiActionResult) : M AiActionResult :=
  run log c in
  match answer with Returns r => ret r | Throws e => throw e end.

(** *** Constants and small helpers *)

Definition DEFAULT_CONFIDENCE_THRESHOLD : Q := 70.
Definition DEFAULT_WAIT_RETRY_LIMIT : N := 2.
Definition NAVIGATION_RETRY_DELAY_MS : N := 1000.
Definition MIN_WAIT_FOR_DURATION_MS : Q := 5000.
Definition MAX_WAIT_FOR_DURATION_MS : Q := 30000.

Definition numTimes1000 (x : jsnum) : jsnum :=
  match x with
  | NaN => NaN
  | Inf s => Inf s
  | Fin q => mkFin (q * 1000)
  end.

(** [Math.max(x, c)] and [Math.min(x, c)] against a finite constant. *)
Definition numMax (x : jsnum) (c : Q) : jsnum :=
  match x with
  | NaN => NaN
  | Inf true => Fin c
  | Inf false => Inf false
  | Fin q => Fin (Qmaxb q c)
  end.

Definition numMin (x : jsnum) (c : Q) : jsnum :=
  match x with
  | NaN => NaN
  | Inf true => Inf true
  | Inf false => Fin c
  | Fin q => Fin (Qminb q c)
  end.

Definition clampWaitDuration (seconds : option jsnum) : jsnum :=
  let ms :=
    match seconds with
    | Some s => numTimes1000 s
    | None => Fin MIN_WAIT_FOR_DURATION_MS
    end in
  numMin (numMax ms MIN_WAIT_FOR_DURATION_MS) MAX_WAIT_FOR_DURATION_MS.

(** [command.durationSeconds ?? (command.value ? Number(command.value) : undefined)] *)
Definition requestedSeconds (c : SomCommand) : option jsnum :=
  match durationSeconds c with
  | Some d => Some d
  | None =>
      if truthy_ostr (value c) then Some (Number_ (default [] (value c))) else None
  end.

Definition navigationPatterns : list jsstring :=
  [ lit "Execution context was destroyed";
    lit "Target closed";
    lit "Navigation failed because page crashed";
    lit "Navigation failed because browser has disconnected";
    lit "Most likely the page has been closed" ].

Definition isNavigationError (e : Thrown) : bool :=
  let message := thrownMessage e in
  truthy_str message && existsb (λ pattern, includes message pattern) navigationPatterns.

(** [Math.min(waitCount + 1, waitRetryLimit)] *)
Definition bumpCapped (waitCount waitRetryLimit : N) : N :=
  N.min (waitCount + 1) waitRetryLimit.

Definition statusName (s : CommandRunStatus) : jsstring :=
  match s with SUCCESS => lit "success" | FAILURE => lit "failure" end.

(** *** [JSON.stringify] of the failed attempts *)

Definition hexDigit (n : N) : N := if n <? 10 then 48 + n else 87 + n.

Definition hex4 (c : N) : jsstring :=
  [ hexDigit ((c / 4096) mod 16); hexDigit ((c / 256) mod 16);
    hexDigit ((c / 16) mod 16); hexDigit (c mod 16) ].

Definition isHighSurrogate (c : N) : bool := (55296 <=? c) && (c <=? 56319).
Definition isLowSurrogate (c : N) : bool := (56320 <=? c) && (c <=? 57343).

Definition escapeUnit (c : N) : jsstring :=
  if c =? 34 then lit "\" ++ dquote
  else if c =? 92 then lit "\\"
  else if c =? 8 then lit "\b"
  else if c =? 9 then lit "\t"
  else if c =? 10 then lit "\n"
  else if c =? 12 then lit "\f"
  else if c =? 13 then lit "\r"
  else if c <? 32 then lit "\u" ++ hex4 c
  else [c].

(** QuoteJSONString without the outer quotes; [afterHigh] tells that the
    previous unit was a high surrogate that has been kept. *)
Fixpoint escapeUnits (afterHigh : bool) (s : jsstring) : jsstring :=
  match s with
  | [] => []
  | c :: rest =>
      if isHighSurrogate c then
        match rest with
        | d :: _ =>
            if isLowSurrogate d then c :: escapeUnits true rest
            else (lit "\u" ++ hex4 c) ++ escapeUnits false rest
        | [] => lit "\u" ++ hex4 c
        end
      else if isLowSurrogate c then
        (if afterHigh then [c] else lit "\u" ++ hex4 c) ++ escapeUnits false rest
      else escapeUnit c ++ escapeUnits false rest
  end.

Definition jsonString (s : jsstring) : jsstring :=
  dquote ++ escapeUnits false s ++ dquote.

Definition jsonField (key : string) (v : jsstring) : jsstring :=
  dquote ++ lit key ++ dquote ++ lit ":" ++ jsonString v.

(** [normalizeAttempt] followed by its rendering as a JSON object. *)
Definition attemptJson (a : CommandAttempt) : jsstring :=
  let command :=
    if truthy_ostr (attemptCommand a) then default [] (attemptCommand a)
    else lit "unknown" in
  lit "{" ++ jsonField "command" command ++ lit "," ++
  jsonField "status" (statusName (attemptStatus a)) ++
  (if truthy_ostr (attemptError a)
   then lit "," ++ jsonField "error" (default [] (attemptError a)) else []) ++
  lit "}".

Fixpoint joinWith (sep : jsstring) (l : list jsstring) : jsstring :=
  match l with
  | [] => []
  | [x] => x
  | x :: rest => x ++ sep ++ joinWith sep rest
  end.

Definition formatFailedAttemptsLine (attempts : list CommandAttempt) : option jsstring :=
  match attempts with
  | [] => None
  | _ => Some (lit "Attempts: [" ++ joinWith (lit ",") (map attemptJson attempts) ++ lit "]")
  end.

(** [[head, lastError ? `Last error: ...` : undefined, attempts line]
      .filter(Boolean).join('\n')] *)
Definition failureMessage (head : jsstring) (lastError : option jsstring)
    (attempts : list CommandAttempt) : jsstring :=
  joinWith [10]
    (filter (λ l, truthy_str l = true)
       ([head] ++
        (if truthy_ostr lastError
         then [lit "Last error: " ++ default [] lastError] else []) ++
        (match formatFailedAttemptsLine attempts with Some l => [l] | None => [] end))).

(** *** [stabilizeForLlm] *)

Section Stabilize.
Variable description : jsstring.
Variable waitCount waitRetryLimit : N.

(** One pass of the loop; [fuel] bounds the number of further passes,
    which the retry limit bounds anyway. *)
Fixpoint stabilizeFrom (fuel : nat) (attemptsUsed : N) : M N :=
  run (if (waitCount <? attemptsUsed) && (0 <? NAVIGATION_RETRY_DELAY_MS)
       then waitForTimeout (Fin (inject_Z (Z.of_N NAVIGATION_RETRY_DELAY_MS)))
       else ret tt) in
  run waitForPageStability in
  tryCatch
    (run prepare in ret attemptsUsed)
    (λ error,
       if isNavigationError error then
         let attemptsUsed := attemptsUsed + 1 in
         if waitRetryLimit <? attemptsUsed then
           throw (Error (lit "Navigation continued interrupting " ++ description ++
                         lit " beyond retry limit (" ++ decimal waitRetryLimit ++
                         lit ")."))
         else
           match fuel with
           | O => stuck
           | S fuel' => stabilizeFrom fuel' attemptsUsed
           end
       else throw error).

(** Resolves to the wait count after the navigation retries it needed. *)
Definition stabilizeForLlm : M N :=
  stabilizeFrom (N.to_nat (waitRetryLimit - waitCount)) waitCount.
End Stabilize.

(** *** [act()] *)

Record ActState : Type := {
  waitCount : N;
  preActionRetryCount : N;
  aggregateResults : list SemanticCommandResult;
}.

(** How one pass of the [while (true)] loop ends: [continue], or [return]. *)
Inductive Step (S A : Type) : Type :=
| Continue (st : S)
| Return (a : A).
Arguments Continue {S A} st.
Arguments Return {S A} a.

Definition waitResult (durationMs : jsnum) : SemanticCommandResult :=
  successResult (lit "await page.waitForTimeout(" ++ numberToString durationMs ++ lit ")").

Section Act.
Variable objective : jsstring.
Variable waitRetryLimit : N.

(** The loop over the pre-commands; resolves to the results gathered. *)
Fixpoint runPreCommands (preCommands_ : list SomCommand)
    (aggregate : list SemanticCommandResult) : M (list SemanticCommandResult) :=
  match preCommands_ with
  | [] => ret aggregate
  | command :: rest =>
      match action command with
      | WAIT_FOR =>
          let durationMs := clampWaitDuration (requestedSeconds command) in
          run waitForTimeout durationMs in
          runPreCommands rest (aggregate ++ [waitResult durationMs])
      | _ =>
          await result := executeSomCommand command in
          let aggregate := aggregate ++ [result] in
          match status result with
          | FAILURE =>
              throw (Error (failureMessage
                              (lit "AI action failed during pre-commands for objective: "
                               ++ objective)
                              (error result) (failedAttempts result)))
          | SUCCESS => runPreCommands rest aggregate
          end
      end
  end.

(** [updateSom] inside a [try]: [true] when a navigation interrupted it,
    any other error is thrown on. *)
Definition refreshOrNavigation (m : M unit) : M bool :=
  tryCatch (run m in ret false)
           (λ error, if isNavigationError error then ret true else throw error).

(** The loop over the wait-type commands; resolves to
    [navigationRetryRequested]. *)
Fixpoint runWaitCommands (waitCommands : list SomCommand) : M bool :=
  match waitCommands with
  | [] => ret false
  | waitCommand :: rest =>
      let durationMs := clampWaitDuration (requestedSeconds waitCommand) in
      run waitForTimeout durationMs in
      run waitForPageStability in
      await interrupted := refreshOrNavigation handlerUpdateSom in
      if interrupted then ret true else runWaitCommands rest
  end.

(** How the loop over the action-type commands ends. *)
Inductive CommandsEnd : Type :=
| AllRan
| FailedWith (lastError : option jsstring) (failedResult : SemanticCommandResult)
| RetryRequested.     (* reannotationRequested || navigationRetryRequested *)

Fixpoint runCommands (commands : list SomCommand)
    (aggregate : list SemanticCommandResult)
  : M (list SemanticCommandResult * CommandsEnd) :=
  match commands with
  | [] => ret (aggregate, AllRan)
  | command :: rest =>
      await attempt :=
        tryCatch
          (await result := executeSomCommand command in ret (Some result))
          (λ error,
             match error with
             | SomReannotationRequiredError _ => ret None
             | NavigationInProgressError _ => ret None
             | _ => if isNavigationError error then ret None else throw error
             end) in
      match attempt with
      | None => ret (aggregate, RetryRequested)
      | Some result =>
          let aggregate := aggregate ++ [result] in
          await interrupted :=
            refreshOrNavigation (run waitForPageStability in handlerUpdateSom) in
          if interrupted then ret (aggregate, RetryRequested)
          else
            match status result with
            | FAILURE => ret (aggregate, FailedWith (error result) result)
            | SUCCESS => runCommands rest aggregate
            end
      end
  end.

Definition isWaitFor (c : SomCommand) : bool :=
  match action c with WAIT_FOR => true | _ => false end.

Definition nonEmpty {A} (o : option (list A)) : bool :=
  match o with Some (_ :: _) => true | _ => false end.

(** The state a retry of the round starts from after an interruption. *)
Definition retryState (st : ActState) (aggregate : list SemanticCommandResult)
  : ActState :=
  {| waitCount := bumpCapped (waitCount st) waitRetryLimit;
     preActionRetryCount := 0;
     aggregateResults := aggregate |}.

(** One pass of the loop of [act]; [answer] is what [callAiAction] gives
    when the pass reaches it. *)
Definition actRound (answer : Outcome AiActionResult) (st : ActState)
  : M (Step ActState AiActResult) :=
  await waitCount_ :=
    stabilizeForLlm (lit "ai.act objective: " ++ objective)
                    (waitCount st) waitRetryLimit in
  await aiResult := callAiAction (CallAiAct waitCount_ waitRetryLimit) answer in
  if truthy_flag (shouldWait aiResult) then
    if waitRetryLimit <=? waitCount_ then
      throw (Error (lit "LLM requested wait beyond max attempts (" ++
                    decimal waitRetryLimit ++ lit ")."))
    else
      ret (Continue {| waitCount := waitCount_ + 1;
                       preActionRetryCount := preActionRetryCount st;
                       aggregateResults := aggregateResults st |})
  else if truthy_flag (stepCompleted aiResult) then
    ret (Return {| command_results := aggregateResults st;
                   actStatus := SUCCESS; actError := None |})
  else if truthy_flag (requestSomRefresh aiResult) then
    await interrupted :=
      refreshOrNavigation (run waitForPageStability in handlerUpdateSom) in
    (* both ways out of the [try] bump the wait counter and go round again *)
    ret (Continue {| waitCount := bumpCapped waitCount_ waitRetryLimit;
                     preActionRetryCount := 0;
                     aggregateResults := aggregateResults st |})
  else
    let preCommands_ := default [] (preCommands aiResult) in
    await afterPre :=
      (if (0 <? length preCommands_)%nat then
         await aggregate := runPreCommands preCommands_ (aggregateResults st) in
         run waitForPageStability in
         await interrupted := refreshOrNavigation handlerUpdateSom in
         ret (aggregate, interrupted)
       else ret (aggregateResults st, false)) in
    let '(aggregate, interrupted) := afterPre in
    if interrupted then
      ret (Continue {| waitCount := bumpCapped waitCount_ waitRetryLimit;
                       preActionRetryCount := 0;
                       aggregateResults := aggregate |})
    else if truthy_flag (needsRetryAfterPreActions aiResult) then
      if waitRetryLimit <=? preActionRetryCount st then
        throw (Error (lit "LLM requested retry after pre-actions beyond max attempts ("
                      ++ decimal waitRetryLimit ++ lit ")."))
      else
        ret (Continue {| waitCount := 0;
                         preActionRetryCount := preActionRetryCount st + 1;
                         aggregateResults := aggregate |})
    else
      (* ensureCommands: neither refresh nor completion is set here *)
      let commands := default [] (commandsToRun aiResult) in
      if (length commands =? 0)%nat then
        if waitRetryLimit <=? waitCount_ then
          throw (Error (lit "LLM returned empty commands without allowed flags beyond max wait attempts ("
                        ++ decimal waitRetryLimit ++ lit ")."))
        else
          run waitForPageStability in
          ret (Continue {| waitCount := waitCount_ + 1;
                           preActionRetryCount := preActionRetryCount st;
                           aggregateResults := aggregate |})
      else
        let waitCommands := filter (λ c, isWaitFor c = true) commands in
        let actionCommands := filter (λ c, isWaitFor c = false) commands in
        await navigationRetryRequested := runWaitCommands waitCommands in
        let st_ := {| waitCount := waitCount_;
                      preActionRetryCount := preActionRetryCount st;
                      aggregateResults := aggregate |} in
        if navigationRetryRequested then ret (Continue (retryState st_ []))
        else
          await ran := runCommands actionCommands aggregate in
          match ran with
          | (_, RetryRequested) => ret (Continue (retryState st_ []))
          | (aggregate, FailedWith lastError failedResult) =>
              throw (Error (failureMessage
                              (lit "AI action failed for objective: " ++ objective)
                              lastError (failedAttempts failedResult)))
          | (aggregate, AllRan) =>
              ret (Return {| command_results := aggregate;
                             actStatus := SUCCESS; actError := None |})
          end.

(** The loop: one scripted oracle answer per pass. With no answer left the
    pass still stabilizes, and the run is stuck at the oracle call. *)
Fixpoint actLoop (oracle : list (Outcome AiActionResult)) (st : ActState)
  : M AiActResult :=
  match oracle with
  | [] =>
      run stabilizeForLlm (lit "ai.act objective: " ++ objective)
                          (waitCount st) waitRetryLimit in
      stuck
  | answer :: oracle' =>
      await step := actRound answer st in
      match step with
      | Continue st' => actLoop oracle' st'
      | Return response => ret response
      end
  end.

(** [act(objective, context)] for a context that has a page. *)
Definition act (oracle : list (Outcome AiActionResult)) : M AiActResult :=
  actLoop oracle {| waitCount := 0; preActionRetryCount := 0; aggregateResults := [] |}.
End Act.

(** *** [verify()] *)

Record Verification : Type := {
  vSuccess : bool;
  vConfidence : Q;
  vReason : option jsstring;
}.

(** [extractVerification]. (A present [verificationReason] is a string by
    its type here, so the third check of the source cannot fail.) *)
Definition extractVerification (result : AiActionResult) : Outcome Verification :=
  match verificationSuccess result with
  | None => Throws (Error (lit "LLM response missing verificationSuccess field."))
  | Some success =>
      match confidence result with
      | None => Throws (Error (lit "LLM response missing confidence field."))
      | Some c =>
          Returns {| vSuccess := success; vConfidence := c;
                     vReason := verificationReason result |}
      end
  end.

(** How the host's assertion function reports a matcher that does not hold:
    Playwright's [expect] throws, [expect.soft] and recording doubles carry
    on. *)
Inductive ExpectFn : Type := ThrowingExpect | SoftExpect.

(** [expectFn(actual, message).matcher(...)], with the matcher's verdict. *)
Definition expectThat (expectFn : ExpectFn) (passed : bool) (message : jsstring) : M unit :=
  run log (CallExpect passed message) in
  if passed then ret tt
  else match expectFn with
       | ThrowingExpect => throw (AssertionError message)
       | SoftExpect => ret tt
       end.

Section Verify.
Variable requirement : jsstring.
Variable waitRetryLimit : N.
Variable confidence_threshold : option Q.     (* options?.confidence_threshold *)
Variable expectFn : option ExpectFn.          (* options?.expect ?? resolveExpect(context) *)

Definition verifyRound (answer : Outcome AiActionResult) (waitCount_ : N)
  : M (Step N Verification) :=
  await waitCount_ :=
    stabilizeForLlm (lit "ai.verify requirement: " ++ requirement)
                    waitCount_ waitRetryLimit in
  await called :=
    tryCatch
      (await aiResult := callAiAction CallAiVerify answer in ret (inl aiResult))
      (λ error,
         if isNavigationError error then
           let waitCount_ := bumpCapped waitCount_ waitRetryLimit in
           if waitRetryLimit <? waitCount_ then
             throw (Error (lit "Navigation continued interrupting verification for "
                           ++ dquote ++ requirement ++ dquote ++
                           lit " beyond retry limit (" ++ decimal waitRetryLimit ++
                           lit ")."))
           else ret (inr waitCount_)
         else throw error) in
  match called with
  | inr waitCount_ => ret (Continue waitCount_)
  | inl aiResult =>
      if truthy_flag (requestSomRefresh aiResult) then
        ret (Continue (bumpCapped waitCount_ waitRetryLimit))
      else
        match extractVerification aiResult with
        | Throws e => throw e
        | Returns response =>
            if truthy_flag (stepCompleted aiResult) || vSuccess response then
              ret (Return response)
            else
              let threshold :=
                Qmaxb 0 (default DEFAULT_CONFIDENCE_THRESHOLD confidence_threshold) in
              match expectFn with
              | None =>
                  throw (Error (lit "verify() requires Playwright expect. Pass the Playwright test object or provide expect explicitly."))
              | Some expectFn_ =>
                  run expectThat expectFn_
                        (Qle_bool threshold (vConfidence response))
                        (lit "AI verification confidence " ++
                         numberToString (Fin (vConfidence response)) ++
                         lit " is below threshold " ++
                         numberToString (Fin threshold)) in
                  run expectThat expectFn_
                        (vSuccess response)
                        (lit "AI verification failed for requirement: " ++ requirement ++
                         (if truthy_ostr (vReason response)
                          then lit " - " ++ default [] (vReason response)
                          else [])) in
                  ret (Return response)
              end
        end
  end.

Fixpoint verifyLoop (oracle : list (Outcome AiActionResult)) (waitCount_ : N)
  : M Verification :=
  match oracle with
  | [] =>
      run stabilizeForLlm (lit "ai.verify requirement: " ++ requirement)
                          waitCount_ waitRetryLimit in
      stuck
  | answer :: oracle' =>
      await step := verifyRound answer waitCount_ in
      match step with
      | Continue waitCount' => verifyLoop oracle' waitCount'
      | Return response => ret response
      end
  end.

(** [verify(requirement, context, options)] for a context that has a page. *)
Definition verify (oracle : list (Outcome AiActionResult)) : M Verification :=
  verifyLoop oracle 0.
End Verify.

(** *** [extract()] *)

Definition capturePageScreenshot (answer : option Thrown) : M unit :=
  run log CallScreenshot in
  match answer with None => ret tt | Some e => throw e end.

(** [extract(requirement, context, options)] for a context that has a page:
    one screenshot, one oracle call, one coercion. *)
Definition extract (screenshot : option Thrown) (answer : Outcome AiActionResult)
    (return_type : option Extract.ExtractReturnType) : M Extract.Extracted :=
  run capturePageScreenshot screenshot in
  await aiResult := callAiAction CallAiExtract answer in
  match Extract.computeExtractResult aiResult return_type with
  | Returns extracted => ret extracted
  | Throws e => throw e
  end.

(** The world a run starts in. *)
Definition world (prepares updates : list (option Thrown))
    (executions : list (Outcome SemanticCommandResult)) : World :=
  {| prepareS := prepares; updateSomS := updates; executeS := executions; trace := [] |}.

(** Number of oracle calls and of Action Executor dispatches in a log. *)
Definition isOracleCall (c : Call) : bool :=
  match c with CallAiAct _ _ | CallAiVerify | CallAiExtract => true | _ => false end.

Definition isDomAction (c : Call) : bool :=
  match c with CallExecuteSomCommand _ => true | _ => false end.

Definition oracleCalls (t : list Call) : nat := length (filter (λ c, isOracleCall c = true) t).
Definition domActions (t : list Call) : nat := length (filter (λ c, isDomAction c = true) t).

End Orchestrator.

(** ** Selector priority, in the specification's words *)

Module SelectorSpec.

Import SomHandler.

(** An id is taken for stable when it has no colon, none of the generated
    prefixes and no ['«']. *)
Definition stableId (i : jsstring) : Prop :=
  i ≠ [] ∧ includes i (lit ":") = false ∧
  startsWith i (lit "rc_") = false ∧ startsWith i (lit "__") = false ∧
  includes i guillemet = false.

#[export] Instance stableId_dec i : Decision (stableId i).
Proof. unfold stableId. apply _. Defined.

Definition when {A} (P : Prop) `{Decision P} (l : list A) : list A :=
  if decide P then l else [].

Definition byId (e : SomElement) : list TypedSelector :=
  when (stableId (id e)) [mkSel SelId (id e)].

Definition byLabel (e : SomElement) : list TypedSelector :=
  when (labelText e ≠ []) [mkSel SelLabel (labelText e)].

Definition byName (e : SomElement) : list TypedSelector :=
  when (name e ≠ [] ∧ tag e ∈ [lit "input"; lit "textarea"; lit "select"])
       [mkSel SelName (name e)].

Definition byPlaceholder (e : SomElement) : list TypedSelector :=
  when (placeholder e ≠ []) [mkSel SelPlaceholder (placeholder e)].

Definition isPseudoButton (e : SomElement) : Prop :=
  hasVisiblePseudoElement e = true ∧ tag e = lit "button".

(** The CSS selectors of a pseudo-element button: by type for a submit
    button, by first class when that class is not a generated one. *)
Definition byPseudoCss (e : SomElement) : list TypedSelector :=
  when (isPseudoButton e)
    (when (type_ e = lit "submit")
          [mkSel SelLocator (lit "button[type=" ++ dquote ++ lit "submit" ++ dquote ++ lit "]")]
     ++
     when (beforeFirstSpace (className e) ≠ [] ∧
           hasUtilityClassPrefix (beforeFirstSpace (className e)) = false)
          [mkSel SelLocator (lit "button." ++ beforeFirstSpace (className e))]).

Definition accessibleNameOf (e : SomElement) : jsstring :=
  if decide (ariaLabel e = []) then text e else ariaLabel e.

Definition byRole (e : SomElement) : list TypedSelector :=
  when (hasVisiblePseudoElement e = false ∧ role e ≠ [] ∧ accessibleNameOf e ≠ [])
       [{| selType := SelRole; selValue := role e;
           roleOptionsName := Some (accessibleNameOf e); nth := None |}].

Definition byText (e : SomElement) : list TypedSelector :=
  when (hasVisiblePseudoElement e = false ∧ text e ≠ [])
       [mkSel SelText (text e)].

Definition parentClassOf (e : SomElement) : jsstring :=
  match parent e with
  | Some p => beforeFirstSpace (parentClassName p)
  | None => []
  end.

Definition byParentClass (e : SomElement) : list TypedSelector :=
  when (parentClassOf e ≠ [])
       [mkSel SelLocator (lit "." ++ parentClassOf e ++ lit " " ++ tag e)].

(** The eight strategies, most stable first. *)
Definition byPriority (e : SomElement) : list TypedSelector :=
  byId e ++ byLabel e ++ byName e ++ byPlaceholder e ++ byPseudoCss e ++
  byRole e ++ byText e ++ byParentClass e.

(** The strategy kind each segment of the priority list is made of. *)
Definition segmentKinds (e : SomElement) : list (list TypedSelector * SelectorType) :=
  [ (byId e, SelId); (byLabel e, SelLabel); (byName e, SelName);
    (byPlaceholder e, SelPlaceholder); (byPseudoCss e, SelLocator);
    (byRole e, SelRole); (byText e, SelText); (byParentClass e, SelLocator) ].

Definition noRoleNoText (s : TypedSelector) : Prop :=
  selType s ≠ SelRole ∧ selType s ≠ SelText.

End SelectorSpec.

(** ** Candidate scoring, in the specification's words *)

Module ScoringSpec.

Import SomHandler.

#[export] Instance Qeq_decision (a b : Q) : Decision (a == b)%Q := Qeq_dec a b.

#[export] Instance Qlt_decision (a b : Q) : Decision (a < b)%Q.
Proof.
  destruct (Qlt_le_dec a b) as [Hlt | Hle]; [left | right]; [exact Hlt |].
  now apply Qle_not_lt.
Defined.

Section Points.
Variable expected : SomElement.
Variable candidate : Candidate.

Let wanted : gset jsstring := classTokens (className expected).
Let found : gset jsstring := classTokens (cClassName candidate).

Definition tagPoints : nat :=
  if decide (cTag candidate = toLowerCase (tag expected) ∧ tag expected ≠ [])
  then 5 else 0.

Definition classPoints : nat :=
  if decide (wanted = ∅) then 0
  else if decide (wanted ⊆ found) then 5
  else if decide (wanted ∩ found ≠ ∅) then 3
  else 0.

Definition textPoints : nat :=
  if decide (trim (text expected) = []) then 0
  else if decide (trim (cText candidate) = trim (text expected)) then 4
  else if includes (trim (cText candidate)) (trim (text expected)) then 2
  else 0.

Definition ariaPoints : nat :=
  if decide (trim (ariaLabel expected) ≠ [] ∧
             trim (cAriaLabel candidate) = trim (ariaLabel expected))
  then 2 else 0.

Definition widthDiff : Q := Qabs (width (cBBox candidate) - width (bbox expected)).
Definition heightDiff : Q := Qabs (height (cBBox candidate) - height (bbox expected)).

(** The tolerances are strict: a difference of exactly 2px is outside the
    first, one of exactly 6px outside the second. *)
Definition boxPoints : nat :=
  if decide (width (bbox expected) == 0 ∨ height (bbox expected) == 0)%Q then 0
  else if decide (widthDiff < 2 ∧ heightDiff < 2)%Q then 2
  else if decide (widthDiff < 6 ∧ heightDiff < 6)%Q then 1
  else 0.
End Points.


(** Score of the [i]-th node that carries the marker. *)
Definition nodeScore (expected : SomElement) (i : nat) (n : NodeSnapshot) : nat :=
  scoreCandidate expected (candidateOf i n).



End ScoringSpec.

(** ** Sample inputs, used where a statement is tried on concrete data *)

Module Samples.

Import SomHandler.

Definition answer_12_7 : AiActionResult :=
  {| preCommands := None; extractedContentList := Some [lit "12"; lit "7"];
     extractedContent := None; confidence := None; verificationSuccess := None;
     verificationReason := None; commandsToRun := None; shouldWait := None;
     waitReason := None; needsRetryAfterPreActions := None;
     requestSomRefresh := None; somRefreshReason := None; stepCompleted := None |}.

Definition pseudoSubmit : SomElement :=
  {| somId := lit "1"; tag := lit "button"; role := lit "button"; text := lit "Go";
     ariaLabel := []; labelText := []; placeholder := []; name := [];
     type_ := lit "submit"; id := lit "save"; className := lit "cta wide";
     bbox := {| bx := 0; by_ := 0; width := 80; height := 24 |};
     hasVisiblePseudoElement := true; parent := None |}.

Definition box (w h : Q) : BBox := {| bx := 0; by_ := 0; width := w; height := h |}.





Definition saveButton : SomElement :=
  {| somId := lit "3"; tag := lit "button"; role := lit "button"; text := lit "Save";
     ariaLabel := []; labelText := []; placeholder := []; name := [];
     type_ := lit "submit"; id := []; className := lit "btn primary";
     bbox := box 100 20; hasVisiblePseudoElement := false; parent := None |}.



End Samples.

Module AnnotationSpec.

Import SomHandler.

(** The nodes that get a marker in a pass, in discovery order. *)
Definition marked (v : DomView) (includeOffscreen includeDisabled : bool) : list Node :=
  filter (λ el, getsMarker v includeOffscreen includeDisabled el = true)
         (topLevelInteractive v).






End AnnotationSpec.

Module Samples2.
Import SomHandler.

Definition plainStyle : ComputedStyle :=
  {| display := lit "block"; visibility := lit "visible"; opacity := Fin 1 |}.

Definition noPseudo : PseudoStyle :=
  {| content := lit "none"; pseudoVisibility := lit "visible"; pseudoDisplay := lit "inline" |}.

Definition notDisabled : DisabledMarks :=
  {| disabledProp := false; disabledAttr := false; ariaDisabled := false;
     dataDisabled := false; disabledClass := false |}.

Definition attrDisabled : DisabledMarks :=
  {| disabledProp := true; disabledAttr := true; ariaDisabled := false;
     dataDisabled := false; disabledClass := false |}.

Definition rawButton : RawDetails :=
  {| tagName := lit "BUTTON"; roleAttr := None; textContent := lit "OK";
     ariaLabelAttr := None; altAttr := None; placeholderProp := None;
     nameAttr := None; typeProp := Some (lit "submit"); idProp := [];
     classNameProp := []; labelForContent := None; wrappingLabelContent := None;
     parentElement := None |}.

(** Two buttons, nodes 0 and 1, one above the other in a 1000 x 800
    viewport; node 7 is an unrelated overlay. [disabled] tells which nodes
    are disabled, [overlay] whether node 7 covers the whole viewport. *)
Definition twoButtons (disabled : Node -> bool) (overlay : bool) : DomView :=
  {| topLevelInteractive := [0; 1]%nat;
     rectOf := λ el, {| left := 0; top := if (el =? 0)%nat then 0 else 50;
                        rectWidth := 100; rectHeight := 20 |};
     styleOf := λ _, plainStyle;
     beforeOf := λ _, noPseudo;
     afterOf := λ _, noPseudo;
     disabledOf := λ el, if disabled el then attrDisabled else notDisabled;
     rawOf := λ _, rawButton;
     elementFromPoint := λ x y,
       if overlay then Some 7%nat
       else if Qltb y 40 then Some 0%nat else Some 1%nat;
     contains := λ a b, (a =? b)%nat;
     innerWidth := 1000;
     innerHeight := 800 |}.

Definition freshHandler : Handler := {| pageOpen := true; somMap := ∅ |}.

End Samples2.

Module Samples3.
Import SomHandler Samples2.




End Samples3.

Module Samples4.
Import SomHandler.

(** A driver on which every action succeeds at once. *)
Definition obligingDriver : Driver :=
  {| navigateOutcome := λ _, None;
     percentageCoordinateOutcome := λ _, None;
     markedNodes := λ _, [];
     tryExecuteAction := λ _ _ _, successResult (lit "ok");
     executeCoordinateAction := λ _ _, successResult (lit "ok");
     filterRelevantMutations := [] |}.

Definition clickOn (ref : option jsstring) : SomCommand :=
  {| elementRef := ref; action := CLICK; coord := None; value := None;
     force := None; durationSeconds := None |}.

End Samples4.

Module OrchestratorSpec.

Import Orchestrator.

(** The calls of a round in which the page settles at once: stabilization,
    [prepare], then the oracle call [c]. *)
Definition quietRound (c : Call) : list Call :=
  [CallWaitForPageStability; CallPrepare; c].

(** [n] rounds of [act] that settle at once, the wait counter going up from
    [from] by one a round. *)
Definition waitRounds (waitRetryLimit from : N) (n : nat) : list Call :=
  flat_map (λ i, quietRound (CallAiAct (from + N.of_nat i) waitRetryLimit)) (seq 0 n).

(** [n] rounds of [verify] that settle at once. *)
Definition verifyRounds (n : nat) : list Call :=
  flat_map (λ _, quietRound CallAiVerify) (seq 0 n).

(** The world after [calls] more calls, [n] of them [prepare]. *)
Definition advanced (w : World) (n : nat) (calls : list Call) : World :=
  {| prepareS := drop n (prepareS w); updateSomS := updateSomS w;
     executeS := executeS w; trace := trace w ++ calls |}.

(** An oracle answer with [shouldWait] set. *)
Definition asksToWait (answer : Outcome AiActionResult) : Prop :=
  exists r, answer = Returns r /\ truthy_flag (shouldWait r) = true.

(** The page settles at once in each of the next [n] rounds. *)
Definition settles (w : World) (n : nat) : Prop :=
  take n (prepareS w) = replicate n None.

Definition waitLimitMessage (waitRetryLimit : N) : jsstring :=
  lit "LLM requested wait beyond max attempts (" ++ decimal waitRetryLimit ++ lit ").".

Definition confidenceMessage (confidence_ threshold : Q) : jsstring :=
  lit "AI verification confidence " ++ numberToString (Fin confidence_) ++
  lit " is below threshold " ++ numberToString (Fin threshold).

Definition successMessage (requirement : jsstring) (reason : option jsstring) : jsstring :=
  lit "AI verification failed for requirement: " ++ requirement ++
  (if truthy_ostr reason then lit " - " ++ default [] reason else []).

(** Stabilization never touches the Action Executor or the oracle: whatever
    way it ends, the scripts of both are where they were and the calls added
    to the log are waits and [prepare] only. *)
Definition onlyStabilizes (w w' : World) : Prop :=
  executeS w' = executeS w /\ updateSomS w' = updateSomS w /\
  exists t, trace w' = trace w ++ t /\ domActions t = 0%nat /\ oracleCalls t = 0%nat.

Definition isStabilizationCall (c : Call) : bool :=
  match c with
  | CallWaitForTimeout _ | CallWaitForPageStability | CallPrepare => true
  | _ => false
  end.

(** The world after a [prepare] that finds the answers [ps] left. *)
Definition prepared (w : World) (ps : list (option Thrown)) : World :=
  {| prepareS := ps; updateSomS := updateSomS w; executeS := executeS w;
     trace := trace w ++ [CallPrepare] |}.

End OrchestratorSpec.

(** ** Sample oracle answers *)

Module Samples5.
Import Orchestrator.

(** A world in which the next [n] calls of [prepare] succeed. *)
Definition quietWorld (n : nat) : World := world (replicate n None) [] [].

(** [{verificationSuccess: success, confidence: c}] *)
Definition verdict (success : bool) (c : Q) : AiActionResult :=
  {| preCommands := None; extractedContentList := None; extractedContent := None;
     confidence := Some c; verificationSuccess := Some success;
     verificationReason := None;
     commandsToRun := None; shouldWait := None; waitReason := None;
     needsRetryAfterPreActions := None; requestSomRefresh := None;
     somRefreshReason := None; stepCompleted := None |}.

(** [{stepCompleted: true}] *)
Definition completedOnly : AiActionResult :=
  {| preCommands := None; extractedContentList := None; extractedContent := None;
     confidence := None; verificationSuccess := None; verificationReason := None;
     commandsToRun := None; shouldWait := None; waitReason := None;
     needsRetryAfterPreActions := None; requestSomRefresh := None;
     somRefreshReason := None; stepCompleted := Some true |}.

(** [{shouldWait: true, commandsToRun: commands}] *)
Definition waitAnswer (commands : list SomCommand) : AiActionResult :=
  {| preCommands := None; extractedContentList := None; extractedContent := None;
     confidence := None; verificationSuccess := None; verificationReason := None;
     commandsToRun := Some commands; shouldWait := Some true; waitReason := None;
     needsRetryAfterPreActions := None; requestSomRefresh := None;
     somRefreshReason := None; stepCompleted := None |}.

End Samples5.

(** ** Stabilization, pass by pass *)

Module StabilizeSpec.

Import Orchestrator OrchestratorSpec.

(** The back-off before every pass but the first. *)
Definition backoff : Call :=
  CallWaitForTimeout (Fin (inject_Z (Z.of_N NAVIGATION_RETRY_DELAY_MS))).

(** The calls of [k] passes that follow a navigation interruption. *)
Definition retryPasses (k : nat) : list Call :=
  flat_map (λ _, [backoff; CallWaitForPageStability; CallPrepare]) (seq 0 k).

(** The calls of a stabilization of [k + 1] passes. *)
Definition passes (k : nat) : list Call :=
  [CallWaitForPageStability; CallPrepare] ++ retryPasses k.

(** The calls of [k] interrupted passes, and of the pass after them. *)
Definition interruptedPasses (k : nat) : list Call :=
  match k with
  | O => []
  | S k' => [CallWaitForPageStability; CallPrepare] ++ retryPasses k'
  end.

Definition finalPass (k : nat) : list Call :=
  match k with
  | O => [CallWaitForPageStability; CallPrepare]
  | S _ => [backoff; CallWaitForPageStability; CallPrepare]
  end.

(** The world after stabilization made [calls] and left [ps] of [prepare]'s
    answers. *)
Definition stabilized (w : World) (ps : list (option Thrown)) (calls : list Call)
  : World :=
  {| prepareS := ps; updateSomS := updateSomS w; executeS := executeS w;
     trace := trace w ++ calls |}.

(** [prepare] is interrupted by a navigation. *)
Definition interrupted (answer : option Thrown) : Prop :=
  exists e, answer = Some e /\ isNavigationError e = true.

Definition navigationLimitMessage (description : jsstring) (waitRetryLimit : N)
  : jsstring :=
  lit "Navigation continued interrupting " ++ description ++
  lit " beyond retry limit (" ++ decimal waitRetryLimit ++ lit ").".

Definition isPrepareCall (c : Call) : bool :=
  match c with CallPrepare => true | _ => false end.

Definition countPrepares (t : list Call) : nat :=
  length (filter (λ c, isPrepareCall c = true) t).

End StabilizeSpec.

(** ** Sample errors *)

Module Samples6.

(** What Playwright throws when a navigation destroys the page context. *)
Definition navigation : Thrown :=
  Error (lit "page.evaluate: Execution context was destroyed, most likely because of a navigation").

Definition detached : Thrown := Error (lit "Element is not attached to the DOM").

End Samples6.

(** ** Rounds of [act()], call by call *)

Module ActSpec.

Import Orchestrator OrchestratorSpec.

(** An answer that sets none of the flags [act()] looks at before the
    commands and carries no pre-commands. *)
Definition plain (r : AiActionResult) : Prop :=
  truthy_flag (shouldWait r) = false /\
  truthy_flag (stepCompleted r) = false /\
  truthy_flag (requestSomRefresh r) = false /\
  default [] (preCommands r) = [] /\
  truthy_flag (needsRetryAfterPreActions r) = false.

(** The calls around one action command that the executor answers. *)
Definition commandCalls (c : SomCommand) : list Call :=
  [CallExecuteSomCommand c; CallWaitForPageStability; CallUpdateSom].

(** The world after [calls], with what is left of the scripts. *)
Definition after (w : World) (ps us : list (option Thrown))
    (ex : list (Outcome SemanticCommandResult)) (calls : list Call) : World :=
  {| prepareS := ps; updateSomS := us; executeS := ex; trace := trace w ++ calls |}.

Definition succeeded (r : SemanticCommandResult) : Prop := status r = SUCCESS.

(** The commands the executor was given, in order. *)
Definition dispatched (t : list Call) : list SomCommand :=
  omap (λ c, match c with CallExecuteSomCommand c => Some c | _ => None end) t.

Definition actFailureMessage (objective : jsstring) (res : SemanticCommandResult)
  : jsstring :=
  failureMessage (lit "AI action failed for objective: " ++ objective)
                 (error res) (failedAttempts res).

Definition preFailureMessage (objective : jsstring) (res : SemanticCommandResult)
  : jsstring :=
  failureMessage (lit "AI action failed during pre-commands for objective: " ++ objective)
                 (error res) (failedAttempts res).

(** What the executor throws to have the round done again: the marker no
    longer fits the page, or a navigation is under way. *)
Definition asksForRetry (e : Thrown) : Prop :=
  (exists m, e = SomReannotationRequiredError m) \/
  (exists m, e = NavigationInProgressError m) \/
  isNavigationError e = true.

End ActSpec.

(** ** Sample answers that carry commands *)

Module Samples7.
Import Orchestrator.

(** [{preCommands: pre, commandsToRun: commands}] *)
Definition commandsAnswer (pre : option (list SomCommand)) (commands : list SomCommand)
  : AiActionResult :=
  {| preCommands := pre; extractedContentList := None; extractedContent := None;
     confidence := None; verificationSuccess := None; verificationReason := None;
     commandsToRun := Some commands; shouldWait := None; waitReason := None;
     needsRetryAfterPreActions := None; requestSomRefresh := None;
     somRefreshReason := None; stepCompleted := None |}.

Definition click1 : SomCommand := Samples4.clickOn (Some (lit "1")).
Definition click2 : SomCommand := Samples4.clickOn (Some (lit "2")).
Definition click3 : SomCommand := Samples4.clickOn (Some (lit "3")).

Definition clicked : SemanticCommandResult :=
  SomHandler.successResult (lit "await page.locator('#save').click()").

Definition missed : SemanticCommandResult :=
  SomHandler.failedResult (lit "await page.locator('#save').click()")
                          (lit "Timeout 5000ms exceeded.").

End Samples7.

(** ** Waiting rounds of [act()] *)

Module WaitSpec.

Import Orchestrator OrchestratorSpec ActSpec.

(** An answer that has [act()] wait and ask again: [shouldWait] is set, or
    the answer is plain and carries no command (the implicit wait). *)
Definition asksToWaitExplicitly (r : AiActionResult) : Prop :=
  truthy_flag (shouldWait r) = true.

Definition waitsImplicitly (r : AiActionResult) : Prop :=
  plain r /\ default [] (commandsToRun r) = [].

Definition holdsBack (answer : Outcome AiActionResult) : Prop :=
  exists r, answer = Returns r /\ (asksToWaitExplicitly r \/ waitsImplicitly r).

Definition emptyLimitMessage (waitRetryLimit : N) : jsstring :=
  lit "LLM returned empty commands without allowed flags beyond max wait attempts ("
  ++ decimal waitRetryLimit ++ lit ").".

Definition preActionLimitMessage (waitRetryLimit : N) : jsstring :=
  lit "LLM requested retry after pre-actions beyond max attempts ("
  ++ decimal waitRetryLimit ++ lit ").".

(** The calls [t] were made on the way from [w] to [w'], [n] of them to
    [prepare], [n] to the oracle and none to the Action Executor. *)
Definition askedOnly (n : nat) (w w' : World) : Prop :=
  exists t, w' = advanced w n t /\ oracleCalls t = n /\ domActions t = 0%nat.

End WaitSpec.

(** ** A sample answer that asks for a retry after the pre-commands *)

Module Samples8.
(** [{needsRetryAfterPreActions: true, commandsToRun: [click]}] *)
Definition retryAnswer : AiActionResult :=
  {| preCommands := None; extractedContentList := None; extractedContent := None;
     confidence := None; verificationSuccess := None; verificationReason := None;
     commandsToRun := Some [Samples4.clickOn (Some (lit "1"))];
     shouldWait := None; waitReason := None;
     needsRetryAfterPreActions := Some true; requestSomRefresh := None;
     somRefreshReason := None; stepCompleted := None |}.
End Samples8.

(** ** Pre-commands and timed waits, call by call *)

Module PreSpec.

Import Orchestrator OrchestratorSpec ActSpec.

(** An answer whose pre-commands are run: none of the flags looked at
    before them is set. *)
Definition runsPreCommands (r : AiActionResult) : Prop :=
  truthy_flag (shouldWait r) = false /\
  truthy_flag (stepCompleted r) = false /\
  truthy_flag (requestSomRefresh r) = false.

(** The timed wait a [WAIT_FOR] command stands for. *)
Definition timedWait (c : SomCommand) : Call :=
  CallWaitForTimeout (clampWaitDuration (requestedSeconds c)).

(** The calls around a [WAIT_FOR] among the commands to run. *)
Definition waitCalls (c : SomCommand) : list Call :=
  [timedWait c; CallWaitForPageStability; CallUpdateSom].

(** The call a pre-command stands for, and the result it leaves, given the
    results of the executor for the pre-commands that are no waits. *)
Definition preCall (c : SomCommand) : Call :=
  if isWaitFor c then timedWait c else CallExecuteSomCommand c.

Fixpoint preResults (pre : list SomCommand) (results : list SemanticCommandResult)
  : list SemanticCommandResult :=
  match pre with
  | [] => []
  | c :: pre' =>
      if isWaitFor c
      then waitResult (clampWaitDuration (requestedSeconds c)) :: preResults pre' results
      else match results with
           | [] => []
           | res :: results' => res :: preResults pre' results'
           end
  end.

Definition inRange (x : jsnum) : Prop :=
  match x with
  | Fin q => (MIN_WAIT_FOR_DURATION_MS <= q /\ q <= MAX_WAIT_FOR_DURATION_MS)%Q
  | _ => False
  end.

End PreSpec.

(** ** Sample timed waits *)

Module Samples9.

(** [{action: 'waitFor', value: '2'}]: two seconds asked for. *)
Definition pause : SomCommand :=
  {| elementRef := None; action := WAIT_FOR; coord := None; value := Some (lit "2");
     force := None; durationSeconds := None |}.

(** [{action: 'waitFor', durationSeconds: 45}] *)
Definition longPause : SomCommand :=
  {| elementRef := None; action := WAIT_FOR; coord := None; value := None;
     force := None; durationSeconds := Some (Fin 45) |}.

End Samples9.

(** ** What [verify()] and [extract()] leave alone *)

Module ReadOnlySpec.

Import Orchestrator OrchestratorSpec.

Definition isRefreshCall (c : Call) : bool :=
  match c with CallUpdateSom => true | _ => false end.

(** From [w] to [w'] the page was only looked at: no command went to the
    Action Executor and the marker map was not refreshed outside
    [prepare]. *)
Definition onlyLooks (w w' : World) : Prop :=
  executeS w' = executeS w /\ updateSomS w' = updateSomS w /\
  exists t, trace w' = trace w ++ t /\
            Forall (λ c, isDomAction c = false /\ isRefreshCall c = false) t.

(** An oracle call that fails with a navigation interruption. *)
Definition oracleInterrupted (answer : Outcome AiActionResult) : Prop :=
  exists e, answer = Throws e /\ isNavigationError e = true.

End ReadOnlySpec.

(** ** The shape of what [extract()] returns *)

Module ExtractSpec.

Import Extract.

(** What a caller who asked for [returnType] can rely on. *)
Definition shaped (returnType : ExtractReturnType) (v : Extracted) : Prop :=
  match returnType, v with
  | string_array, AStringArray l => l <> []
  | int_array, ANumberArray l => l <> [] /\ Forall (λ x, isFinite x = true) l
  | int, ANumber x => isFinite x = true
  | string_, AString _ => True
  | string_, AStringArray l => (1 < length l)%nat
  | _, _ => False
  end.

(** Nothing but white space. *)
Definition blank (s : jsstring) : Prop := trim s = [].

End ExtractSpec.

(** ** Sample answers to [extract()] *)

Module Samples10.

(** [{extractedContent: "5", extractedContentList: ["7"]}] *)
Definition both : AiActionResult :=
  {| preCommands := None; extractedContentList := Some [lit "7"];
     extractedContent := Some (lit "5");
     confidence := None; verificationSuccess := None; verificationReason := None;
     commandsToRun := None; shouldWait := None; waitReason := None;
     needsRetryAfterPreActions := None; requestSomRefresh := None;
     somRefreshReason := None; stepCompleted := None |}.

(** An empty entry and one of a single space. *)
Definition blanks : AiActionResult :=
  {| preCommands := None; extractedContentList := Some [[]; [32]];
     extractedContent := None;
     confidence := None; verificationSuccess := None; verificationReason := None;
     commandsToRun := None; shouldWait := None; waitReason := None;
     needsRetryAfterPreActions := None; requestSomRefresh := None;
     somRefreshReason := None; stepCompleted := None |}.

End Samples10.

(** ** Counting what [runCommand] sends to the browser *)

Module CommandSpec.

Import SomHandler.

Definition isSelectorAttempt (c : DriverCall) : bool :=
  match c with DoSelectorAttempt _ _ => true | _ => false end.

Definition isCoordinateAction (c : DriverCall) : bool :=
  match c with DoCoordinateAction _ | DoPercentageCoordinate _ => true | _ => false end.

Definition selectorAttempts (calls : list DriverCall) : nat :=
  length (filter (λ c, isSelectorAttempt c = true) calls).

Definition coordinateActions (calls : list DriverCall) : nat :=
  length (filter (λ c, isCoordinateAction c = true) calls).

(** The selectors [tryExecuteAction] was called with, in order. *)
Definition attempted (calls : list DriverCall) : list TypedSelector :=
  omap (λ c, match c with DoSelectorAttempt s _ => Some s | _ => None end) calls.

(** The failed attempts that trying [selectors] in order leaves behind. *)
Definition attemptsLeftBy (drv : Driver) (element : SomElement) (command : SomCommand)
    (selectors : list TypedSelector) : list CommandAttempt :=
  concat (map (λ s, failedAttempts
                      (tryExecuteAction drv s (modifiedCommand element command) element))
              selectors).

(** Every selector of [selectors] fails on [command]. *)
Definition allFail (drv : Driver) (element : SomElement) (command : SomCommand)
    (selectors : list TypedSelector) : Prop :=
  Forall (λ s, status (tryExecuteAction drv s (modifiedCommand element command) element)
               = FAILURE) selectors.

(** The selectors [runCommand] tries for [element], in order. *)
Definition selectorsTried (ref : jsstring) (res : Resolution) (element : SomElement)
    (useSomIdBasedCommands : bool) : list TypedSelector :=
  somIdSelector ref res ::
  (if useSomIdBasedCommands then []
   else take maxAttempts (generateSemanticSelectors element)).

End CommandSpec.

(** ** A driver on which nothing works *)

Module Samples11.
Import SomHandler.

Definition stubbornDriver : Driver :=
  {| navigateOutcome := λ _, Some (Error (lit "net::ERR_NAME_NOT_RESOLVED"));
     percentageCoordinateOutcome := λ _, Some (Error (lit "outside the viewport"));
     markedNodes := λ _, [];
     tryExecuteAction := λ sel _ _, failedResult (selValue sel) (lit "no such element");
     executeCoordinateAction := λ _ _,
       failedResult (lit "await page.mouse.click(50, 10)") (lit "outside the viewport");
     filterRelevantMutations := [] |}.

(** A handler whose map holds the save button under marker 3. *)
Definition saveHandler : Handler :=
  {| pageOpen := true; somMap := {[ lit "3" := Samples.saveButton ]} |}.

Definition noResolution : Resolution :=
  {| resIndex := 0; duplicateCount := 0; candidates := [] |}.

End Samples11.

(** ** [executeSomCommand]: the guard around [runCommand] *)

Module Executor.

Import SomHandler Orchestrator.

Definition createTimeoutFailure (command : SomCommand) (message : jsstring)
  : SemanticCommandResult :=
  failedResult (actionName (action command)) message.

(** What [executeSomCommand(handler, command, timeoutMs)] settles to. [ran]
    is what [handler.runCommand(command)] settles to when it does so before
    the timer of [timeoutMs] fires, [None] when the timer is first. *)
Definition executeSomCommandOutcome (command : SomCommand) (timeoutMs : jsnum)
    (ran : option (Outcome SemanticCommandResult)) : Outcome SemanticCommandResult :=
  match ran with
  | None =>
      Returns (createTimeoutFailure command
                 (lit "Command timed out after " ++ numberToString timeoutMs ++ lit "ms"))
  | Some (Returns result) => Returns result
  | Some (Throws error) =>
      match error with
      | SomReannotationRequiredError _ => Throws error
      | _ =>
          if isNavigationError error
          then Throws (NavigationInProgressError (thrownMessage error))
          else Returns (failedResult (actionName (action command)) (thrownMessage error))
      end
  end.

(** The executor's answer for [command] when it is run on the handler [h]
    and the driver [drv] and settles in time. *)
Definition executedOn (h : Handler) (drv : Driver) (timeoutMs : jsnum)
    (command : SomCommand) : Outcome SemanticCommandResult :=
  executeSomCommandOutcome command timeoutMs (Some (fst (runCommand h drv command false))).

End Executor.

(** ** A sample navigation command *)

Module Samples12.

(** [{action: 'goBack'}] *)
Definition goBack : SomCommand :=
  {| elementRef := None; action := GO_BACK; coord := None; value := None;
     force := None; durationSeconds := None |}.

Definition click9 : SomCommand := Samples4.clickOn (Some (lit "9")).

End Samples12.

(** ** Elements that are never marked *)

Module EligibilitySpec.

Import SomHandler.

(** What keeps an element from getting a marker before the viewport and
    occlusion tests are reached. *)
Definition ruledOut (v : DomView) (includeDisabled : bool) (el : nat) : Prop :=
  (rectWidth (rectOf v el) == 0)%Q \/ (rectHeight (rectOf v el) == 0)%Q \/
  (isHidden v el = true /\ hasVisiblePseudo v el = false) \/
  (isDisabled v el = true /\ includeDisabled = false).

End EligibilitySpec.

(** ** The oracle client ([ai-client.ts]) *)

Module AiClient.

Import Orchestrator.

(** What [JSON.parse] gives. An object is the list of its own properties;
    [field] reads one. A number is finite, or an infinity for a literal
    beyond the range of a double. *)
#[local] Unset Elimination Schemes.
Inductive Json : Type :=
| JNull
| JBool (b : bool)
| JNumber (x : jsnum)
| JString (s : jsstring)
| JArray (items : list Json)
| JObject (fields : list (jsstring * Json)).
#[local] Set Elimination Schemes.

Fixpoint field (key : jsstring) (fields : list (jsstring * Json)) : option Json :=
  match fields with
  | [] => None
  | (k, v) :: rest => if str_eqb k key then Some v else field key rest
  end.

(** [value.key] for one of the keys the validation reads; [None] is
    [undefined]. *)
Definition prop (key : string) (value : Json) : option Json :=
  match value with
  | JObject fields => field (lit key) fields
  | _ => None
  end.

(** Truthiness of a parsed value. *)
Definition truthy (value : Json) : bool :=
  match value with
  | JNull => false
  | JBool b => b
  | JNumber NaN => false
  | JNumber (Fin q) => negb (Qeq_bool q 0)
  | JNumber (Inf _) => true
  | JString s => truthy_str s
  | JArray _ | JObject _ => true
  end.

(** [`${value}`] *)
Fixpoint templ (value : Json) : jsstring :=
  match value with
  | JNull => lit "null"
  | JBool b => if b then lit "true" else lit "false"
  | JNumber x => numberToString x
  | JString s => s
  | JArray items =>
      joinWith (lit ",")
               (map (λ item, match item with JNull => [] | _ => templ item end) items)
  | JObject _ => lit "[object Object]"
  end.

Definition templOpt (value : option Json) : jsstring :=
  match value with Some v => templ v | None => lit "undefined" end.

(** [Number.isFinite(value)] *)
Definition isFiniteNumber (value : option Json) : bool :=
  match value with Some (JNumber x) => isFinite x | _ => false end.

Definition allActions : list InteractionAction :=
  [ CLICK; DOUBLE_CLICK; RIGHT_CLICK; HOVER; MOUSE_DOWN; MOUSE_UP; DRAG;
    FILL; TYPE; CLEAR; PRESS; PRESS_SEQUENTIALLY; SELECT; CHECK; UNCHECK;
    FOCUS; BLUR; SCROLL; SCROLL_INTO_VIEW; WAIT_FOR;
    NAVIGATE; GO_BACK; GO_FORWARD; RELOAD ].

(** [Object.values(InteractionAction).includes(value)] *)
Definition isInteractionAction (value : option Json) : bool :=
  match value with
  | Some (JString s) => existsb (λ a, str_eqb (actionName a) s) allActions
  | _ => false
  end.

Definition validateCoordinate (label : jsstring) (coord : option Json) : Outcome unit :=
  match coord with
  | None => Returns tt
  | Some c =>
      if negb (truthy c) then Returns tt
      else if negb (isFiniteNumber (prop "x" c)) || negb (isFiniteNumber (prop "y" c))
      then Throws (Error (label ++ lit " must contain numeric x and y values."))
      else Returns tt
  end.

(** [validateSomCommand]; reading [action] off [null] is a [TypeError]. *)
Definition validateSomCommand (command : Json) : Outcome unit :=
  match command with
  | JNull => Throws (Error (lit "Cannot read properties of null (reading 'action')"))
  | _ =>
      if negb (isInteractionAction (prop "action" command)) then
        Throws (Error (lit "Invalid InteractionAction: " ++
                       templOpt (prop "action" command)))
      else
        match validateCoordinate (lit "SomCommand.coord") (prop "coord" command) with
        | Throws e => Throws e
        | Returns _ =>
            match validateCoordinate (lit "SomCommand.fromCoord")
                                     (prop "fromCoord" command) with
            | Throws e => Throws e
            | Returns _ =>
                validateCoordinate (lit "SomCommand.toCoord") (prop "toCoord" command)
            end
        end
  end.

(** [commands.forEach(validateSomCommand)] *)
Fixpoint validateEach (commands : list Json) : Outcome unit :=
  match commands with
  | [] => Returns tt
  | command :: rest =>
      match validateSomCommand command with
      | Throws e => Throws e
      | Returns _ => validateEach rest
      end
  end.

(** The checks of the fields, one by one: what is stored in the result for
    a value that passes. *)
Definition commandArray (message : string) (value : Json) : Outcome Json :=
  match value with
  | JArray commands =>
      match validateEach commands with
      | Throws e => Throws e
      | Returns _ => Returns value
      end
  | _ => Throws (Error (lit message))
  end.

Definition ofType (isType : Json -> bool) (message : string) (value : Json)
  : Outcome Json :=
  if isType value then Returns value else Throws (Error (lit message)).

Definition isBoolean (value : Json) : bool :=
  match value with JBool _ => true | _ => false end.

Definition isString (value : Json) : bool :=
  match value with JString _ => true | _ => false end.

Definition stringArray (value : Json) : Outcome Json :=
  match value with
  | JArray items =>
      if forallb isString items then Returns (JArray items)
      else Throws (Error (lit "extractedContentList must contain strings only."))
  | _ => Throws (Error (lit "extractedContentList must be an array."))
  end.

Definition isConfidence (value : Json) : bool :=
  match value with
  | JNumber (Fin q) => Qle_bool 0 q && Qle_bool q 100
  | _ => false
  end.

(** [if (data.key !== undefined) { check; result.key = ... }] *)
Definition copyField (data : Json) (key : string) (check : Json -> Outcome Json)
    (result : list (jsstring * Json)) : Outcome (list (jsstring * Json)) :=
  match prop key data with
  | None => Returns result
  | Some value =>
      match check value with
      | Throws e => Throws e
      | Returns stored => Returns (result ++ [(lit key, stored)])
      end
  end.

(** The fields [validateAiActionResult] looks at, in its order, each with
    its check. *)
Definition checkedFields : list (string * (Json -> Outcome Json)) :=
  [ ("preCommands"%string, commandArray "preCommands must be an array of SomCommand.");
    ("commandsToRun"%string, commandArray "commandsToRun must be an array of SomCommand.");
    ("verificationSuccess"%string, ofType isBoolean "verificationSuccess must be a boolean.");
    ("extractedContent"%string, ofType isString "extractedContent must be a string.");
    ("extractedContentList"%string, stringArray);
    ("shouldWait"%string, ofType isBoolean "shouldWait must be a boolean.");
    ("waitReason"%string, ofType isString "waitReason must be a string.");
    ("needsRetryAfterPreActions"%string,
     ofType isBoolean "needsRetryAfterPreActions must be a boolean.");
    ("stepCompleted"%string, ofType isBoolean "stepCompleted must be a boolean.");
    ("confidence"%string, ofType isConfidence "confidence must be a number between 0 and 100.");
    ("verificationReason"%string, ofType isString "verificationReason must be a string.") ].

Fixpoint copyFields (data : Json) (rules : list (string * (Json -> Outcome Json)))
    (result : list (jsstring * Json)) : Outcome (list (jsstring * Json)) :=
  match rules with
  | [] => Returns result
  | (key, check) :: rest =>
      match copyField data key check result with
      | Throws e => Throws e
      | Returns result' => copyFields data rest result'
      end
  end.

(** [validateAiActionResult(payload)]: the result object, as the list of
    its properties in the order they were set. *)
Definition validateAiActionResult (payload : Json) : Outcome (list (jsstring * Json)) :=
  match payload with
  | JObject _ | JArray _ => copyFields payload checkedFields []
  | _ => Throws (Error (lit "LLM response is not a JSON object."))
  end.

(** The properties a payload has among those of [rules], in their order. *)
Definition picks (data : Json) (rules : list (string * (Json -> Outcome Json)))
  : list (jsstring * Json) :=
  omap (λ rule, match prop (fst rule) data with
                | Some value => Some (lit (fst rule), value)
                | None => None
                end) rules.

(** *** [withRetry] *)

(** What [action()] can reject with: a falsy value, an error that carries an
    HTTP response (with its status, if it has one), any other error. *)
Inductive Rejection : Type :=
| Falsy
| WithResponse (status : option N) (message : jsstring)
| Other (message : jsstring).

Definition isRetryableError (error : Rejection) : bool :=
  match error with
  | Falsy => false
  | WithResponse (Some status) _ => 500 <=? status
  | WithResponse None _ => false
  | Other _ => true
  end.

(** One run of [withRetry]: how it settles, the pauses it made (in ms) and
    what is left of the answers of [action]. *)
Record Retried (A : Type) : Type := {
  settled : A + Rejection;
  pauses : list N;
  unused : list (A + Rejection);
}.
Arguments settled {A} _.
Arguments pauses {A} _.
Arguments unused {A} _.

(** [withRetry(action, retries, delayMs)]; [answers] is what the calls of
    [action] settle to, one after the other. [None]: no answer left. *)
Fixpoint withRetry {A} (answers : list (A + Rejection)) (retries : nat) (delayMs : N)
  : option (Retried A) :=
  match answers with
  | [] => None
  | inl a :: rest => Some {| settled := inl a; pauses := []; unused := rest |}
  | inr error :: rest =>
      match retries with
      | O => Some {| settled := inr error; pauses := []; unused := rest |}
      | S retries' =>
          if negb (isRetryableError error)
          then Some {| settled := inr error; pauses := []; unused := rest |}
          else
            match withRetry rest retries' (delayMs * 2) with
            | Some r => Some {| settled := settled r; pauses := delayMs :: pauses r;
                                unused := unused r |}
            | None => None
            end
      end
  end.

Definition DEFAULT_RETRIES : nat := 3.
Definition DEFAULT_RETRY_DELAY_MS : N := 250.

(** *** [callAiAction] *)

(** The object that [validateAiActionResult] returns, read at the type it
    is declared to have, [AiActionResult]; a property whose value is not of
    the declared type reads as absent. The validation has checked the types
    of the properties it copies; of a command it has checked [action] and
    the coordinates only. *)
Definition asBoolean (value : option Json) : option bool :=
  match value with Some (JBool b) => Some b | _ => None end.

Definition asText (value : option Json) : option jsstring :=
  match value with Some (JString s) => Some s | _ => None end.

Definition asTexts (value : option Json) : option (list jsstring) :=
  match value with
  | Some (JArray items) => Some (omap (λ item, asText (Some item)) items)
  | _ => None
  end.

Definition asNumber (value : option Json) : option jsnum :=
  match value with Some (JNumber x) => Some x | _ => None end.

Definition asFinite (value : option Json) : option Q :=
  match value with Some (JNumber (Fin q)) => Some q | _ => None end.

Definition asAction (value : option Json) : option InteractionAction :=
  match value with
  | Some (JString s) => find (λ a, str_eqb (actionName a) s) allActions
  | _ => None
  end.

Definition asCoordinate (value : option Json) : option Coordinate :=
  match value with
  | Some c =>
      match asFinite (prop "x" c), asFinite (prop "y" c) with
      | Some x, Some y => Some {| cx := x; cy := y |}
      | _, _ => None
      end
  | None => None
  end.

Definition asCommand (command : Json) : option SomCommand :=
  match asAction (prop "action" command) with
  | Some a =>
      Some {| elementRef := asText (prop "elementRef" command);
              action := a;
              coord := asCoordinate (prop "coord" command);
              value := asText (prop "value" command);
              force := asBoolean (prop "force" command);
              durationSeconds := asNumber (prop "durationSeconds" command) |}
  | None => None
  end.

Definition asCommands (value : option Json) : option (list SomCommand) :=
  match value with
  | Some (JArray items) => Some (omap asCommand items)
  | _ => None
  end.

Definition asAiActionResult (result : list (jsstring * Json)) : AiActionResult :=
  let get := λ key : string, field (lit key) result in
  {| preCommands := asCommands (get "preCommands"%string);
     extractedContentList := asTexts (get "extractedContentList"%string);
     extractedContent := asText (get "extractedContent"%string);
     confidence := asFinite (get "confidence"%string);
     verificationSuccess := asBoolean (get "verificationSuccess"%string);
     verificationReason := asText (get "verificationReason"%string);
     commandsToRun := asCommands (get "commandsToRun"%string);
     shouldWait := asBoolean (get "shouldWait"%string);
     waitReason := asText (get "waitReason"%string);
     needsRetryAfterPreActions := asBoolean (get "needsRetryAfterPreActions"%string);
     requestSomRefresh := asBoolean (get "requestSomRefresh"%string);
     somRefreshReason := asText (get "somRefreshReason"%string);
     stepCompleted := asBoolean (get "stepCompleted"%string) |}.

(** [return validateAiActionResult(parsed)] *)
Definition validated (parsed : Json) : Outcome AiActionResult :=
  match validateAiActionResult parsed with
  | Throws error => Throws error
  | Returns result => Returns (asAiActionResult result)
  end.

(** The action that [callAiAction] retries: one call of the provider, which
    settles to [answer], and the test for an empty content. *)
Definition contentOf (answer : jsstring + Rejection) : jsstring + Rejection :=
  match answer with
  | inl content =>
      if truthy_str content then inl content
      else inr (Other (lit "LLM provider returned an empty response."))
  | inr error => inr error
  end.

(** A rejection as the error the caller catches, with its message; a falsy
    rejection has none. *)
Definition rejected (error : Rejection) : Thrown :=
  match error with
  | Falsy => Error []
  | WithResponse _ message | Other message => Error message
  end.

Section CallAiAction.

(** [JSON.parse]: the value a text stands for, or the [SyntaxError] thrown. *)
Variable JSON_parse : jsstring -> Outcome Json.

(** [callAiAction(request)]; [answers] is what the calls of the provider
    settle to, one after the other. [None]: no answer left. *)
Definition callAiAction (answers : list (jsstring + Rejection))
  : option (Outcome AiActionResult) :=
  match withRetry (map contentOf answers) DEFAULT_RETRIES DEFAULT_RETRY_DELAY_MS with
  | None => None
  | Some r =>
      Some match settled r with
           | inr error => Throws (rejected error)
           | inl raw =>
               match JSON_parse raw with
               | Throws error =>
                   Throws (Error (lit "Failed to parse LLM response as JSON: " ++
                                  thrownMessage error))
               | Returns parsed => validated parsed
               end
           end
  end.

End CallAiAction.

(** *** Timeouts from the environment *)

Definition DEFAULT_LLM_TIMEOUT_MS : Q := 120000.
Definition NAVIGATION_TIMEOUT_MS : Q := 30000.
Definition COMMAND_TIMEOUT_MS : Q := 30000.

Definition isPositive (x : jsnum) : bool :=
  match x with Fin q => Qltb 0 q | _ => false end.

(** [parseTimeout(value, fallback)]; an unset variable is [None]. *)
Definition parseTimeout (value : option jsstring) (fallback : Q) : jsnum :=
  if negb (truthy_ostr value) then Fin fallback
  else
    let parsed := Number_ (default [] value) in
    if isFinite parsed && isPositive parsed then parsed else Fin fallback.

(** [Math.max(parseTimeout(env, default), 0)] *)
Definition getNavigationTimeout (env : option jsstring) : jsnum :=
  numMax (parseTimeout env NAVIGATION_TIMEOUT_MS) 0.

Definition getCommandTimeout (env : option jsstring) : jsnum :=
  numMax (parseTimeout env COMMAND_TIMEOUT_MS) 0.

(** *** The wait-retry limit from the environment ([index.ts]) *)

(** [Math.floor] *)
Definition mathFloor (x : jsnum) : jsnum :=
  match x with Fin q => Fin (inject_Z (Qfloor q)) | _ => x end.

Definition isNonNegative (x : jsnum) : bool :=
  match x with Fin q => Qle_bool 0 q | Inf negative => negb negative | NaN => false end.

(** [getMaxWaitRetries()]; [env] is [AI_PLAYWRIGHT_MAX_WAIT_RETRIES]. *)
Definition getMaxWaitRetries (env : option jsstring) : jsnum :=
  let raw := option_map trim env in
  if negb (truthy_ostr raw) then Fin (inject_Z (Z.of_N DEFAULT_WAIT_RETRY_LIMIT))
  else
    let parsed := Number_ (default [] raw) in
    if isFinite parsed && isNonNegative parsed then mathFloor parsed
    else Fin (inject_Z (Z.of_N DEFAULT_WAIT_RETRY_LIMIT)).

(** The pauses of [k] retries that start from [delayMs]: each twice the one
    before. *)
Definition doubling (delayMs : N) (k : nat) : list N :=
  map (λ i, delayMs * 2 ^ N.of_nat i) (seq 0 k).

End AiClient.

(** ** A sample answer of the oracle, as parsed *)

Module Samples13.
Import AiClient.

(** [{"requestSomRefresh": true, "somRefreshReason": "stale markers",
      "stepCompleted": false, "confidence": 40}] *)
Definition refreshPayload : Json :=
  JObject [ (lit "requestSomRefresh", JBool true);
            (lit "somRefreshReason", JString (lit "stale markers"));
            (lit "stepCompleted", JBool false);
            (lit "confidence", JNumber (Fin 40)) ].

(** [{"requestSomRefresh": true, "somRefreshReason": "stale markers"}], the
    answer the prompts ask for when the markers need a refresh, and a text
    that stands for it. *)
Definition refreshOnly : Json :=
  JObject [ (lit "requestSomRefresh", JBool true);
            (lit "somRefreshReason", JString (lit "stale markers")) ].

Definition refreshOnlyText : jsstring :=
  lit "{" ++ dquote ++ lit "requestSomRefresh" ++ dquote ++ lit ": true, " ++
  dquote ++ lit "somRefreshReason" ++ dquote ++ lit ": " ++
  dquote ++ lit "stale markers" ++ dquote ++ lit "}".

(** A [JSON.parse] that knows this one text. *)
Definition parseSample (text : jsstring) : Outcome Json :=
  if str_eqb text refreshOnlyText then Returns refreshOnly
  else Throws (Error (lit "Unexpected token")).

End Samples13.

(** ** Answers of the oracle, as parsed *)

Module ClientSpec.

Import AiClient.




End ClientSpec.

(** ** Rounds of [act()] that ask for a retry after the pre-commands *)

Module RetrySpec.

Import Orchestrator OrchestratorSpec ActSpec PreSpec.

(** A round of [act()]: the oracle's answer, and the results of the executor
    for the pre-commands of the answer that are no timed waits. *)
Record RetryRound : Type := {
  retryAnswer : AiActionResult;
  retryResults : list SemanticCommandResult;
}.

Definition preOf (x : RetryRound) : list SomCommand :=
  default [] (preCommands (retryAnswer x)).

(** The answer has its pre-commands run and asks for another round after
    them; the pre-commands all succeed. *)
Definition retriesAfterPre (x : RetryRound) : Prop :=
  runsPreCommands (retryAnswer x) /\
  truthy_flag (needsRetryAfterPreActions (retryAnswer x)) = true /\
  length (retryResults x) = length (filter (λ c, isWaitFor c = false) (preOf x)) /\
  Forall succeeded (retryResults x).

(** What the round takes from the scripts of the executor and of the
    refreshes of the marker map: there is a refresh only after pre-commands. *)
Definition roundScript (x : RetryRound) : list (Outcome SemanticCommandResult) :=
  map Returns (retryResults x).

Definition roundRefreshes (x : RetryRound) : list (option Thrown) :=
  match preOf x with [] => [] | _ :: _ => [None] end.

(** The calls of the round, the wait counter standing at [waitCount_]. *)
Definition roundCalls (waitRetryLimit waitCount_ : N) (x : RetryRound) : list Call :=
  quietRound (CallAiAct waitCount_ waitRetryLimit) ++ map preCall (preOf x) ++
  match preOf x with [] => [] | _ :: _ => [CallWaitForPageStability; CallUpdateSom] end.

(** The calls of such rounds in a row: from the second on, the oracle is
    asked with the wait counter at 0. *)
Fixpoint retryCalls (waitRetryLimit waitCount_ : N) (rounds : list RetryRound)
  : list Call :=
  match rounds with
  | [] => []
  | x :: rounds' =>
      roundCalls waitRetryLimit waitCount_ x ++ retryCalls waitRetryLimit 0 rounds'
  end.

End RetrySpec.

(** ** Sample rounds *)

Module Samples14.

Import RetrySpec.

(** [{preCommands: [pause, click 1], needsRetryAfterPreActions: true,
      commandsToRun: [click 2]}], the click succeeding. *)
Definition retryWithPre : RetryRound :=
  {| retryAnswer :=
       {| preCommands := Some [Samples9.pause; Samples7.click1];
          extractedContentList := None; extractedContent := None;
          confidence := None; verificationSuccess := None; verificationReason := None;
          commandsToRun := Some [Samples7.click2];
          shouldWait := None; waitReason := None;
          needsRetryAfterPreActions := Some true; requestSomRefresh := None;
          somRefreshReason := None; stepCompleted := None |};
     retryResults := [Samples7.clicked] |}.

(** [{needsRetryAfterPreActions: true, commandsToRun: [click 1]}] *)
Definition retryWithout : RetryRound :=
  {| retryAnswer := Samples8.retryAnswer; retryResults := [] |}.

End Samples14.

(** ** What [executeSomCommand] rejects for, and what the environment holds *)

Module GuardSpec.

Import Orchestrator.

(** The errors of [runCommand] that [executeSomCommand] does not turn into a
    failure result: the request for a re-annotation, and an error that reads
    like a navigation interruption. *)
Definition rejectsFor (e : Thrown) : Prop :=
  (exists m, e = SomReannotationRequiredError m) \/ isNavigationError e = true.

(** The number a variable of the environment holds, once [trimmed] or as it
    is: none when the variable is unset or the text is empty, or stands for
    no finite number. *)
Definition numberHeld (trimmed : bool) (env : option jsstring) : option Q :=
  match env with
  | None => None
  | Some text =>
      let text := if trimmed then trim text else text in
      match text with
      | [] => None
      | _ :: _ => match Number_ text with Fin q => Some q | _ => None end
      end
  end.

End GuardSpec.

(* ================================================================== *)
(** * Part II — theorems                                                *)
(* ================================================================== *)

(** ** Facts about strings *)

Module JsFacts.

Lemma str_eqb_eq (a b : jsstring) : str_eqb a b = true <-> a = b.
Proof. unfold str_eqb. apply bool_decide_eq_true. Qed.

Lemma str_eqb_neq (a b : jsstring) : str_eqb a b = false <-> a ≠ b.
Proof. unfold str_eqb. apply bool_decide_eq_false. Qed.

Lemma truthy_str_true (s : jsstring) : truthy_str s = true <-> s ≠ [].
Proof. destruct s; simpl; split; congruence. Qed.

Lemma truthy_str_false (s : jsstring) : truthy_str s = false <-> s = [].
Proof. destruct s; simpl; split; congruence. Qed.

Lemma startsWith_app (p s : jsstring) : startsWith (p ++ s) p = true.
Proof.
  induction p as [| c p IH]; simpl; [reflexivity |].
  now rewrite N.eqb_refl, IH.
Qed.

Lemma includes_prefix (s p : jsstring) : startsWith s p = true -> includes s p = true.
Proof. intros H. destruct s; simpl; rewrite H; reflexivity. Qed.

Lemma includes_at (a b c : jsstring) : includes (a ++ b ++ c) b = true.
Proof.
  induction a as [| x a IH].
  - simpl. apply includes_prefix. apply startsWith_app.
  - simpl. rewrite IH. apply orb_true_r.
Qed.

Lemma lit_inj (s t : string) : lit s = lit t -> s = t.
Proof.
  unfold lit. intros H.
  rewrite <- (string_of_list_ascii_of_string s), <- (string_of_list_ascii_of_string t).
  f_equal. revert H.
  generalize (list_ascii_of_string s) (list_ascii_of_string t).
  induction l as [| a l IH]; intros [| b l']; simpl; try discriminate; [reflexivity |].
  intros H. injection H as Hab Hl. f_equal; [| now apply IH].
  rewrite <- (ascii_N_embedding a), <- (ascii_N_embedding b). now f_equal.
Qed.


End JsFacts.

(** ** [extract()] *)

Module ExtractFacts.

Import Extract Orchestrator JsFacts Samples.

Lemma extract_run (r : AiActionResult) (rt : option ExtractReturnType) (w : World) :
  extract None (Returns r) rt w =
  match computeExtractResult r rt with
  | Returns x => Val x (logged (logged w CallScreenshot) CallAiExtract)
  | Throws e => Exc e (logged (logged w CallScreenshot) CallAiExtract)
  end.
Proof.
  unfold extract, capturePageScreenshot, callAiAction, bind, log, ret, throw.
  destruct (computeExtractResult r rt); reflexivity.
Qed.

Lemma compute_int_array (r : AiActionResult) (l : list jsstring) :
  extractedContentList r = Some l -> l ≠ [] ->
  computeExtractResult r (Some int_array) =
  match castStringArrayToNumbers l (lit "extractedContentList") with
  | Returns xs => Returns (ANumberArray xs)
  | Throws e => Throws e
  end.
Proof.
  intros Hl Hne. unfold computeExtractResult. rewrite Hl. simpl.
  destruct l as [| x l]; [congruence |].
  rewrite andb_false_r. reflexivity.
Qed.

(** C8. [extract()] asked for an [int_array] turns the oracle's list
    ["12", "7"] into the numbers 12 and 7; with ["12", "abc"] it throws the
    numeric-coercion error naming the offending text; a response with no
    (non-empty) [extractedContent] and no non-empty [extractedContentList]
    throws whatever shape was asked for; and asked for a [string] (the
    default too) a list of more than one entry comes back as that list,
    never as a single string. *)
Theorem extract_coercion :
  (forall r w,
      extractedContentList r = Some [lit "12"; lit "7"] ->
      extract None (Returns r) (Some int_array) w =
      Val (ANumberArray [Fin (12 # 1); Fin (7 # 1)])
          (logged (logged w CallScreenshot) CallAiExtract)) /\
  (forall r w,
      extractedContentList r = Some [lit "12"; lit "abc"] ->
      extract None (Returns r) (Some int_array) w =
      Exc (Error (lit "Expected numeric value for extractedContentList, received: abc"))
          (logged (logged w CallScreenshot) CallAiExtract)) /\
  (forall r rt w,
      truthy_ostr (extractedContent r) = false ->
      default [] (extractedContentList r) = [] ->
      extract None (Returns r) rt w =
      Exc (Error (lit "LLM response did not include extracted content."))
          (logged (logged w CallScreenshot) CallAiExtract)) /\
  (forall r rt l w,
      rt = None \/ rt = Some string_ ->
      extractedContentList r = Some l ->
      (1 < length l)%nat ->
      extract None (Returns r) rt w =
      Val (AStringArray l) (logged (logged w CallScreenshot) CallAiExtract) /\
      forall s w', extract None (Returns r) rt w <> Val (AString s) w').
Proof.
  split; [| split; [| split]].
  - intros r w Hl. rewrite extract_run, (compute_int_array r _ Hl) by discriminate.
    vm_compute. reflexivity.
  - intros r w Hl. rewrite extract_run, (compute_int_array r _ Hl) by discriminate.
    vm_compute. reflexivity.
  - intros r rt w Hc Hl. rewrite extract_run. unfold computeExtractResult.
    rewrite Hc, Hl. reflexivity.
  - intros r rt l w Hrt Hl Hlen.
    assert (E : computeExtractResult r rt = Returns (AStringArray l)).
    { unfold computeExtractResult. rewrite Hl.
      destruct l as [| x [| y l]]; simpl in Hlen; try lia.
      simpl. rewrite andb_false_r.
      destruct Hrt as [-> | ->]; reflexivity. }
    rewrite extract_run, E. split; [reflexivity | congruence].
Qed.

Lemma extract_coercion_witness :
  extract None (Returns answer_12_7) (Some int_array) (world [] [] []) =
  Val (ANumberArray [Fin (12 # 1); Fin (7 # 1)])
      (logged (logged (world [] [] []) CallScreenshot) CallAiExtract) /\
  extract None (Returns emptyResult) (Some int) (world [] [] []) =
  Exc (Error (lit "LLM response did not include extracted content."))
      (logged (logged (world [] [] []) CallScreenshot) CallAiExtract) /\
  extract None (Returns answer_12_7) None (world [] [] []) =
  Val (AStringArray [lit "12"; lit "7"])
      (logged (logged (world [] [] []) CallScreenshot) CallAiExtract).
Proof.
  destruct extract_coercion as (H1 & _ & H3 & H4).
  split; [| split].
  - apply H1. reflexivity.
  - apply H3; reflexivity.
  - apply (H4 answer_12_7 None [lit "12"; lit "7"]); [left; reflexivity | reflexivity | simpl; lia].
Defined.

End ExtractFacts.

(** ** Selector synthesis *)

Module SelectorFacts.

Import SomHandler SelectorSpec JsFacts Samples.

Lemma when_true {A} (P : Prop) `{Decision P} (l : list A) : P -> when P l = l.
Proof. intros HP. unfold when. destruct (decide P); [reflexivity | contradiction]. Qed.

Lemma when_false {A} (P : Prop) `{Decision P} (l : list A) : ¬ P -> when P l = [].
Proof. intros HP. unfold when. destruct (decide P); [contradiction | reflexivity]. Qed.

(** A conditional push is an append of a guarded singleton. *)
Lemma pushIf_when {A} (c : bool) (P : Prop) `{Decision P} (x : A) (l : list A) :
  (c = true <-> P) -> pushIf c x l = l ++ when P [x].
Proof.
  intros Hc. unfold pushIf. destruct c.
  - rewrite when_true by (apply Hc; reflexivity). reflexivity.
  - rewrite when_false, app_nil_r; [reflexivity |].
    intros HP. apply Hc in HP. discriminate.
Qed.

Lemma isFormField_spec (t : jsstring) :
  isFormField t = true <-> t ∈ [lit "input"; lit "textarea"; lit "select"].
Proof.
  unfold isFormField. rewrite !orb_true_iff, !str_eqb_eq.
  rewrite !elem_of_cons, elem_of_nil. tauto.
Qed.

Lemma stableId_spec (i : jsstring) :
  truthy_str i && negb (includes i (lit ":")) && negb (hasGeneratedIdPrefix i) &&
  negb (includes i guillemet) = true <-> stableId i.
Proof.
  unfold stableId, hasGeneratedIdPrefix.
  rewrite !andb_true_iff, !negb_true_iff, orb_false_iff, truthy_str_true. tauto.
Qed.

Ltac bool_prop :=
  rewrite ?andb_true_iff, ?negb_true_iff, ?orb_false_iff,
          ?truthy_str_true, ?str_eqb_eq, ?isFormField_spec.

Lemma stage_pseudoCss (e : SomElement) (l : list TypedSelector) :
  (if hasVisiblePseudoElement e && str_eqb (tag e) (lit "button")
   then
     if truthy_str (className e)
     then
       pushIf (truthy_str (beforeFirstSpace (className e)) &&
               negb (hasUtilityClassPrefix (beforeFirstSpace (className e))))
         (mkSel SelLocator (lit "button." ++ beforeFirstSpace (className e)))
         (pushIf (str_eqb (type_ e) (lit "submit"))
            (mkSel SelLocator
               (lit "button[type=" ++ dquote ++ lit "submit" ++ dquote ++ lit "]")) l)
     else
       pushIf (str_eqb (type_ e) (lit "submit"))
         (mkSel SelLocator
            (lit "button[type=" ++ dquote ++ lit "submit" ++ dquote ++ lit "]")) l
   else l) = l ++ byPseudoCss e.
Proof.
  unfold byPseudoCss, isPseudoButton.
  destruct (hasVisiblePseudoElement e && str_eqb (tag e) (lit "button")) eqn:E.
  - apply andb_true_iff in E as [E1 E2]. apply str_eqb_eq in E2.
    rewrite (when_true (_ ∧ _)) by tauto.
    rewrite !(pushIf_when (str_eqb (type_ e) (lit "submit")) (type_ e = lit "submit"))
      by apply str_eqb_eq.
    destruct (truthy_str (className e)) eqn:Ec.
    + rewrite (pushIf_when _ (beforeFirstSpace (className e) ≠ [] ∧
                               hasUtilityClassPrefix (beforeFirstSpace (className e)) = false)
                 (mkSel SelLocator (lit "button." ++ beforeFirstSpace (className e))))
        by (bool_prop; tauto).
      now rewrite <- app_assoc.
    + apply truthy_str_false in Ec. rewrite Ec. simpl beforeFirstSpace.
      rewrite (when_false (_ ∧ _)) by tauto. now rewrite app_nil_r.
  - rewrite when_false, app_nil_r; [reflexivity |].
    intros [H1 H2]. rewrite H1, H2 in E. discriminate.
Qed.

Lemma stage_role (e : SomElement) (l : list TypedSelector) :
  (if negb (hasVisiblePseudoElement e) && truthy_str (role e)
   then
     pushIf (truthy_str (if truthy_str (ariaLabel e) then ariaLabel e else text e))
       {| selType := SelRole; selValue := role e;
          roleOptionsName :=
            Some (if truthy_str (ariaLabel e) then ariaLabel e else text e);
          nth := None |} l
   else l) = l ++ byRole e.
Proof.
  unfold byRole.
  assert (Ha : (if truthy_str (ariaLabel e) then ariaLabel e else text e)
               = accessibleNameOf e).
  { unfold accessibleNameOf. destruct (ariaLabel e); reflexivity. }
  rewrite Ha.
  destruct (negb (hasVisiblePseudoElement e) && truthy_str (role e)) eqn:E.
  - apply andb_true_iff in E as [E1 E2].
    apply negb_true_iff in E1. apply truthy_str_true in E2.
    apply pushIf_when. rewrite truthy_str_true. tauto.
  - rewrite when_false, app_nil_r; [reflexivity |].
    intros (H1 & H2 & _). apply truthy_str_true in H2.
    rewrite H1, H2 in E. discriminate.
Qed.

Lemma stage_parent (e : SomElement) (l : list TypedSelector) :
  match parent e with
  | Some p =>
      if truthy_str (parentClassName p)
      then
        pushIf (truthy_str (beforeFirstSpace (parentClassName p)))
          (mkSel SelLocator
             (lit "." ++ beforeFirstSpace (parentClassName p) ++ lit " " ++ tag e)) l
      else l
  | None => l
  end = l ++ byParentClass e.
Proof.
  unfold byParentClass, parentClassOf.
  destruct (parent e) as [p |].
  - destruct (truthy_str (parentClassName p)) eqn:Ep.
    + apply pushIf_when, truthy_str_true.
    + apply truthy_str_false in Ep. rewrite Ep. simpl beforeFirstSpace.
      rewrite when_false, app_nil_r; [reflexivity | tauto].
  - rewrite when_false, app_nil_r; [reflexivity | tauto].
Qed.

(** The synthesizer computes the priority list of the specification. *)
Lemma generate_byPriority (e : SomElement) :
  generateSemanticSelectors e = byPriority e.
Proof.
  unfold generateSemanticSelectors, byPriority.
  cbv zeta.
  rewrite stage_parent.
  rewrite (pushIf_when _ (hasVisiblePseudoElement e = false ∧ text e ≠ [])
             (mkSel SelText (text e)))
    by (bool_prop; tauto).
  rewrite stage_role, stage_pseudoCss.
  rewrite (pushIf_when _ (placeholder e ≠ []) (mkSel SelPlaceholder (placeholder e)))
    by apply truthy_str_true.
  rewrite (pushIf_when _ (name e ≠ [] ∧ tag e ∈ [lit "input"; lit "textarea"; lit "select"])
             (mkSel SelName (name e)))
    by (bool_prop; tauto).
  rewrite (pushIf_when _ (labelText e ≠ []) (mkSel SelLabel (labelText e)))
    by apply truthy_str_true.
  rewrite (pushIf_when _ (stableId (id e)) (mkSel SelId (id e))) by apply stableId_spec.
  simpl app at 1.
  fold (byId e) (byLabel e) (byName e) (byPlaceholder e) (byText e).
  now rewrite <- !app_assoc.
Qed.

Lemma when_elem {A} (P : Prop) `{Decision P} (l : list A) (x : A) :
  x ∈ when P l -> P ∧ x ∈ l.
Proof.
  unfold when. destruct (decide P); [tauto |]. intros Hx. now apply elem_of_nil in Hx.
Qed.

Lemma segment_kind (e : SomElement) (seg : list TypedSelector) (k : SelectorType)
    (s : TypedSelector) :
  (seg, k) ∈ segmentKinds e -> s ∈ seg -> selType s = k.
Proof.
  unfold segmentKinds. rewrite !elem_of_cons, elem_of_nil.
  intros [H | [H | [H | [H | [H | [H | [H | [H | H]]]]]]]] Hs; try contradiction;
    injection H as Hseg Hk; subst seg k.
  - apply when_elem in Hs as [_ Hs]. apply elem_of_cons in Hs as [-> | Hs]; [reflexivity |].
    now apply elem_of_nil in Hs.
  - apply when_elem in Hs as [_ Hs]. apply elem_of_cons in Hs as [-> | Hs]; [reflexivity |].
    now apply elem_of_nil in Hs.
  - apply when_elem in Hs as [_ Hs]. apply elem_of_cons in Hs as [-> | Hs]; [reflexivity |].
    now apply elem_of_nil in Hs.
  - apply when_elem in Hs as [_ Hs]. apply elem_of_cons in Hs as [-> | Hs]; [reflexivity |].
    now apply elem_of_nil in Hs.
  - apply when_elem in Hs as [_ Hs]. apply elem_of_app in Hs as [Hs | Hs];
      apply when_elem in Hs as [_ Hs]; apply elem_of_cons in Hs as [-> | Hs];
      try reflexivity; now apply elem_of_nil in Hs.
  - apply when_elem in Hs as [_ Hs]. apply elem_of_cons in Hs as [-> | Hs]; [reflexivity |].
    now apply elem_of_nil in Hs.
  - apply when_elem in Hs as [_ Hs]. apply elem_of_cons in Hs as [-> | Hs]; [reflexivity |].
    now apply elem_of_nil in Hs.
  - apply when_elem in Hs as [_ Hs]. apply elem_of_cons in Hs as [-> | Hs]; [reflexivity |].
    now apply elem_of_nil in Hs.
Qed.

(** Every selector of the priority list sits in one of its segments. *)
Lemma byPriority_segment (e : SomElement) (s : TypedSelector) :
  s ∈ byPriority e -> exists seg k, (seg, k) ∈ segmentKinds e ∧ s ∈ seg.
Proof.
  unfold byPriority, segmentKinds. rewrite !elem_of_app.
  intros [H | [H | [H | [H | [H | [H | [H | H]]]]]]];
    (eexists _, _; split; [| exact H]); rewrite !elem_of_cons; tauto.
Qed.

(** Replaces [H : s ∈ seg], for a segment of the priority list, by the kind
    of [s]. *)
Ltac kind_of H :=
  match type of H with
  | _ ∈ ?seg =>
      let Hk := fresh "Hk" in
      eassert (Hk : (seg, _) ∈ segmentKinds _)
        by (unfold segmentKinds;
            repeat first [apply list_elem_of_here | apply list_elem_of_further]);
      apply (segment_kind _ _ _ _ Hk) in H; clear Hk
  end.

(** C4. For every descriptor the synthesizer returns, in this order: the
    stable id (no colon, no [rc_] or [__] prefix, no ['«']), the label text
    (when there is one), the form name (for input, textarea, select), the
    placeholder, the CSS selectors of a pseudo-element button, role with
    accessible name, visible text, parent-class-scoped tag; and a descriptor
    flagged [hasVisiblePseudoElement] gets no role and no text selector. *)
Theorem selectors_by_priority (e : SomElement) :
  generateSemanticSelectors e =
    byId e ++ byLabel e ++ byName e ++ byPlaceholder e ++ byPseudoCss e ++
    byRole e ++ byText e ++ byParentClass e
  /\ (mkSel SelId (id e) ∈ generateSemanticSelectors e <-> stableId (id e))
  /\ (hasVisiblePseudoElement e = true ->
      forall s, s ∈ generateSemanticSelectors e -> noRoleNoText s).
Proof.
  rewrite generate_byPriority. split; [reflexivity |]. split.
  - split.
    + intros H. destruct (decide (stableId (id e))) as [| Hn]; [assumption |].
      exfalso. revert H. unfold byPriority, byId.
      rewrite (when_false _ _ Hn). simpl app. rewrite !elem_of_app.
      intros [H | [H | [H | [H | [H | [H | H]]]]]];
        kind_of H; simpl in H; discriminate.
    + intros H. unfold byPriority, byId. rewrite when_true by assumption.
      apply elem_of_app. left. apply elem_of_cons. left. reflexivity.
  - intros Hp s Hs. unfold noRoleNoText.
    assert (Hr : byRole e = []).
    { unfold byRole. apply when_false. rewrite Hp. intros (? & _). discriminate. }
    assert (Ht : byText e = []).
    { unfold byText. apply when_false. rewrite Hp. intros (? & _). discriminate. }
    unfold byPriority in Hs. rewrite Hr, Ht in Hs. simpl app in Hs.
    rewrite !elem_of_app in Hs.
    destruct Hs as [Hs | [Hs | [Hs | [Hs | [Hs | Hs]]]]];
      kind_of Hs; rewrite Hs; split; discriminate.
Qed.

Lemma selectors_by_priority_witness :
  hasVisiblePseudoElement pseudoSubmit = true /\
  mkSel SelLocator (lit "button.cta") ∈ generateSemanticSelectors pseudoSubmit /\
  noRoleNoText (mkSel SelLocator (lit "button.cta")).
Proof.
  assert (Hin : mkSel SelLocator (lit "button.cta")
                ∈ generateSemanticSelectors pseudoSubmit).
  { apply list_elem_of_In. vm_compute. right. right. left. reflexivity. }
  split; [reflexivity |]. split; [exact Hin |].
  exact (proj2 (proj2 (selectors_by_priority pseudoSubmit)) eq_refl _ Hin).
Defined.

End SelectorFacts.

(** ** Duplicate-marker reconciliation *)

Module ScoringFacts.

Import SomHandler ScoringSpec JsFacts.

Lemma Qltb_lt (a b : Q) : Qltb a b = true <-> (a < b)%Q.
Proof.
  unfold Qltb. rewrite negb_true_iff. split.
  - intros H. apply Qnot_le_lt. intros Hle. apply Qle_bool_iff in Hle. congruence.
  - intros H. destruct (Qle_bool b a) eqn:E; [| reflexivity].
    apply Qle_bool_iff in E. exfalso. now apply (Qlt_not_le _ _ H).
Qed.

Lemma truthy_q_spec (q : Q) : truthy_q q = true <-> ¬ (q == 0)%Q.
Proof.
  unfold truthy_q. rewrite negb_true_iff. split.
  - intros H Hq. apply Qeq_bool_iff in Hq. congruence.
  - intros H. destruct (Qeq_bool q 0) eqn:E; [| reflexivity].
    apply Qeq_bool_iff in E. contradiction.
Qed.

(** A boolean test is the decision of the proposition it tests. *)
Lemma as_decide (b : bool) (P : Prop) `{Decision P} :
  (b = true <-> P) -> b = bool_decide P.
Proof.
  intros Hb. destruct b; symmetry.
  - apply bool_decide_eq_true, Hb. reflexivity.
  - apply bool_decide_eq_false. intros HP. apply Hb in HP. discriminate.
Qed.

Lemma size_pos (X : gset jsstring) : (0 <? size X)%nat = true <-> X ≠ ∅.
Proof.
  rewrite Nat.ltb_lt. split.
  - intros H ->. rewrite size_empty in H. lia.
  - intros H. destruct (size X) eqn:E; [| lia].
    apply size_empty_iff in E. exfalso. apply H. now apply leibniz_equiv.
Qed.

Lemma every_subseteq (X Y : gset jsstring) :
  forallb (λ cls, bool_decide (cls ∈ Y)) (elements X) = true <-> X ⊆ Y.
Proof.
  rewrite forallb_forall. split.
  - intros H x Hx. specialize (H x). rewrite bool_decide_eq_true in H.
    apply H. apply list_elem_of_In. now apply elem_of_elements.
  - intros H x Hx. apply bool_decide_eq_true. apply H.
    apply elem_of_elements. now apply list_elem_of_In.
Qed.

Lemma some_overlap (X Y : gset jsstring) :
  existsb (λ cls, bool_decide (cls ∈ Y)) (elements X) = true <-> X ∩ Y ≠ ∅.
Proof.
  rewrite existsb_exists. split.
  - intros (x & Hin & Hy) Hempty. apply bool_decide_eq_true in Hy.
    apply list_elem_of_In, elem_of_elements in Hin.
    assert (Hxy : x ∈ X ∩ Y) by (apply elem_of_intersection; split; assumption).
    rewrite Hempty in Hxy. now apply elem_of_empty in Hxy.
  - intros Hne. apply set_choose_L in Hne as [x Hxy].
    apply elem_of_intersection in Hxy as [H1 H2].
    exists x. split.
    + now apply list_elem_of_In, elem_of_elements.
    + now apply bool_decide_eq_true.
Qed.

Lemma toLowerCase_nil (s : jsstring) : toLowerCase s = [] <-> s = [].
Proof. destruct s; simpl; split; congruence. Qed.

Lemma add_if (b : bool) (k s : nat) :
  (if b then s + k else s)%nat = (s + (if b then k else 0))%nat.
Proof. destruct b; lia. Qed.

Lemma add_if3 (g b1 b2 : bool) (k1 k2 s : nat) :
  (if g then if b1 then s + k1 else if b2 then s + k2 else s else s)%nat =
  (s + (if g then if b1 then k1 else if b2 then k2 else 0 else 0))%nat.
Proof. destruct g, b1, b2; lia. Qed.

Section Bonuses.
Variable expected : SomElement.
Variable c : Candidate.

Lemma tagPoints_code :
  (if str_eqb (cTag c) (toLowerCase (tag expected)) &&
      truthy_str (toLowerCase (tag expected)) then 5 else 0)%nat
  = tagPoints expected c.
Proof.
  unfold tagPoints.
  rewrite (as_decide (_ && _) (cTag c = toLowerCase (tag expected) ∧ tag expected ≠ []))
    by (rewrite andb_true_iff, str_eqb_eq, truthy_str_true, toLowerCase_nil; tauto).
  now case_bool_decide; case_decide.
Qed.

Lemma classPoints_code :
  (if (0 <? size (classTokens (className expected)))%nat
   then
     if forallb (λ cls, bool_decide (cls ∈ classTokens (cClassName c)))
                (elements (classTokens (className expected)))
     then 5
     else if existsb (λ cls, bool_decide (cls ∈ classTokens (cClassName c)))
                     (elements (classTokens (className expected)))
          then 3 else 0
   else 0)%nat
  = classPoints expected c.
Proof.
  unfold classPoints.
  set (E := classTokens (className expected)).
  set (C := classTokens (cClassName c)).
  destruct (decide (E = ∅)) as [He | He].
  - rewrite He, size_empty. reflexivity.
  - apply size_pos in He as Hs. rewrite Hs.
    rewrite (as_decide (forallb _ _) (E ⊆ C)) by apply every_subseteq.
    rewrite (as_decide (existsb _ _) (E ∩ C ≠ ∅)) by apply some_overlap.
    destruct (decide (E ⊆ C)) as [H1 | H1].
    + now rewrite bool_decide_eq_true_2.
    + rewrite bool_decide_eq_false_2 by assumption.
      destruct (decide (E ∩ C ≠ ∅)) as [H2 | H2].
      * now rewrite bool_decide_eq_true_2.
      * now rewrite bool_decide_eq_false_2.
Qed.

Lemma textPoints_code :
  (if truthy_str (trim (text expected))
   then
     if str_eqb (trim (cText c)) (trim (text expected)) then 4
     else if includes (trim (cText c)) (trim (text expected)) then 2 else 0
   else 0)%nat
  = textPoints expected c.
Proof.
  unfold textPoints.
  destruct (decide (trim (text expected) = [])) as [He | He].
  - rewrite He. reflexivity.
  - apply truthy_str_true in He as Ht. rewrite Ht.
    destruct (decide (trim (cText c) = trim (text expected))) as [H1 | H1].
    + apply str_eqb_eq in H1 as Hb. now rewrite Hb.
    + apply str_eqb_neq in H1 as Hb. now rewrite Hb.
Qed.

Lemma ariaPoints_code :
  (if truthy_str (trim (ariaLabel expected)) &&
      str_eqb (trim (cAriaLabel c)) (trim (ariaLabel expected)) then 2 else 0)%nat
  = ariaPoints expected c.
Proof.
  unfold ariaPoints.
  rewrite (as_decide (_ && _) (trim (ariaLabel expected) ≠ [] ∧
                               trim (cAriaLabel c) = trim (ariaLabel expected)))
    by (rewrite andb_true_iff, str_eqb_eq, truthy_str_true; tauto).
  now case_bool_decide; case_decide.
Qed.

Lemma boxPoints_code :
  (if truthy_q (width (bbox expected)) && truthy_q (height (bbox expected))
   then
     if Qltb (Qabs (width (cBBox c) - width (bbox expected))) 2 &&
        Qltb (Qabs (height (cBBox c) - height (bbox expected))) 2 then 2
     else if Qltb (Qabs (width (cBBox c) - width (bbox expected))) 6 &&
             Qltb (Qabs (height (cBBox c) - height (bbox expected))) 6 then 1
          else 0
   else 0)%nat
  = boxPoints expected c.
Proof.
  unfold boxPoints, widthDiff, heightDiff.
  set (dw := Qabs (width (cBBox c) - width (bbox expected))).
  set (dh := Qabs (height (cBBox c) - height (bbox expected))).
  rewrite (as_decide (truthy_q _ && truthy_q _)
                     (¬ (width (bbox expected) == 0)%Q ∧
                      ¬ (height (bbox expected) == 0)%Q))
    by (rewrite andb_true_iff, !truthy_q_spec; tauto).
  rewrite (as_decide (Qltb dw 2 && Qltb dh 2) (dw < 2 ∧ dh < 2)%Q)
    by (rewrite andb_true_iff, !Qltb_lt; tauto).
  rewrite (as_decide (Qltb dw 6 && Qltb dh 6) (dw < 6 ∧ dh < 6)%Q)
    by (rewrite andb_true_iff, !Qltb_lt; tauto).
  destruct (decide (width (bbox expected) == 0 ∨ height (bbox expected) == 0)%Q)
    as [H0 | H0].
  - rewrite bool_decide_eq_false_2 by tauto. reflexivity.
  - rewrite bool_decide_eq_true_2 by tauto.
    now repeat case_bool_decide; repeat case_decide.
Qed.

(** The score is the sum of the five bonuses. *)
Lemma score_parts :
  scoreCandidate expected c =
  (tagPoints expected c + classPoints expected c + textPoints expected c +
   ariaPoints expected c + boxPoints expected c)%nat.
Proof.
  unfold scoreCandidate. cbv zeta.
  rewrite add_if3, add_if, add_if3, add_if3, (add_if _ 5 0).
  rewrite tagPoints_code, classPoints_code, textPoints_code,
          ariaPoints_code, boxPoints_code.
  reflexivity.
Qed.
End Bonuses.

(** *** The selection loop *)







End ScoringFacts.

Module ScoringClaim.

Import SomHandler ScoringSpec JsFacts ScoringFacts Samples.




End ScoringClaim.

(** ** Annotation *)

Module AnnotationFacts.

Import SomHandler AnnotationSpec JsFacts Samples2.


Lemma imap_shift {A B} (f : nat -> A -> B) (l : list A) (k : nat) :
  imap (λ i, f (k + i)%nat) l = imap (f ∘ (λ i, k + i)%nat) l.
Proof. reflexivity. Qed.


(** Attributes: a node that is not marked keeps what it had; marked nodes
    carry their new marker. *)
Lemma scan_attrs (v : DomView) (io id_ : bool) (l : list Node) :
  forall s : Scan,
    let nodes := filter (λ el, getsMarker v io id_ el = true) l in
    let s' := foldl (scanStep v io id_) s l in
    (forall el, el ∉ nodes -> somAttr s' !! el = somAttr s !! el) /\
    (NoDup l -> forall k el, nodes !! k = Some el ->
                somAttr s' !! el = Some (decimal (idCounter s + N.of_nat k))).
Proof.
  induction l as [| el l IH]; intros s; cbn zeta.
  - simpl. split; [reflexivity | intros _ k el H; discriminate].
  - simpl foldl. rewrite filter_cons.
    destruct (IH (scanStep v io id_ s el)) as [Hkeep Hnew]. cbn zeta in Hkeep, Hnew.
    unfold scanStep in *.
    destruct (getsMarker v io id_ el) eqn:E.
    + rewrite decide_True by reflexivity. simpl in Hkeep, Hnew |- *. split.
      * intros x Hx. apply not_elem_of_cons in Hx as [Hne Hx].
        rewrite (Hkeep x Hx). now apply lookup_insert_ne.
      * intros Hnd k x Hk. apply NoDup_cons in Hnd as [Hnotin Hnd].
        destruct k as [| k]; simpl in Hk.
        -- injection Hk as <-. rewrite Hkeep.
           ++ rewrite lookup_insert_eq. now rewrite N.add_0_r.
           ++ intros Hin. apply Hnotin. now apply list_elem_of_filter in Hin as [_ Hin].
        -- rewrite (Hnew Hnd k x Hk). do 2 f_equal. lia.
    + rewrite decide_False by discriminate. split; [exact Hkeep | ].
      intros Hnd. apply NoDup_cons in Hnd as [_ Hnd]. exact (Hnew Hnd).
Qed.



Lemma describe_somId v el k : somId (describe v el k) = k.
Proof. reflexivity. Qed.





End AnnotationFacts.

Module AnnotationClaims.

Import SomHandler AnnotationSpec JsFacts AnnotationFacts Samples2 Samples3.










End AnnotationClaims.

(** ** Command execution *)

Module CommandFacts.

Import SomHandler JsFacts Samples2 Samples4.

(** C10. On an open page, a command that is no navigation, has no coordinate
    and whose [elementRef] is absent (or empty) or is not a key of the marker
    map makes [runCommand] return, not throw: a failure result with an
    explanatory message and no failed attempts, and nothing is sent to the
    browser: no marker query, no selector attempt, no coordinate action. *)
Theorem unresolvable_command_is_rejected (h : Handler) (drv : Driver)
    (command : SomCommand) (useSomIdBasedCommands : bool) :
  pageOpen h = true ->
  isNavigation (action command) = false ->
  coord command = None ->
  match elementRef command with
  | Some ref => somMap h !! ref = None
  | None => True
  end ->
  exists message,
    message <> [] /\
    runCommand h drv command useSomIdBasedCommands =
      (Returns {| failedAttempts := []; successAttempt := None;
                  error := Some message; status := FAILURE; mutations := None |}, []) /\
    (message = lit "Command must have either elementRef or coord specified" \/
     exists ref, elementRef command = Some ref /\
                 message = lit "Element with SoM ID " ++ dquote ++ ref ++ dquote ++
                           lit " not found in map").
Proof.
  intros Hopen Hnav Hcoord Href.
  unfold runCommand, percentageTarget. rewrite Hopen, Hnav, Hcoord. simpl negb. cbv iota.
  destruct (elementRef command) as [ref |] eqn:Eref; simpl truthy_ostr.
  - destruct ref as [| c ref]; simpl truthy_str; cbv iota.
    + eexists. split; [| split; [reflexivity | left; reflexivity]]. discriminate.
    + simpl default. rewrite Href.
      eexists. split; [| split; [reflexivity | right; eexists; split; reflexivity]].
      discriminate.
  - eexists. split; [| split; [reflexivity | left; reflexivity]]. discriminate.
Qed.

Lemma unresolvable_command_is_rejected_witness :
  pageOpen freshHandler = true /\
  somMap freshHandler !! lit "9" = None /\
  runCommand freshHandler obligingDriver (clickOn (Some (lit "9"))) false =
    (Returns (rejectedResult (lit "Element with SoM ID " ++ dquote ++ lit "9" ++ dquote ++
                              lit " not found in map")), []).
Proof.
  split; [reflexivity |]. split; [reflexivity |].
  destruct (unresolvable_command_is_rejected freshHandler obligingDriver
              (clickOn (Some (lit "9"))) false eq_refl eq_refl eq_refl eq_refl)
    as (message & _ & Hrun & Hcase).
  rewrite Hrun. destruct Hcase as [-> | (ref & Href & ->)].
  - vm_compute in Hrun. discriminate.
  - injection Href as <-. reflexivity.
Defined.

End CommandFacts.

(** ** The orchestrator *)

Module OrchestratorFacts.

Import Orchestrator OrchestratorSpec JsFacts.

Lemma bind_val {A B} (m : M A) (k : A -> M B) (w w' : World) (a : A) :
  m w = Val a w' -> bind m k w = k a w'.
Proof. intros H. unfold bind. now rewrite H. Qed.

Lemma bind_exc {A B} (m : M A) (k : A -> M B) (w w' : World) (e : Thrown) :
  m w = Exc e w' -> bind m k w = Exc e w'.
Proof. intros H. unfold bind. now rewrite H. Qed.

Lemma advanced_0 (w : World) : advanced w 0 [] = w.
Proof. destruct w. unfold advanced. simpl. now rewrite app_nil_r. Qed.

Lemma advanced_advanced (w : World) (n m : nat) (c d : list Call) :
  advanced (advanced w n c) m d = advanced w (n + m) (c ++ d).
Proof.
  unfold advanced. simpl. rewrite drop_drop, <- app_assoc. reflexivity.
Qed.

Lemma settles_S (w : World) (n : nat) :
  settles w (S n) ->
  exists ps, prepareS w = None :: ps /\ take n ps = replicate n None.
Proof.
  unfold settles. destruct (prepareS w) as [| p ps]; simpl; [discriminate |].
  intros [= -> H]. now exists ps.
Qed.

(** When [prepare] succeeds at once, stabilization costs two calls and
    leaves the wait counter alone. *)
Lemma stabilize_at_once (description : jsstring) (waitCount_ limit : N) (w : World) :
  settles w 1 ->
  stabilizeForLlm description waitCount_ limit w =
  Val waitCount_ (advanced w 1 [CallWaitForPageStability; CallPrepare]).
Proof.
  intros Hs. apply settles_S in Hs as (ps & Hps & _).
  unfold stabilizeForLlm.
  assert (H : forall fuel,
             stabilizeFrom description waitCount_ limit fuel waitCount_ w =
             Val waitCount_ (advanced w 1 [CallWaitForPageStability; CallPrepare])).
  { intros fuel. destruct fuel; simpl;
      rewrite N.ltb_irrefl; simpl;
      unfold bind, ret, waitForPageStability, log, tryCatch, prepare, logged, advanced;
      simpl; rewrite Hps; simpl; rewrite <- app_assoc; reflexivity. }
  apply H.
Qed.

Lemma advanced_advanced_logged (w : World) (n : nat) (c : list Call) (x : Call) :
  logged (advanced w n c) x = advanced w n (c ++ [x]).
Proof. unfold logged, advanced. simpl. now rewrite <- app_assoc. Qed.

Lemma settles_advanced (w : World) (n : nat) (c : list Call) :
  settles w (S n) -> settles w 1 /\ settles (advanced w 1 c) n.
Proof.
  intros H. apply settles_S in H as (ps & Hps & Hn).
  unfold settles, advanced. simpl. rewrite Hps. simpl. rewrite drop_0. now split.
Qed.

Lemma waitRounds_S (limit from : N) (n : nat) :
  waitRounds limit from (S n) =
  quietRound (CallAiAct from limit) ++ waitRounds limit (from + 1) n.
Proof.
  unfold waitRounds.
  assert (Htail :
    flat_map (λ i, quietRound (CallAiAct (from + N.of_nat i) limit)) (seq 1 n) =
    flat_map (λ i, quietRound (CallAiAct (from + 1 + N.of_nat i) limit)) (seq 0 n)).
  { rewrite <- seq_shift, flat_map_concat_map, map_map, <- flat_map_concat_map.
    apply flat_map_ext. intros i. do 2 f_equal. lia. }
  change (seq 0 (S n)) with (0%nat :: seq 1 n).
  cbn [flat_map]. rewrite Htail, N.add_0_r. reflexivity.
Qed.

Lemma verifyRounds_S (n : nat) :
  verifyRounds (S n) = quietRound CallAiVerify ++ verifyRounds n.
Proof.
  unfold verifyRounds.
  assert (Htail :
    flat_map (λ _ : nat, quietRound CallAiVerify) (seq 1 n) =
    flat_map (λ _ : nat, quietRound CallAiVerify) (seq 0 n)).
  { rewrite <- seq_shift, flat_map_concat_map, map_map, <- flat_map_concat_map.
    reflexivity. }
  change (seq 0 (S n)) with (0%nat :: seq 1 n).
  cbn [flat_map]. rewrite Htail. reflexivity.
Qed.

Lemma domActions_app (t u : list Call) : domActions (t ++ u) = (domActions t + domActions u)%nat.
Proof. unfold domActions. now rewrite filter_app, length_app. Qed.

Lemma oracleCalls_app (t u : list Call) :
  oracleCalls (t ++ u) = (oracleCalls t + oracleCalls u)%nat.
Proof. unfold oracleCalls. now rewrite filter_app, length_app. Qed.

Lemma waitRounds_calls (limit from : N) (n : nat) :
  domActions (waitRounds limit from n) = 0%nat /\
  oracleCalls (waitRounds limit from n) = n.
Proof.
  revert from. induction n as [| n IH]; intros from; [split; reflexivity |].
  rewrite waitRounds_S, domActions_app, oracleCalls_app.
  destruct (IH (from + 1)) as [-> ->]. split; reflexivity.
Qed.

Lemma verifyRounds_calls (n : nat) :
  domActions (verifyRounds n) = 0%nat /\ oracleCalls (verifyRounds n) = n.
Proof.
  induction n as [| n [IH1 IH2]]; [split; reflexivity |].
  rewrite verifyRounds_S, domActions_app, oracleCalls_app, IH1, IH2. split; reflexivity.
Qed.

Lemma onlyStabilizes_refl (w : World) : onlyStabilizes w w.
Proof.
  split; [reflexivity | split; [reflexivity |]].
  exists []. rewrite app_nil_r. repeat split.
Qed.

Lemma onlyStabilizes_trans (w1 w2 w3 : World) :
  onlyStabilizes w1 w2 -> onlyStabilizes w2 w3 -> onlyStabilizes w1 w3.
Proof.
  intros (He & Hu & t & Ht & Hd & Ho) (He' & Hu' & t' & Ht' & Hd' & Ho').
  split; [congruence | split; [congruence |]].
  exists (t ++ t'). rewrite Ht', Ht, <- app_assoc, domActions_app, oracleCalls_app.
  rewrite Hd, Ho, Hd', Ho'. repeat split.
Qed.

Lemma onlyStabilizes_logged (w : World) (c : Call) :
  isStabilizationCall c = true -> onlyStabilizes w (logged w c).
Proof.
  intros Hc. split; [reflexivity | split; [reflexivity |]].
  exists [c]. split; [reflexivity |]. destruct c; try discriminate; split; reflexivity.
Qed.

Lemma onlyStabilizes_prepared (w : World) (ps : list (option Thrown)) :
  onlyStabilizes w (prepared w ps).
Proof.
  split; [reflexivity | split; [reflexivity |]].
  exists [CallPrepare]. repeat split.
Qed.

(** One pass of the stabilization loop, spelled out. *)
Lemma stabilizeFrom_unfold (description : jsstring) (waitCount_ limit : N)
    (fuel : nat) (attemptsUsed : N) (w : World) :
  stabilizeFrom description waitCount_ limit fuel attemptsUsed w =
  let w1 := if (waitCount_ <? attemptsUsed) && (0 <? NAVIGATION_RETRY_DELAY_MS)
            then logged w (CallWaitForTimeout
                             (Fin (inject_Z (Z.of_N NAVIGATION_RETRY_DELAY_MS))))
            else w in
  let w2 := logged w1 CallWaitForPageStability in
  match prepareS w2 with
  | [] => Stuck
  | None :: ps => Val attemptsUsed (prepared w2 ps)
  | Some e :: ps =>
      if isNavigationError e then
        if limit <? attemptsUsed + 1 then
          Exc (Error (lit "Navigation continued interrupting " ++ description ++
                      lit " beyond retry limit (" ++ decimal limit ++ lit ")."))
              (prepared w2 ps)
        else
          match fuel with
          | O => Stuck
          | S fuel' =>
              stabilizeFrom description waitCount_ limit fuel' (attemptsUsed + 1)
                            (prepared w2 ps)
          end
      else Exc e (prepared w2 ps)
  end.
Proof.
  destruct fuel; simpl;
    unfold bind, tryCatch, prepare, waitForTimeout, waitForPageStability, log, ret,
           throw, stuck, prepared;
    destruct ((waitCount_ <? attemptsUsed) && (0 <? NAVIGATION_RETRY_DELAY_MS)); simpl;
    destruct (prepareS w) as [| [e |] ps]; simpl; try reflexivity;
    destruct (isNavigationError e); try reflexivity;
    destruct (limit <? attemptsUsed + 1); reflexivity.
Qed.

Lemma stabilizeFrom_frame (description : jsstring) (waitCount_ limit : N) (fuel : nat) :
  forall (attemptsUsed : N) (w : World),
    match stabilizeFrom description waitCount_ limit fuel attemptsUsed w with
    | Val _ w' | Exc _ w' => onlyStabilizes w w'
    | Stuck => True
    end.
Proof.
  induction fuel as [| fuel IH]; intros attemptsUsed w;
    rewrite stabilizeFrom_unfold; cbv zeta;
    set (w1 := if (waitCount_ <? attemptsUsed) && (0 <? NAVIGATION_RETRY_DELAY_MS)
               then logged w _ else w);
    assert (H1 : onlyStabilizes w w1)
      by (subst w1; destruct (_ && _);
          [now apply onlyStabilizes_logged | apply onlyStabilizes_refl]);
    assert (H2 : onlyStabilizes w (logged w1 CallWaitForPageStability))
      by (eapply onlyStabilizes_trans; [exact H1 | now apply onlyStabilizes_logged]);
    set (w2 := logged w1 CallWaitForPageStability) in *;
    assert (H3 : forall ps, onlyStabilizes w (prepared w2 ps))
      by (intros ps; eapply onlyStabilizes_trans;
          [exact H2 | apply onlyStabilizes_prepared]);
    destruct (prepareS w2) as [| [e |] ps]; try exact I; try apply H3;
    destruct (isNavigationError e); try apply H3;
    destruct (limit <? attemptsUsed + 1); try apply H3; try exact I.
  specialize (IH (attemptsUsed + 1) (prepared w2 ps)).
  destruct (stabilizeFrom description waitCount_ limit fuel (attemptsUsed + 1)
                          (prepared w2 ps));
    try exact I; eapply onlyStabilizes_trans; try apply H3; exact IH.
Qed.

Lemma stabilizeForLlm_frame (description : jsstring) (waitCount_ limit : N) (w : World) :
  match stabilizeForLlm description waitCount_ limit w with
  | Val _ w' | Exc _ w' => onlyStabilizes w w'
  | Stuck => True
  end.
Proof. apply stabilizeFrom_frame. Qed.

End OrchestratorFacts.

Module ActFacts.

Import Orchestrator OrchestratorSpec JsFacts OrchestratorFacts.

Section ActRounds.
Variable objective : jsstring.
Variable waitRetryLimit : N.

(** A round that settles at once and is answered without an exception: the
    rest of the round runs on the answer, after three calls. *)
Lemma actRound_answered (r : AiActionResult) (st : ActState) (w : World) :
  settles w 1 ->
  exists k : M (Step ActState AiActResult),
    actRound objective waitRetryLimit (Returns r) st w =
      k (advanced w 1 (quietRound (CallAiAct (waitCount st) waitRetryLimit))) /\
    (truthy_flag (shouldWait r) = true ->
     k = if waitRetryLimit <=? waitCount st
         then throw (Error (waitLimitMessage waitRetryLimit))
         else ret (Continue {| waitCount := waitCount st + 1;
                               preActionRetryCount := preActionRetryCount st;
                               aggregateResults := aggregateResults st |})) /\
    (truthy_flag (shouldWait r) = false -> truthy_flag (stepCompleted r) = true ->
     k = ret (Return {| command_results := aggregateResults st;
                        actStatus := SUCCESS; actError := None |})).
Proof.
  intros Hs. unfold actRound.
  rewrite (bind_val _ _ _ _ _ (stabilize_at_once _ (waitCount st) waitRetryLimit w Hs)).
  unfold callAiAction.
  unfold bind at 1. unfold bind at 1. unfold log, ret. simpl.
  rewrite advanced_advanced_logged.
  eexists. split; [reflexivity |]. split.
  - intros Hw. rewrite Hw. reflexivity.
  - intros Hw Hc. rewrite Hw, Hc. reflexivity.
Qed.

(** Wait answers up to and past the limit. *)
Lemma act_waits_out (n : nat) :
  forall (st : ActState) (answers rest : list (Outcome AiActionResult)) (w : World),
    length answers = S n ->
    Forall asksToWait answers ->
    waitCount st + N.of_nat n = waitRetryLimit ->
    settles w (S n) ->
    actLoop objective waitRetryLimit (answers ++ rest) st w =
    Exc (Error (waitLimitMessage waitRetryLimit))
        (advanced w (S n) (waitRounds waitRetryLimit (waitCount st) (S n))).
Proof.
  induction n as [| n IH]; intros st answers rest w Hlen Hall Hcount Hs.
  - destruct answers as [| a [| b answers]]; try discriminate.
    apply Forall_cons in Hall as [(r & -> & Hw) _].
    simpl app. simpl actLoop.
    destruct (actRound_answered r st w Hs) as (k & Hrun & Hk & _).
    unfold bind. rewrite Hrun, (Hk Hw).
    replace (waitRetryLimit <=? waitCount st) with true
      by (symmetry; apply N.leb_le; lia).
    unfold throw. rewrite waitRounds_S. unfold waitRounds. simpl flat_map.
    now rewrite app_nil_r.
  - destruct answers as [| a answers]; [discriminate |].
    injection Hlen as Hlen.
    apply Forall_cons in Hall as [(r & -> & Hw) Hall].
    destruct (settles_advanced w (S n)
                (quietRound (CallAiAct (waitCount st) waitRetryLimit)) Hs) as [Hs1 Hs'].
    simpl app. simpl actLoop.
    destruct (actRound_answered r st w Hs1) as (k & Hrun & Hk & _).
    unfold bind. rewrite Hrun, (Hk Hw).
    replace (waitRetryLimit <=? waitCount st) with false
      by (symmetry; apply N.leb_gt; lia).
    unfold ret.
    assert (Hc' : waitCount st + 1 + N.of_nat n = waitRetryLimit) by lia.
    rewrite (IH {| waitCount := waitCount st + 1;
                   preActionRetryCount := preActionRetryCount st;
                   aggregateResults := aggregateResults st |}
                answers rest _ Hlen Hall Hc' Hs').
    simpl waitCount. rewrite advanced_advanced, <- waitRounds_S. reflexivity.
Qed.

End ActRounds.

(** C5. With a wait-retry limit of [L], [L + 1] consecutive answers that
    set [shouldWait] (whatever else they carry, commands included) make
    [act()] throw an error whose message quotes [L]: each of the first [L]
    answers raises the wait counter by one and goes round again, the next one
    is fatal, and no command is handed to the Action Executor on the way. The
    page is taken to settle at once in each round. *)
Theorem waits_beyond_limit_are_fatal (objective : jsstring) (waitRetryLimit : N) :
  (forall (st : ActState) (r : AiActionResult) (w : World),
      truthy_flag (shouldWait r) = true ->
      waitCount st < waitRetryLimit ->
      settles w 1 ->
      actRound objective waitRetryLimit (Returns r) st w =
      Val (Continue {| waitCount := waitCount st + 1;
                       preActionRetryCount := preActionRetryCount st;
                       aggregateResults := aggregateResults st |})
          (advanced w 1 (quietRound (CallAiAct (waitCount st) waitRetryLimit)))) /\
  (forall (answers rest : list (Outcome AiActionResult)) (w : World),
      length answers = S (N.to_nat waitRetryLimit) ->
      Forall asksToWait answers ->
      settles w (S (N.to_nat waitRetryLimit)) ->
      act objective waitRetryLimit (answers ++ rest) w =
      Exc (Error (waitLimitMessage waitRetryLimit))
          (advanced w (S (N.to_nat waitRetryLimit))
                    (waitRounds waitRetryLimit 0 (S (N.to_nat waitRetryLimit))))) /\
  includes (waitLimitMessage waitRetryLimit) (decimal waitRetryLimit) = true /\
  domActions (waitRounds waitRetryLimit 0 (S (N.to_nat waitRetryLimit))) = 0%nat.
Proof.
  split; [| split; [| split]].
  - intros st r w Hw Hlt Hs.
    destruct (actRound_answered objective waitRetryLimit r st w Hs) as (k & Hrun & Hk & _).
    rewrite Hrun, (Hk Hw).
    replace (waitRetryLimit <=? waitCount st) with false
      by (symmetry; apply N.leb_gt; exact Hlt).
    reflexivity.
  - intros answers rest w Hlen Hall Hs. unfold act.
    apply (act_waits_out objective waitRetryLimit (N.to_nat waitRetryLimit)); try assumption.
    simpl. lia.
  - unfold waitLimitMessage. apply includes_at.
  - apply waitRounds_calls.
Qed.

(** C6. When the first answer of the oracle sets [stepCompleted] (and not
    [shouldWait]), [act()] returns at once: status success, no command
    results, and nothing was handed to the Action Executor: its script is
    untouched and the log has no dispatch. Whatever stabilization needed
    before the oracle was asked is part of the run. *)
Theorem completed_step_returns_at_once (objective : jsstring) (waitRetryLimit : N)
    (r : AiActionResult) (rest : list (Outcome AiActionResult)) (w w1 : World) (n : N) :
  truthy_flag (shouldWait r) = false ->
  truthy_flag (stepCompleted r) = true ->
  stabilizeForLlm (lit "ai.act objective: " ++ objective) 0 waitRetryLimit w = Val n w1 ->
  let w' := logged w1 (CallAiAct n waitRetryLimit) in
  act objective waitRetryLimit (Returns r :: rest) w =
    Val {| command_results := []; actStatus := SUCCESS; actError := None |} w' /\
  executeS w' = executeS w /\
  domActions (trace w') = domActions (trace w).
Proof.
  intros Hw Hc Hstab. cbv zeta. split.
  - unfold act. simpl actLoop. unfold actRound. simpl waitCount.
    unfold bind at 1. unfold bind at 1. rewrite Hstab.
    unfold callAiAction, bind, log, ret. simpl.
    rewrite Hw, Hc. reflexivity.
  - pose proof (stabilizeForLlm_frame (lit "ai.act objective: " ++ objective)
                  0 waitRetryLimit w) as Hf.
    rewrite Hstab in Hf. destruct Hf as (He & _ & t & Ht & Hd & _).
    split; [exact He |].
    simpl trace. rewrite Ht, !domActions_app, Hd.
    change (domActions [CallAiAct n waitRetryLimit]) with 0%nat. lia.
Qed.

Lemma waits_beyond_limit_are_fatal_witness :
  act (lit "open the cart") 2
      (replicate 3 (Returns (Samples5.waitAnswer [Samples4.clickOn (Some (lit "3"))])))
      (Samples5.quietWorld 3) =
  Exc (Error (lit "LLM requested wait beyond max attempts (2)."))
      (advanced (Samples5.quietWorld 3) 3 (waitRounds 2 0 3)).
Proof.
  destruct (waits_beyond_limit_are_fatal (lit "open the cart") 2) as (_ & H & _).
  apply (H (replicate 3 (Returns (Samples5.waitAnswer [Samples4.clickOn (Some (lit "3"))])))
           [] (Samples5.quietWorld 3)).
  - reflexivity.
  - repeat constructor; eexists; split; reflexivity.
  - reflexivity.
Defined.

Lemma completed_step_returns_at_once_witness :
  act (lit "open the cart") 2 [Returns Samples5.completedOnly] (Samples5.quietWorld 1) =
    Val {| command_results := []; actStatus := SUCCESS; actError := None |}
        (advanced (Samples5.quietWorld 1) 1 (quietRound (CallAiAct 0 2))).
Proof.
  apply (completed_step_returns_at_once (lit "open the cart") 2 Samples5.completedOnly []
           (Samples5.quietWorld 1)
           (advanced (Samples5.quietWorld 1) 1 [CallWaitForPageStability; CallPrepare]) 0);
    reflexivity.
Defined.

End ActFacts.

(** ** [verify()] *)

Module VerifyFacts.

Import Orchestrator OrchestratorSpec JsFacts OrchestratorFacts.

Section VerifyRounds.
Variable requirement : jsstring.
Variable waitRetryLimit : N.
Variable confidence_threshold : option Q.
Variable expectFn : option ExpectFn.

(** A round that settles at once and is answered without an exception: the
    rest of the round runs on the answer, after three calls. *)
Lemma verifyRound_answered (r : AiActionResult) (waitCount_ : N) (w : World) :
  settles w 1 ->
  exists k : M (Step N Verification),
    verifyRound requirement waitRetryLimit confidence_threshold expectFn
                (Returns r) waitCount_ w =
      k (advanced w 1 (quietRound CallAiVerify)) /\
    (truthy_flag (requestSomRefresh r) = true ->
     k = ret (Continue (bumpCapped waitCount_ waitRetryLimit))) /\
    (truthy_flag (requestSomRefresh r) = false ->
     forall e, extractVerification r = Throws e -> k = throw e) /\
    (truthy_flag (requestSomRefresh r) = false ->
     forall v, extractVerification r = Returns v ->
       truthy_flag (stepCompleted r) || vSuccess v = true ->
       k = ret (Return v)) /\
    (truthy_flag (requestSomRefresh r) = false ->
     forall v, extractVerification r = Returns v ->
       truthy_flag (stepCompleted r) || vSuccess v = false ->
       forall ef, expectFn = Some ef ->
       k = let threshold :=
             SomHandler.Qmaxb 0 (default DEFAULT_CONFIDENCE_THRESHOLD confidence_threshold) in
           run expectThat ef (Qle_bool threshold (vConfidence v))
                 (confidenceMessage (vConfidence v) threshold) in
           run expectThat ef (vSuccess v) (successMessage requirement (vReason v)) in
           ret (Return v)).
Proof.
  intros Hs. unfold verifyRound.
  rewrite (bind_val _ _ _ _ _ (stabilize_at_once _ waitCount_ waitRetryLimit w Hs)).
  match goal with
  | |- context [tryCatch ?m ?h] =>
      rewrite (bind_val (tryCatch m h) _
                 (advanced w 1 [CallWaitForPageStability; CallPrepare])
                 (advanced w 1 (quietRound CallAiVerify)) (inl r))
  end.
  2: { unfold tryCatch, callAiAction, bind, log, ret.
       now rewrite advanced_advanced_logged. }
  eexists. split; [reflexivity |].
  split; [| split; [| split]].
  - intros Hr. rewrite Hr. reflexivity.
  - intros Hr e He. rewrite Hr, He. reflexivity.
  - intros Hr v Hv Hc. rewrite Hr, Hv, Hc. reflexivity.
  - intros Hr v Hv Hc ef ->. rewrite Hr, Hv, Hc.
    unfold confidenceMessage, successMessage. reflexivity.
Qed.

End VerifyRounds.

(** C7, as claimed: with an [expect] that throws, only the confidence
    assertion is evaluated; and an answer that signals completion and nothing
    else is a thrown error, not a success. *)
Lemma second_assertion_not_reached :
  verify (lit "cart is empty") 2 None (Some ThrowingExpect)
         [Returns (Samples5.verdict false 40)] (Samples5.quietWorld 1) =
    Exc (AssertionError (lit "AI verification confidence 40 is below threshold 70"))
        (advanced (Samples5.quietWorld 1) 1
           (quietRound CallAiVerify ++
            [CallExpect false (lit "AI verification confidence 40 is below threshold 70")])) /\
  verify (lit "cart is empty") 2 None (Some ThrowingExpect)
         [Returns Samples5.completedOnly] (Samples5.quietWorld 1) =
    Exc (Error (lit "LLM response missing verificationSuccess field."))
        (advanced (Samples5.quietWorld 1) 1 (quietRound CallAiVerify)).
Proof. split; reflexivity. Qed.

(** C7, amended. An answer that carries [verificationSuccess] and
    [confidence] (and asks for no refresh) is judged as follows. If it signals
    completion or success, [verify()] returns it without asserting. Otherwise
    the confidence assertion ([confidence >= threshold]) and the success
    assertion are made, in this order, through the host's [expect]: with an
    [expect] that carries on after a failure both are evaluated and the
    success assertion fails; with one that throws, [verify()] ends in the
    assertion failure of the first that fails — the confidence assertion when
    the confidence is below the threshold — and never in a system error. The
    message of the confidence assertion quotes the confidence and the
    threshold. The page is taken to settle at once. *)
Theorem failed_verification_is_asserted (requirement : jsstring) (waitRetryLimit : N)
    (confidence_threshold : option Q) (r : AiActionResult) (v : Verification)
    (rest : list (Outcome AiActionResult)) (w : World) :
  settles w 1 ->
  truthy_flag (requestSomRefresh r) = false ->
  extractVerification r = Returns v ->
  let threshold :=
    SomHandler.Qmaxb 0 (default DEFAULT_CONFIDENCE_THRESHOLD confidence_threshold) in
  let asked := advanced w 1 (quietRound CallAiVerify) in
  let enough := Qle_bool threshold (vConfidence v) in
  let low := confidenceMessage (vConfidence v) threshold in
  let failed := successMessage requirement (vReason v) in
  (truthy_flag (stepCompleted r) || vSuccess v = true ->
   forall expectFn,
     verify requirement waitRetryLimit confidence_threshold expectFn
            (Returns r :: rest) w = Val v asked) /\
  (truthy_flag (stepCompleted r) || vSuccess v = false ->
   verify requirement waitRetryLimit confidence_threshold (Some SoftExpect)
          (Returns r :: rest) w =
     Val v (advanced asked 0 [CallExpect enough low; CallExpect false failed]) /\
   verify requirement waitRetryLimit confidence_threshold (Some ThrowingExpect)
          (Returns r :: rest) w =
     if enough
     then Exc (AssertionError failed)
              (advanced asked 0 [CallExpect true low; CallExpect false failed])
     else Exc (AssertionError low) (advanced asked 0 [CallExpect false low])) /\
  includes low (numberToString (Fin (vConfidence v))) = true /\
  includes low (numberToString (Fin threshold)) = true.
Proof.
  intros Hs Hr Hv. cbv zeta.
  split; [| split; [| split]].
  - intros Hc expectFn. unfold verify. simpl verifyLoop.
    destruct (verifyRound_answered requirement waitRetryLimit confidence_threshold
                expectFn r 0 w Hs) as (k & Hrun & _ & _ & Hk & _).
    unfold bind at 1. rewrite Hrun, (Hk Hr v Hv Hc). reflexivity.
  - intros Hc.
    apply orb_false_iff in Hc as Hc'. destruct Hc' as [_ Hsucc].
    split.
    + unfold verify. simpl verifyLoop.
      destruct (verifyRound_answered requirement waitRetryLimit confidence_threshold
                  (Some SoftExpect) r 0 w Hs) as (k & Hrun & _ & _ & _ & Hk).
      unfold bind at 1. rewrite Hrun, (Hk Hr v Hv Hc SoftExpect eq_refl). cbv zeta.
      rewrite Hsucc.
      unfold expectThat, bind, log, ret, logged, advanced. simpl.
      destruct (Qle_bool _ _); simpl; now rewrite <- !app_assoc.
    + unfold verify. simpl verifyLoop.
      destruct (verifyRound_answered requirement waitRetryLimit confidence_threshold
                  (Some ThrowingExpect) r 0 w Hs) as (k & Hrun & _ & _ & _ & Hk).
      unfold bind at 1. rewrite Hrun, (Hk Hr v Hv Hc ThrowingExpect eq_refl). cbv zeta.
      rewrite Hsucc.
      unfold expectThat, bind, log, ret, throw, logged, advanced. simpl.
      destruct (Qle_bool _ _); simpl; now rewrite <- !app_assoc.
  - unfold confidenceMessage. apply includes_at.
  - unfold confidenceMessage.
    rewrite (app_assoc (lit "AI verification confidence ")),
            (app_assoc _ (lit " is below threshold ")).
    rewrite <- (app_nil_r (numberToString (Fin (SomHandler.Qmaxb _ _)))) at 1.
    apply includes_at.
Qed.

Lemma failed_verification_is_asserted_witness :
  verify (lit "cart is empty") 2 None (Some SoftExpect)
         [Returns (Samples5.verdict false 40)] (Samples5.quietWorld 1) =
    Val {| vSuccess := false; vConfidence := 40; vReason := None |}
        (advanced (Samples5.quietWorld 1) 1
           (quietRound CallAiVerify ++
            [CallExpect false (lit "AI verification confidence 40 is below threshold 70");
             CallExpect false (lit "AI verification failed for requirement: cart is empty")])).
Proof.
  destruct (failed_verification_is_asserted (lit "cart is empty") 2 None
              (Samples5.verdict false 40)
              {| vSuccess := false; vConfidence := 40; vReason := None |}
              [] (Samples5.quietWorld 1) eq_refl eq_refl eq_refl) as (_ & H & _).
  destruct (H eq_refl) as [Hsoft _].
  exact Hsoft.
Defined.

End VerifyFacts.

(** ** [stabilizeForLlm] *)

Module StabilizeFacts.

Import Orchestrator OrchestratorSpec StabilizeSpec JsFacts OrchestratorFacts.

Lemma retryPasses_S (k : nat) :
  retryPasses (S k) = [backoff; CallWaitForPageStability; CallPrepare] ++ retryPasses k.
Proof.
  unfold retryPasses. change (seq 0 (S k)) with (0%nat :: seq 1 k).
  cbn [flat_map]. f_equal.
  rewrite <- (fmap_S_seq 0 k).
  clear. induction (seq 0 k) as [| x l IH]; [reflexivity |].
  cbn. now rewrite IH.
Qed.

Lemma retryPasses_snoc (k : nat) :
  retryPasses (S k) = retryPasses k ++ [backoff; CallWaitForPageStability; CallPrepare].
Proof.
  induction k as [| k IH]; [reflexivity |].
  rewrite retryPasses_S, IH at 1. rewrite (retryPasses_S k). reflexivity.
Qed.

Lemma passes_split (k : nat) : passes k = interruptedPasses k ++ finalPass k.
Proof.
  destruct k as [| k]; [reflexivity |].
  unfold passes. rewrite retryPasses_snoc. simpl. reflexivity.
Qed.

Lemma stabilized_stabilized (w : World) (ps qs : list (option Thrown)) (c d : list Call) :
  stabilized (stabilized w ps c) qs d = stabilized w qs (c ++ d).
Proof. unfold stabilized. simpl. now rewrite <- app_assoc. Qed.

Lemma prepareS_stabilized (w : World) (ps : list (option Thrown)) (c : list Call) :
  prepareS (stabilized w ps c) = ps.
Proof. reflexivity. Qed.

Section Passes.
Variable description : jsstring.
Variable waitCount_ waitRetryLimit : N.

(** A pass after an interruption that is interrupted again, with the limit
    not reached: the loop goes round. *)
Lemma retry_pass (fuel : nat) (attemptsUsed : N) (w : World)
    (e : Thrown) (ps : list (option Thrown)) :
  waitCount_ < attemptsUsed ->
  attemptsUsed + 1 <= waitRetryLimit ->
  prepareS w = Some e :: ps ->
  isNavigationError e = true ->
  stabilizeFrom description waitCount_ waitRetryLimit (S fuel) attemptsUsed w =
  stabilizeFrom description waitCount_ waitRetryLimit fuel (attemptsUsed + 1)
                (stabilized w ps [backoff; CallWaitForPageStability; CallPrepare]).
Proof.
  intros Hlt Hle Hp He. rewrite stabilizeFrom_unfold. cbv zeta.
  replace (waitCount_ <? attemptsUsed) with true by (symmetry; now apply N.ltb_lt).
  simpl andb. simpl prepareS. rewrite Hp, He.
  replace (waitRetryLimit <? attemptsUsed + 1) with false
    by (symmetry; apply N.ltb_ge; exact Hle).
  f_equal. unfold prepared, stabilized, logged. simpl. now rewrite <- !app_assoc.
Qed.

(** [k] interruptions in a row on the passes after the first. *)
Lemma retry_passes (k : nat) :
  forall (fuel : nat) (attemptsUsed : N) (w : World)
         (answers ps : list (option Thrown)),
    waitCount_ < attemptsUsed ->
    attemptsUsed + N.of_nat k <= waitRetryLimit ->
    length answers = k ->
    Forall interrupted answers ->
    prepareS w = answers ++ ps ->
    stabilizeFrom description waitCount_ waitRetryLimit (k + fuel) attemptsUsed w =
    stabilizeFrom description waitCount_ waitRetryLimit fuel (attemptsUsed + N.of_nat k)
                  (stabilized w ps (retryPasses k)).
Proof.
  induction k as [| k IH]; intros fuel attemptsUsed w answers ps Hlt Hle Hlen Hall Hp.
  - destruct answers; [| discriminate]. simpl in Hp.
    rewrite N.add_0_r. simpl. f_equal.
    destruct w. unfold stabilized. simpl in *. now rewrite app_nil_r, Hp.
  - destruct answers as [| a answers]; [discriminate |].
    injection Hlen as Hlen.
    apply Forall_cons in Hall as [(e & -> & He) Hall].
    simpl plus.
    rewrite (retry_pass (k + fuel) attemptsUsed w e (answers ++ ps)); try assumption; [| lia].
    rewrite (IH fuel (attemptsUsed + 1) _ answers ps); try assumption;
      [| lia | lia | reflexivity].
    rewrite retryPasses_S. f_equal; [lia |].
    unfold stabilized. simpl. now rewrite <- app_assoc.
Qed.

(** The calls of the pass that starts with [attemptsUsed] attempts used. *)
Lemma pass_outcome (fuel : nat) (attemptsUsed : N) (w : World) :
  let calls := (if waitCount_ <? attemptsUsed then [backoff] else []) ++
               [CallWaitForPageStability; CallPrepare] in
  stabilizeFrom description waitCount_ waitRetryLimit fuel attemptsUsed w =
  match prepareS w with
  | [] => Stuck
  | None :: ps => Val attemptsUsed (stabilized w ps calls)
  | Some e :: ps =>
      if isNavigationError e then
        if waitRetryLimit <? attemptsUsed + 1 then
          Exc (Error (navigationLimitMessage description waitRetryLimit))
              (stabilized w ps calls)
        else
          match fuel with
          | O => Stuck
          | S fuel' =>
              stabilizeFrom description waitCount_ waitRetryLimit fuel'
                            (attemptsUsed + 1) (stabilized w ps calls)
          end
      else Exc e (stabilized w ps calls)
  end.
Proof.
  cbv zeta. rewrite stabilizeFrom_unfold. cbv zeta.
  change (0 <? NAVIGATION_RETRY_DELAY_MS) with true. rewrite andb_true_r.
  fold backoff.
  assert (Hw : forall ps,
             prepared (logged (if waitCount_ <? attemptsUsed
                               then logged w backoff else w)
                              CallWaitForPageStability) ps =
             stabilized w ps ((if waitCount_ <? attemptsUsed then [backoff] else []) ++
                              [CallWaitForPageStability; CallPrepare])).
  { intros ps. unfold prepared, stabilized, logged.
    destruct (waitCount_ <? attemptsUsed); simpl; now rewrite <- !app_assoc. }
  assert (Hp : prepareS (logged (if waitCount_ <? attemptsUsed
                                 then logged w backoff else w)
                                CallWaitForPageStability) = prepareS w)
    by (destruct (waitCount_ <? attemptsUsed); reflexivity).
  rewrite Hp. destruct (prepareS w) as [| [e |] ps]; [reflexivity | |].
  - destruct (isNavigationError e); [| now rewrite Hw].
    destruct (waitRetryLimit <? attemptsUsed + 1); [now rewrite Hw |].
    destruct fuel; [reflexivity | now rewrite Hw].
  - now rewrite Hw.
Qed.

(** [k] interruptions in a row from the first pass on. *)
Lemma interruptions (k fuel : nat) (w : World) (answers ps : list (option Thrown)) :
  waitCount_ + N.of_nat k <= waitRetryLimit ->
  length answers = k ->
  Forall interrupted answers ->
  prepareS w = answers ++ ps ->
  stabilizeFrom description waitCount_ waitRetryLimit (k + fuel) waitCount_ w =
  stabilizeFrom description waitCount_ waitRetryLimit fuel (waitCount_ + N.of_nat k)
                (stabilized w ps (interruptedPasses k)).
Proof.
  intros Hle Hlen Hall Hp.
  destruct k as [| k].
  - destruct answers; [| discriminate]. simpl in Hp.
    rewrite N.add_0_r. simpl. f_equal.
    destruct w. unfold stabilized. simpl in *. now rewrite app_nil_r, Hp.
  - destruct answers as [| a answers]; [discriminate |].
    injection Hlen as Hlen.
    apply Forall_cons in Hall as [(e & -> & He) Hall].
    simpl plus. rewrite pass_outcome. cbv zeta.
    rewrite Hp. simpl app at 1. cbv iota. rewrite He.
    replace (waitRetryLimit <? waitCount_ + 1) with false
      by (symmetry; apply N.ltb_ge; lia).
    rewrite N.ltb_irrefl. simpl app.
    rewrite (retry_passes k fuel (waitCount_ + 1) _ answers ps); try assumption;
      [| lia | lia | reflexivity].
    rewrite stabilized_stabilized. f_equal. lia.
Qed.

(** With an answer of [prepare] for every pass the limit allows, the loop
    comes to an end. *)
Lemma stabilizeFrom_ends (fuel : nat) :
  forall (attemptsUsed : N) (w : World),
    (N.to_nat (waitRetryLimit - attemptsUsed) <= fuel)%nat ->
    (fuel < length (prepareS w))%nat ->
    match stabilizeFrom description waitCount_ waitRetryLimit fuel attemptsUsed w with
    | Val n w' =>
        attemptsUsed <= n /\ n <= N.max attemptsUsed waitRetryLimit /\
        length (prepareS w) =
          (length (prepareS w') + N.to_nat (n - attemptsUsed) + 1)%nat
    | Exc _ w' =>
        (length (prepareS w) <=
           length (prepareS w') + N.to_nat (waitRetryLimit - attemptsUsed) + 1)%nat
    | Stuck => False
    end.
Proof.
  induction fuel as [| fuel IH]; intros attemptsUsed w Hfuel Hlen;
    rewrite pass_outcome; cbv zeta;
    destruct (prepareS w) as [| [e |] ps] eqn:Hp; simpl in Hlen; try lia;
    try (rewrite prepareS_stabilized; simpl; lia).
  - destruct (isNavigationError e); [| rewrite prepareS_stabilized; simpl; lia].
    destruct (waitRetryLimit <? attemptsUsed + 1) eqn:Hlim;
      [rewrite prepareS_stabilized; simpl; lia |].
    apply N.ltb_ge in Hlim. lia.
  - destruct (isNavigationError e); [| rewrite prepareS_stabilized; simpl; lia].
    destruct (waitRetryLimit <? attemptsUsed + 1) eqn:Hlim;
      [rewrite prepareS_stabilized; simpl; lia |].
    apply N.ltb_ge in Hlim.
    match goal with
    | |- context [stabilizeFrom _ _ _ _ _ ?w1] =>
        specialize (IH (attemptsUsed + 1) w1); rewrite prepareS_stabilized in IH
    end.
    assert (H1 : (N.to_nat (waitRetryLimit - (attemptsUsed + 1)) <= fuel)%nat) by lia.
    assert (H2 : (fuel < length ps)%nat) by lia.
    specialize (IH H1 H2).
    destruct (stabilizeFrom _ _ _ _ _ _) as [n w' | e' w' |]; simpl; lia.
Qed.

End Passes.

(** X1. After [k] navigation interruptions of [prepare], [k] within what the
    limit still allows, a [prepare] that succeeds ends the stabilization: the
    wait count returned is [waitCount + k], and the calls made are [k + 1]
    passes, each but the first after the back-off. *)
Theorem stabilization_rides_out_navigation (description : jsstring)
    (waitCount_ waitRetryLimit : N) (w : World) (answers ps : list (option Thrown)) :
  Forall interrupted answers ->
  waitCount_ + N.of_nat (length answers) <= waitRetryLimit ->
  prepareS w = answers ++ None :: ps ->
  stabilizeForLlm description waitCount_ waitRetryLimit w =
    Val (waitCount_ + N.of_nat (length answers))
        (stabilized w ps (passes (length answers))).
Proof.
  intros Hall Hle Hp. unfold stabilizeForLlm.
  replace (N.to_nat (waitRetryLimit - waitCount_))
    with (length answers + (N.to_nat (waitRetryLimit - waitCount_) - length answers))%nat
    by lia.
  rewrite (interruptions description waitCount_ waitRetryLimit (length answers) _ w
             answers (None :: ps) Hle eq_refl Hall Hp).
  rewrite pass_outcome. cbv zeta. rewrite prepareS_stabilized.
  rewrite stabilized_stabilized, passes_split. do 2 f_equal.
  destruct answers as [| a answers]; simpl length.
  - rewrite N.add_0_r, N.ltb_irrefl. reflexivity.
  - replace (waitCount_ <? _) with true by (symmetry; apply N.ltb_lt; lia).
    reflexivity.
Qed.

(** X2. One navigation interruption more than the limit allows is fatal: the
    error names the limit, and [prepare] was called once per interruption. *)
Theorem stabilization_gives_up (description : jsstring)
    (waitCount_ waitRetryLimit : N) (w : World) (answers ps : list (option Thrown))
    (last : option Thrown) :
  Forall interrupted (answers ++ [last]) ->
  length answers = N.to_nat (waitRetryLimit - waitCount_) ->
  prepareS w = answers ++ last :: ps ->
  stabilizeForLlm description waitCount_ waitRetryLimit w =
    Exc (Error (navigationLimitMessage description waitRetryLimit))
        (stabilized w ps (passes (length answers))) /\
  includes (navigationLimitMessage description waitRetryLimit)
           (decimal waitRetryLimit) = true /\
  countPrepares (passes (length answers)) = S (length answers).
Proof.
  intros Hall Hlen Hp.
  apply Forall_app in Hall as [Hall Hlast].
  apply Forall_cons in Hlast as [(e & -> & He) _].
  split; [| split].
  - unfold stabilizeForLlm. rewrite <- Hlen.
    rewrite <- (Nat.add_0_r (length answers)) at 1.
    destruct (N.le_gt_cases waitCount_ waitRetryLimit) as [Hle | Hgt].
    + rewrite (interruptions description waitCount_ waitRetryLimit (length answers) 0 w
                 answers (Some e :: ps)); try assumption; [| lia | reflexivity].
      rewrite pass_outcome. cbv zeta. rewrite prepareS_stabilized. rewrite He.
      replace (waitRetryLimit <? _) with true by (symmetry; apply N.ltb_lt; lia).
      rewrite stabilized_stabilized, passes_split. do 2 f_equal.
      destruct answers as [| a answers]; simpl length.
      * rewrite N.add_0_r, N.ltb_irrefl. reflexivity.
      * replace (waitCount_ <? _) with true by (symmetry; apply N.ltb_lt; lia).
        reflexivity.
    + assert (Hnil : answers = []) by (destruct answers; [reflexivity | simpl in Hlen; lia]).
      subst answers. simpl in Hp. simpl length. simpl plus.
      rewrite pass_outcome. cbv zeta. rewrite Hp, He.
      replace (waitRetryLimit <? _) with true by (symmetry; apply N.ltb_lt; lia).
      rewrite N.ltb_irrefl. reflexivity.
  - unfold navigationLimitMessage.
    rewrite (app_assoc (lit "Navigation continued interrupting ")),
            (app_assoc _ (lit " beyond retry limit (")).
    apply includes_at.
  - generalize (length answers). intros n. unfold passes.
    induction n as [| n IH]; [reflexivity |].
    rewrite retryPasses_S. unfold countPrepares in *.
    rewrite filter_app, length_app in *. simpl in *. lia.
Qed.

(** X3. An error of [prepare] that is no navigation interruption ends the
    stabilization at once and is thrown on as it is. *)
Theorem stabilization_rethrows (description : jsstring)
    (waitCount_ waitRetryLimit : N) (w : World) (answers ps : list (option Thrown))
    (e : Thrown) :
  Forall interrupted answers ->
  waitCount_ + N.of_nat (length answers) <= waitRetryLimit ->
  isNavigationError e = false ->
  prepareS w = answers ++ Some e :: ps ->
  stabilizeForLlm description waitCount_ waitRetryLimit w =
    Exc e (stabilized w ps (passes (length answers))).
Proof.
  intros Hall Hle He Hp. unfold stabilizeForLlm.
  replace (N.to_nat (waitRetryLimit - waitCount_))
    with (length answers + (N.to_nat (waitRetryLimit - waitCount_) - length answers))%nat
    by lia.
  rewrite (interruptions description waitCount_ waitRetryLimit (length answers) _ w
             answers (Some e :: ps) Hle eq_refl Hall Hp).
  rewrite pass_outcome. cbv zeta. rewrite prepareS_stabilized. rewrite He.
  rewrite stabilized_stabilized, passes_split. do 2 f_equal.
  destruct answers as [| a answers]; simpl length.
  - rewrite N.add_0_r, N.ltb_irrefl. reflexivity.
  - replace (waitCount_ <? _) with true by (symmetry; apply N.ltb_lt; lia).
    reflexivity.
Qed.


(** X4. Stabilization comes to an end after at most [limit - waitCount + 1]
    calls of [prepare]: with that many answers at hand it returns or throws.
    The wait count it returns lies between the one it was given and the
    limit, and is the number of [prepare] calls beyond the first; and neither
    the oracle nor the Action Executor is called. *)
Theorem stabilization_is_bounded (description : jsstring)
    (waitCount_ waitRetryLimit : N) (w : World) :
  (N.to_nat (waitRetryLimit - waitCount_) < length (prepareS w))%nat ->
  match stabilizeForLlm description waitCount_ waitRetryLimit w with
  | Val n w' =>
      waitCount_ <= n /\ n <= N.max waitCount_ waitRetryLimit /\
      length (prepareS w) = (length (prepareS w') + N.to_nat (n - waitCount_) + 1)%nat /\
      onlyStabilizes w w'
  | Exc _ w' =>
      (length (prepareS w) <=
         length (prepareS w') + N.to_nat (waitRetryLimit - waitCount_) + 1)%nat /\
      onlyStabilizes w w'
  | Stuck => False
  end.
Proof.
  intros Hlen.
  pose proof (stabilizeFrom_ends description waitCount_ waitRetryLimit
                (N.to_nat (waitRetryLimit - waitCount_)) waitCount_ w
                (Nat.le_refl _) Hlen) as Hends.
  pose proof (stabilizeForLlm_frame description waitCount_ waitRetryLimit w) as Hframe.
  unfold stabilizeForLlm in *.
  destruct (stabilizeFrom _ _ _ _ _ _) as [n w' | e w' |]; tauto.
Qed.

Lemma stabilization_rides_out_navigation_witness :
  stabilizeForLlm (lit "ai.verify requirement: cart is empty") 0 2
                  (world [Some Samples6.navigation; None] [] []) =
  Val 1 (stabilized (world [Some Samples6.navigation; None] [] []) [] (passes 1)).
Proof.
  apply (stabilization_rides_out_navigation
           (lit "ai.verify requirement: cart is empty") 0 2
           (world [Some Samples6.navigation; None] [] [])
           [Some Samples6.navigation] []).
  - repeat constructor. eexists. split; reflexivity.
  - now vm_compute.
  - reflexivity.
Defined.

Lemma stabilization_gives_up_witness :
  stabilizeForLlm (lit "ai.verify requirement: cart is empty") 1 2
                  (world [Some Samples6.navigation; Some Samples6.navigation; None] [] []) =
  Exc (Error (lit "Navigation continued interrupting ai.verify requirement: cart is empty beyond retry limit (2)."))
      (stabilized (world [Some Samples6.navigation; Some Samples6.navigation; None] [] [])
                  [None] (passes 1)).
Proof.
  apply (stabilization_gives_up
           (lit "ai.verify requirement: cart is empty") 1 2
           (world [Some Samples6.navigation; Some Samples6.navigation; None] [] [])
           [Some Samples6.navigation] [None] (Some Samples6.navigation)).
  - repeat constructor; eexists; split; reflexivity.
  - reflexivity.
  - reflexivity.
Defined.

Lemma stabilization_rethrows_witness :
  stabilizeForLlm (lit "ai.verify requirement: cart is empty") 0 2
                  (world [Some Samples6.navigation; Some Samples6.detached] [] []) =
  Exc Samples6.detached
      (stabilized (world [Some Samples6.navigation; Some Samples6.detached] [] [])
                  [] (passes 1)).
Proof.
  apply (stabilization_rethrows
           (lit "ai.verify requirement: cart is empty") 0 2
           (world [Some Samples6.navigation; Some Samples6.detached] [] [])
           [Some Samples6.navigation] [] Samples6.detached).
  - repeat constructor. eexists. split; reflexivity.
  - now vm_compute.
  - reflexivity.
  - reflexivity.
Defined.

Lemma stabilization_is_bounded_witness :
  match stabilizeForLlm (lit "ai.verify requirement: cart is empty") 0 2
          (world [Some Samples6.navigation; None; None] [] []) with
  | Val n w' =>
      0 <= n /\ n <= N.max 0 2 /\
      3%nat = (length (prepareS w') + N.to_nat (n - 0) + 1)%nat /\
      onlyStabilizes (world [Some Samples6.navigation; None; None] [] []) w'
  | Exc _ w' =>
      (3 <= length (prepareS w') + N.to_nat (2 - 0) + 1)%nat /\
      onlyStabilizes (world [Some Samples6.navigation; None; None] [] []) w'
  | Stuck => False
  end.
Proof.
  apply (stabilization_is_bounded (lit "ai.verify requirement: cart is empty") 0 2
           (world [Some Samples6.navigation; None; None] [] [])).
  simpl. lia.
Defined.

End StabilizeFacts.

(** ** Rounds of [act()] that run commands *)

Module ActRunFacts.

Import Orchestrator OrchestratorSpec ActSpec JsFacts OrchestratorFacts.

Lemma dispatched_app (t u : list Call) : dispatched (t ++ u) = dispatched t ++ dispatched u.
Proof. unfold dispatched. apply omap_app. Qed.

Lemma dispatched_commandCalls (cmds : list SomCommand) :
  dispatched (flat_map commandCalls cmds) = cmds.
Proof.
  induction cmds as [| c cmds IH]; [reflexivity |].
  simpl. unfold dispatched in *. simpl. now rewrite IH.
Qed.

Lemma after_after (w : World) ps us ex c ps' us' ex' d :
  after (after w ps us ex c) ps' us' ex' d = after w ps' us' ex' (c ++ d).
Proof. unfold after. simpl. now rewrite <- app_assoc. Qed.

Lemma after_same (w : World) : after w (prepareS w) (updateSomS w) (executeS w) [] = w.
Proof. destruct w. unfold after. simpl. now rewrite app_nil_r. Qed.

Section Commands.
Variable objective : jsstring.
Variable waitRetryLimit : N.

(** One command that the executor answers with [res], and a refresh of the
    map that goes through. *)
Lemma runCommands_step (c : SomCommand) (rest : list SomCommand)
    (agg : list SemanticCommandResult) (res : SemanticCommandResult) (w : World)
    (ex : list (Outcome SemanticCommandResult)) (us : list (option Thrown)) :
  executeS w = Returns res :: ex ->
  updateSomS w = None :: us ->
  runCommands (c :: rest) agg w =
  match status res with
  | FAILURE => Val (agg ++ [res], FailedWith (error res) res)
                   (after w (prepareS w) us ex (commandCalls c))
  | SUCCESS => runCommands rest (agg ++ [res])
                           (after w (prepareS w) us ex (commandCalls c))
  end.
Proof.
  intros He Hu. simpl runCommands.
  unfold bind at 1. unfold tryCatch at 1. unfold bind at 1.
  unfold executeSomCommand at 1. rewrite He. unfold ret at 1.
  unfold bind at 1. unfold refreshOrNavigation, tryCatch, bind, waitForPageStability,
    log, handlerUpdateSom, logged. simpl. rewrite Hu. unfold ret.
  assert (Hw : {| prepareS := prepareS w; updateSomS := us; executeS := ex;
                  trace := ((trace w ++ [CallExecuteSomCommand c]) ++
                            [CallWaitForPageStability]) ++ [CallUpdateSom] |} =
               after w (prepareS w) us ex (commandCalls c))
    by (unfold after, commandCalls; now rewrite <- !app_assoc).
  rewrite Hw. destruct (status res); reflexivity.
Qed.

(** One command that the executor answers with [res], whatever becomes of
    the refresh of the map that follows: the result is looked at only when
    the refresh has gone through. *)
Lemma runCommands_answered (c : SomCommand) (rest : list SomCommand)
    (agg : list SemanticCommandResult) (res : SemanticCommandResult) (w : World)
    (ex : list (Outcome SemanticCommandResult)) (refresh : option Thrown)
    (us : list (option Thrown)) :
  executeS w = Returns res :: ex ->
  updateSomS w = refresh :: us ->
  runCommands (c :: rest) agg w =
  match refresh with
  | None => match status res with
            | FAILURE => Val (agg ++ [res], FailedWith (error res) res)
                             (after w (prepareS w) us ex (commandCalls c))
            | SUCCESS => runCommands rest (agg ++ [res])
                                     (after w (prepareS w) us ex (commandCalls c))
            end
  | Some e => if isNavigationError e
              then Val (agg ++ [res], RetryRequested)
                       (after w (prepareS w) us ex (commandCalls c))
              else Exc e (after w (prepareS w) us ex (commandCalls c))
  end.
Proof.
  intros He Hu. destruct refresh as [e |]; [| now apply runCommands_step].
  simpl runCommands.
  unfold bind at 1. unfold tryCatch at 1. unfold bind at 1.
  unfold executeSomCommand at 1. rewrite He. unfold ret at 1.
  unfold bind at 1. unfold refreshOrNavigation, tryCatch, bind, waitForPageStability,
    log, handlerUpdateSom, logged. simpl. rewrite Hu. unfold ret, throw.
  assert (Hw : {| prepareS := prepareS w; updateSomS := us; executeS := ex;
                  trace := ((trace w ++ [CallExecuteSomCommand c]) ++
                            [CallWaitForPageStability]) ++ [CallUpdateSom] |} =
               after w (prepareS w) us ex (commandCalls c))
    by (unfold after, commandCalls; now rewrite <- !app_assoc).
  rewrite Hw. destruct (isNavigationError e); reflexivity.
Qed.

(** A command on which the executor asks for a retry. *)
Lemma runCommands_interrupted (c : SomCommand) (rest : list SomCommand)
    (agg : list SemanticCommandResult) (e : Thrown) (w : World)
    (ex : list (Outcome SemanticCommandResult)) :
  executeS w = Throws e :: ex ->
  asksForRetry e ->
  runCommands (c :: rest) agg w =
  Val (agg, RetryRequested)
      (after w (prepareS w) (updateSomS w) ex [CallExecuteSomCommand c]).
Proof.
  intros He Hretry. simpl runCommands.
  unfold bind at 1. unfold tryCatch at 1. unfold bind at 1.
  unfold executeSomCommand at 1. rewrite He.
  assert (Hh : match e with
               | SomReannotationRequiredError _ | NavigationInProgressError _ =>
                   @ret (option SemanticCommandResult) None
               | _ => if isNavigationError e then ret None else throw e
               end = ret None).
  { destruct Hretry as [[m ->] | [[m ->] | Hnav]]; try reflexivity.
    rewrite Hnav. destruct e; reflexivity. }
  rewrite Hh. reflexivity.
Qed.

(** Commands that all succeed. *)
Lemma runCommands_succeed (cmds : list SomCommand) :
  forall (rest : list SomCommand) (agg results : list SemanticCommandResult) (w : World)
         (ex : list (Outcome SemanticCommandResult)) (us : list (option Thrown)),
    length results = length cmds ->
    Forall succeeded results ->
    executeS w = map Returns results ++ ex ->
    updateSomS w = replicate (length cmds) None ++ us ->
    runCommands (cmds ++ rest) agg w =
    runCommands rest (agg ++ results)
                (after w (prepareS w) us ex (flat_map commandCalls cmds)).
Proof.
  induction cmds as [| c cmds IH]; intros rest agg results w ex us Hlen Hall He Hu.
  - destruct results; [| discriminate]. simpl in *.
    rewrite app_nil_r, <- He, <- Hu, after_same. reflexivity.
  - destruct results as [| res results]; [discriminate |].
    injection Hlen as Hlen. apply Forall_cons in Hall as [Hres Hall].
    simpl in He, Hu. simpl app.
    rewrite (runCommands_step c (cmds ++ rest) agg res w _ _ He Hu).
    rewrite Hres.
    rewrite (IH rest (agg ++ [res]) results
               (after w (prepareS w) (replicate (length cmds) None ++ us)
                      (map Returns results ++ ex) (commandCalls c))
               ex us Hlen Hall eq_refl eq_refl).
    rewrite after_after, <- app_assoc. reflexivity.
Qed.

Lemma filter_all {A} (P : A -> Prop) `{forall x, Decision (P x)} (l : list A) :
  Forall P l -> filter P l = l.
Proof.
  induction 1 as [| x l Hx _ IH]; [reflexivity |].
  rewrite filter_cons. destruct (decide (P x)); [now rewrite IH | contradiction].
Qed.

Lemma filter_none {A} (P : A -> Prop) `{forall x, Decision (P x)} (l : list A) :
  Forall (λ x, ~ P x) l -> filter P l = [].
Proof.
  induction 1 as [| x l Hx _ IH]; [reflexivity |].
  rewrite filter_cons. destruct (decide (P x)); [contradiction | exact IH].
Qed.

(** A round whose answer is plain and carries action commands only: what
    the run of the commands gives decides how the round ends. *)
Lemma actRound_commands (r : AiActionResult) (cmds : list SomCommand)
    (st : ActState) (w : World) :
  plain r ->
  commandsToRun r = Some cmds ->
  cmds <> [] ->
  Forall (λ c, isWaitFor c = false) cmds ->
  settles w 1 ->
  actRound objective waitRetryLimit (Returns r) st w =
  match runCommands cmds (aggregateResults st)
          (advanced w 1 (quietRound (CallAiAct (waitCount st) waitRetryLimit))) with
  | Val (agg, AllRan) w2 =>
      Val (Return {| command_results := agg; actStatus := SUCCESS; actError := None |}) w2
  | Val (agg, FailedWith lastError res) w2 =>
      Exc (Error (failureMessage (lit "AI action failed for objective: " ++ objective)
                                 lastError (failedAttempts res))) w2
  | Val (_, RetryRequested) w2 =>
      Val (Continue {| waitCount := bumpCapped (waitCount st) waitRetryLimit;
                       preActionRetryCount := 0; aggregateResults := [] |}) w2
  | Exc e w2 => Exc e w2
  | Stuck => Stuck
  end.
Proof.
  intros (Hw & Hc & Hr & Hpre & Hn) Hcmds Hne Hall Hs. unfold actRound.
  rewrite (bind_val _ _ _ _ _ (stabilize_at_once _ (waitCount st) waitRetryLimit w Hs)).
  unfold callAiAction.
  unfold bind at 1. unfold bind at 1. unfold log at 1. unfold ret at 1.
  rewrite advanced_advanced_logged.
  cbn [app]. fold (quietRound (CallAiAct (waitCount st) waitRetryLimit)).
  rewrite Hw, Hc, Hr, Hpre, Hn, Hcmds.
  change (default [] (Some cmds)) with cmds.
  change ((0 <? length (@nil SomCommand))%nat) with false. cbv iota.
  unfold bind at 1. unfold ret at 1. cbv iota beta.
  destruct cmds as [| c cmds]; [contradiction |].
  change ((length (c :: cmds) =? 0)%nat) with false. cbv iota.
  rewrite (filter_all (λ c, isWaitFor c = false) (c :: cmds) Hall).
  rewrite (filter_none (λ c, isWaitFor c = true) (c :: cmds)).
  2: { eapply Forall_impl; [exact Hall |]. intros x Hx. simpl in Hx. congruence. }
  cbn [runWaitCommands]. unfold bind at 1. unfold ret at 1. cbv iota beta.
  unfold bind at 1. unfold retryState. cbn [waitCount].
  destruct (runCommands (c :: cmds) _ _) as [[agg [| lastError res |]] w2 | e w2 |];
    reflexivity.
Qed.

End Commands.

(** X5. When the executor asks for a retry on a command (the marker no longer
    fits the page, or a navigation is under way), the round is given up: the
    results gathered so far, in this round and before, are dropped, the wait
    counter goes up by one (capped at the limit), and the oracle is asked
    again; the commands after the interrupted one are not given to the
    executor in this round. *)
Theorem act_retry_drops_results (objective : jsstring) (waitRetryLimit : N)
    (r : AiActionResult) (done rest : list SomCommand) (c : SomCommand)
    (results : list SemanticCommandResult) (e : Thrown) (st : ActState)
    (oracle : list (Outcome AiActionResult)) (w : World)
    (ex : list (Outcome SemanticCommandResult)) (us : list (option Thrown)) :
  plain r ->
  commandsToRun r = Some (done ++ c :: rest) ->
  Forall (λ c, isWaitFor c = false) (done ++ c :: rest) ->
  length results = length done ->
  Forall succeeded results ->
  asksForRetry e ->
  settles w 1 ->
  executeS w = map Returns results ++ Throws e :: ex ->
  updateSomS w = replicate (length done) None ++ us ->
  let calls := quietRound (CallAiAct (waitCount st) waitRetryLimit) ++
               flat_map commandCalls done ++ [CallExecuteSomCommand c] in
  actLoop objective waitRetryLimit (Returns r :: oracle) st w =
    actLoop objective waitRetryLimit oracle
            {| waitCount := bumpCapped (waitCount st) waitRetryLimit;
               preActionRetryCount := 0;
               aggregateResults := [] |}
            (after w (drop 1 (prepareS w)) us ex calls) /\
  dispatched calls = done ++ [c].
Proof.
  intros Hplain Hcmds Hall Hlen Hok Hretry Hs He Hu. cbv zeta. split.
  - cbn [actLoop]. unfold bind at 1.
    assert (Hne : done ++ c :: rest <> []) by (destruct done; discriminate).
    rewrite (actRound_commands objective waitRetryLimit r _ _ w
               Hplain Hcmds Hne Hall Hs).
    rewrite (runCommands_succeed done (c :: rest) (aggregateResults st) results
               (advanced w 1 (quietRound (CallAiAct (waitCount st) waitRetryLimit)))
               (Throws e :: ex) us Hlen Hok He Hu).
    rewrite (runCommands_interrupted c rest _ e
               (after _ _ us (Throws e :: ex) _) ex eq_refl Hretry).
    rewrite after_after. f_equal.
    unfold after, advanced. cbn [trace prepareS]. now rewrite <- !app_assoc.
  - rewrite !dispatched_app. cbn [quietRound]. rewrite dispatched_commandCalls. reflexivity.
Qed.

(** X6. Whether a command has failed is looked at only after the refresh of
    the marker map that follows it. When that refresh goes through, the
    first command that fails ends [act()] with an error made of the
    objective, the command's error and its failed attempts. When a
    navigation interrupts the refresh, the failure is dropped with the
    results of the round, the wait counter goes up by one (capped at the
    limit) and the oracle is asked again; when the refresh fails otherwise,
    its error is thrown in place of the command's. Whichever it is, the
    commands after the failed one are not given to the executor in this
    round. (The commands before it succeeded, their refreshes went through,
    and the page settled at once.) *)
Theorem act_stops_at_first_failure (objective : jsstring) (waitRetryLimit : N)
    (r : AiActionResult) (done rest : list SomCommand) (c : SomCommand)
    (results : list SemanticCommandResult) (res : SemanticCommandResult)
    (refresh : option Thrown)
    (oracle : list (Outcome AiActionResult)) (w : World)
    (ex : list (Outcome SemanticCommandResult)) (us : list (option Thrown)) :
  plain r ->
  commandsToRun r = Some (done ++ c :: rest) ->
  Forall (λ c, isWaitFor c = false) (done ++ c :: rest) ->
  length results = length done ->
  Forall succeeded results ->
  status res = FAILURE ->
  settles w 1 ->
  executeS w = map Returns results ++ Returns res :: ex ->
  updateSomS w = replicate (length done) None ++ refresh :: us ->
  let calls := quietRound (CallAiAct 0 waitRetryLimit) ++
               flat_map commandCalls (done ++ [c]) in
  let w' := after w (drop 1 (prepareS w)) us ex calls in
  act objective waitRetryLimit (Returns r :: oracle) w =
    match refresh with
    | None => Exc (Error (actFailureMessage objective res)) w'
    | Some e =>
        if isNavigationError e
        then actLoop objective waitRetryLimit oracle
                     {| waitCount := bumpCapped 0 waitRetryLimit;
                        preActionRetryCount := 0; aggregateResults := [] |} w'
        else Exc e w'
    end /\
  dispatched calls = done ++ [c] /\
  startsWith (actFailureMessage objective res)
             (lit "AI action failed for objective: " ++ objective) = true.
Proof.
  intros Hplain Hcmds Hall Hlen Hok Hres Hs He Hu. cbv zeta. split; [| split].
  - unfold act. cbn [actLoop]. unfold bind at 1.
    assert (Hne : done ++ c :: rest <> []) by (destruct done; discriminate).
    rewrite (actRound_commands objective waitRetryLimit r _ _ w
               Hplain Hcmds Hne Hall Hs).
    cbn [aggregateResults waitCount].
    rewrite (runCommands_succeed done (c :: rest) [] results
               (advanced w 1 (quietRound (CallAiAct 0 waitRetryLimit)))
               (Returns res :: ex) (refresh :: us) Hlen Hok He Hu).
    rewrite (runCommands_answered c rest ([] ++ results) res
               (after _ _ (refresh :: us) (Returns res :: ex) _) ex refresh us
               eq_refl eq_refl).
    rewrite Hres. rewrite !after_after.
    destruct refresh as [e |]; [destruct (isNavigationError e) |];
      unfold after, advanced, actFailureMessage; cbn [trace prepareS];
      rewrite flat_map_app; cbn [flat_map]; rewrite app_nil_r, <- !app_assoc; reflexivity.
  - rewrite dispatched_app. cbn [quietRound]. rewrite dispatched_commandCalls. reflexivity.
  - unfold actFailureMessage, failureMessage.
    cbn [app]. rewrite filter_cons.
    destruct (decide _) as [Ht | Hf].
    + destruct (filter _ _); cbn [joinWith]; [rewrite <- (app_nil_r (_ ++ objective)) at 1 |];
        apply startsWith_app.
    + exfalso. apply Hf. reflexivity.
Qed.


Lemma act_retry_drops_results_witness :
  actLoop (lit "save the form") 2
          [Returns (Samples7.commandsAnswer None
                      [Samples7.click1; Samples7.click2; Samples7.click3])]
          {| waitCount := 0; preActionRetryCount := 1;
             aggregateResults := [Samples7.clicked] |}
          (world [None] [None]
                 [Returns Samples7.clicked;
                  Throws (SomReannotationRequiredError (lit "stale marker"))]) =
  actLoop (lit "save the form") 2 []
          {| waitCount := 1; preActionRetryCount := 0; aggregateResults := [] |}
          (after (world [None] [None]
                        [Returns Samples7.clicked;
                         Throws (SomReannotationRequiredError (lit "stale marker"))])
                 [] [] []
                 (quietRound (CallAiAct 0 2) ++ commandCalls Samples7.click1 ++
                  [CallExecuteSomCommand Samples7.click2])).
Proof.
  apply (act_retry_drops_results (lit "save the form") 2
           (Samples7.commandsAnswer None
              [Samples7.click1; Samples7.click2; Samples7.click3])
           [Samples7.click1] [Samples7.click3] Samples7.click2 [Samples7.clicked]
           (SomReannotationRequiredError (lit "stale marker"))
           {| waitCount := 0; preActionRetryCount := 1;
              aggregateResults := [Samples7.clicked] |}
           []
           (world [None] [None]
                  [Returns Samples7.clicked;
                   Throws (SomReannotationRequiredError (lit "stale marker"))])
           [] []).
  - repeat split.
  - reflexivity.
  - repeat constructor.
  - reflexivity.
  - repeat constructor.
  - left. eexists. reflexivity.
  - reflexivity.
  - reflexivity.
  - reflexivity.
Defined.

Lemma act_stops_at_first_failure_witness :
  act (lit "save the form") 2
      [Returns (Samples7.commandsAnswer None
                  [Samples7.click1; Samples7.click2; Samples7.click3])]
      (world [None] [None; None] [Returns Samples7.clicked; Returns Samples7.missed]) =
  Exc (Error (actFailureMessage (lit "save the form") Samples7.missed))
      (after (world [None] [None; None]
                    [Returns Samples7.clicked; Returns Samples7.missed])
             [] [] []
             (quietRound (CallAiAct 0 2) ++
              flat_map commandCalls [Samples7.click1; Samples7.click2])) /\
  act (lit "save the form") 2
      [Returns (Samples7.commandsAnswer None
                  [Samples7.click1; Samples7.click2; Samples7.click3]);
       Returns Samples5.completedOnly]
      (world [None; None] [None; Some Samples6.navigation]
             [Returns Samples7.clicked; Returns Samples7.missed]) =
  actLoop (lit "save the form") 2 [Returns Samples5.completedOnly]
          {| waitCount := 1; preActionRetryCount := 0; aggregateResults := [] |}
          (after (world [None; None] [None; Some Samples6.navigation]
                        [Returns Samples7.clicked; Returns Samples7.missed])
                 [None] [] []
                 (quietRound (CallAiAct 0 2) ++
                  flat_map commandCalls [Samples7.click1; Samples7.click2])).
Proof.
  split.
  - apply (act_stops_at_first_failure (lit "save the form") 2
             (Samples7.commandsAnswer None
                [Samples7.click1; Samples7.click2; Samples7.click3])
             [Samples7.click1] [Samples7.click3] Samples7.click2 [Samples7.clicked]
             Samples7.missed None []
             (world [None] [None; None] [Returns Samples7.clicked; Returns Samples7.missed])
             [] []);
      first [reflexivity | repeat constructor].
  - apply (act_stops_at_first_failure (lit "save the form") 2
             (Samples7.commandsAnswer None
                [Samples7.click1; Samples7.click2; Samples7.click3])
             [Samples7.click1] [Samples7.click3] Samples7.click2 [Samples7.clicked]
             Samples7.missed (Some Samples6.navigation)
             [Returns Samples5.completedOnly]
             (world [None; None] [None; Some Samples6.navigation]
                    [Returns Samples7.clicked; Returns Samples7.missed])
             [] []);
      first [reflexivity | repeat constructor].
Defined.

End ActRunFacts.

(** ** Rounds of [act()] that wait *)

Module WaitFacts.

Import Orchestrator OrchestratorSpec ActSpec WaitSpec JsFacts OrchestratorFacts.

Section Waits.
Variable objective : jsstring.
Variable waitRetryLimit : N.

(** A round on an answer that holds back, with the page settling at once. *)
Lemma actRound_holds_back (r : AiActionResult) (st : ActState) (w : World) :
  asksToWaitExplicitly r \/ waitsImplicitly r ->
  settles w 1 ->
  exists t,
    oracleCalls t = 1%nat /\ domActions t = 0%nat /\
    actRound objective waitRetryLimit (Returns r) st w =
    if waitRetryLimit <=? waitCount st
    then Exc (Error (if truthy_flag (shouldWait r)
                     then waitLimitMessage waitRetryLimit
                     else emptyLimitMessage waitRetryLimit))
             (advanced w 1 (quietRound (CallAiAct (waitCount st) waitRetryLimit)))
    else Val (Continue {| waitCount := waitCount st + 1;
                          preActionRetryCount := preActionRetryCount st;
                          aggregateResults := aggregateResults st |})
             (advanced w 1 t).
Proof.
  intros Hkind Hs. unfold actRound.
  rewrite (bind_val _ _ _ _ _ (stabilize_at_once _ (waitCount st) waitRetryLimit w Hs)).
  unfold callAiAction.
  unfold bind at 1. unfold bind at 1. unfold log at 1. unfold ret at 1.
  rewrite advanced_advanced_logged.
  cbn [app]. fold (quietRound (CallAiAct (waitCount st) waitRetryLimit)).
  destruct Hkind as [Hw | [(Hw & Hc & Hr & Hpre & Hn) Hcmds]].
  - unfold asksToWaitExplicitly in Hw. rewrite Hw.
    exists (quietRound (CallAiAct (waitCount st) waitRetryLimit)).
    split; [reflexivity | split; [reflexivity |]].
    destruct (waitRetryLimit <=? waitCount st); reflexivity.
  - rewrite Hw, Hc, Hr, Hpre, Hn, Hcmds.
    change ((0 <? length (@nil SomCommand))%nat) with false. cbv iota.
    unfold bind at 1. unfold ret at 1. cbv iota beta.
    change ((length (@nil SomCommand) =? 0)%nat) with true. cbv iota.
    exists (quietRound (CallAiAct (waitCount st) waitRetryLimit) ++
            [CallWaitForPageStability]).
    split; [reflexivity | split; [reflexivity |]].
    destruct (waitRetryLimit <=? waitCount st); [reflexivity |].
    unfold bind, waitForPageStability, log, ret. f_equal.
    unfold logged, advanced. cbn [trace prepareS updateSomS executeS].
    now rewrite <- app_assoc.
Qed.

Lemma askedOnly_step (n : nat) (w : World) (t : list Call) (w' : World) :
  oracleCalls t = 1%nat -> domActions t = 0%nat ->
  askedOnly n (advanced w 1 t) w' -> askedOnly (S n) w w'.
Proof.
  intros Ho Hd (u & -> & Hou & Hdu). exists (t ++ u).
  rewrite advanced_advanced, oracleCalls_app, domActions_app, Ho, Hd, Hou, Hdu.
  repeat split.
Qed.

(** Answers that hold back, up to and past the limit. *)
Lemma act_holds_back_out (n : nat) :
  forall (st : ActState) (answers rest : list (Outcome AiActionResult)) (w : World),
    length answers = S n ->
    Forall holdsBack answers ->
    waitCount st + N.of_nat n = waitRetryLimit ->
    settles w (S n) ->
    exists m w',
      actLoop objective waitRetryLimit (answers ++ rest) st w = Exc (Error m) w' /\
      (m = waitLimitMessage waitRetryLimit \/ m = emptyLimitMessage waitRetryLimit) /\
      askedOnly (S n) w w'.
Proof.
  induction n as [| n IH]; intros st answers rest w Hlen Hall Hcount Hs.
  - destruct answers as [| a [| b answers]]; try discriminate.
    apply Forall_cons in Hall as [(r & -> & Hkind) _].
    cbn [app actLoop].
    destruct (actRound_holds_back r st w Hkind Hs) as (t & Ho & Hd & Hrun).
    unfold bind at 1. rewrite Hrun.
    replace (waitRetryLimit <=? waitCount st) with true
      by (symmetry; apply N.leb_le; lia).
    eexists. eexists. split; [reflexivity |]. split.
    + destruct (truthy_flag (shouldWait r)); [now left | now right].
    + eexists. split; [reflexivity |]. split; reflexivity.
  - destruct answers as [| a answers]; [discriminate |].
    injection Hlen as Hlen.
    apply Forall_cons in Hall as [(r & -> & Hkind) Hall].
    cbn [app actLoop].
    destruct (settles_advanced w (S n) [] Hs) as [Hs1 _].
    destruct (actRound_holds_back r st w Hkind Hs1) as (t & Ho & Hd & Hrun).
    unfold bind at 1. rewrite Hrun.
    replace (waitRetryLimit <=? waitCount st) with false
      by (symmetry; apply N.leb_gt; lia).
    destruct (settles_advanced w (S n) t Hs) as [_ Hs'].
    destruct (IH {| waitCount := waitCount st + 1;
                    preActionRetryCount := preActionRetryCount st;
                    aggregateResults := aggregateResults st |}
                 answers rest (advanced w 1 t) Hlen Hall) as (m & w' & Hloop & Hm & Hasked);
      [cbn [waitCount]; lia | exact Hs' |].
    exists m, w'. split; [exact Hloop |]. split; [exact Hm |].
    eapply askedOnly_step; eassumption.
Qed.

End Waits.

(** X7. Explicit waits ([shouldWait]) and implicit ones (a plain answer
    without commands) draw on one budget: with a wait-retry limit of [L],
    [L + 1] answers in a row that hold back, in any mix, make [act()] throw
    an error that quotes the limit, after [L + 1] oracle calls and without
    any command given to the executor. *)
Theorem waits_share_one_budget (objective : jsstring) (waitRetryLimit : N)
    (answers rest : list (Outcome AiActionResult)) (w : World) :
  length answers = S (N.to_nat waitRetryLimit) ->
  Forall holdsBack answers ->
  settles w (S (N.to_nat waitRetryLimit)) ->
  exists m w',
    act objective waitRetryLimit (answers ++ rest) w = Exc (Error m) w' /\
    (m = waitLimitMessage waitRetryLimit \/ m = emptyLimitMessage waitRetryLimit) /\
    includes m (decimal waitRetryLimit) = true /\
    askedOnly (S (N.to_nat waitRetryLimit)) w w'.
Proof.
  intros Hlen Hall Hs. unfold act.
  destruct (act_holds_back_out objective waitRetryLimit (N.to_nat waitRetryLimit)
              {| waitCount := 0; preActionRetryCount := 0; aggregateResults := [] |}
              answers rest w Hlen Hall) as (m & w' & Hrun & Hm & Hasked);
    [cbn [waitCount]; lia | exact Hs |].
  exists m, w'. split; [exact Hrun |]. split; [exact Hm |]. split; [| exact Hasked].
  destruct Hm as [-> | ->]; [unfold waitLimitMessage | unfold emptyLimitMessage];
    apply includes_at.
Qed.

Lemma waits_share_one_budget_witness :
  exists m w',
    act (lit "open the cart") 1
        ([Returns (Samples5.waitAnswer [Samples7.click1]); Returns emptyResult] ++ [])
        (Samples5.quietWorld 2) = Exc (Error m) w' /\
    (m = waitLimitMessage 1 \/ m = emptyLimitMessage 1) /\
    includes m (decimal 1) = true /\
    askedOnly 2 (Samples5.quietWorld 2) w'.
Proof.
  apply (waits_share_one_budget (lit "open the cart") 1
           [Returns (Samples5.waitAnswer [Samples7.click1]); Returns emptyResult] []
           (Samples5.quietWorld 2)).
  - reflexivity.
  - constructor; [| constructor; [| constructor]].
    + eexists. split; [reflexivity |]. left. reflexivity.
    + eexists. split; [reflexivity |]. right. repeat split.
  - reflexivity.
Defined.

End WaitFacts.

(** ** Pre-commands *)

Module PreFacts.

Import SomHandler Orchestrator OrchestratorSpec ActSpec PreSpec JsFacts OrchestratorFacts
       ActRunFacts.

Lemma dispatched_cons (x : Call) (t : list Call) :
  dispatched (x :: t) =
  match x with
  | CallExecuteSomCommand c => c :: dispatched t
  | _ => dispatched t
  end.
Proof. destruct x; reflexivity. Qed.

Lemma dispatched_preCalls (pre : list SomCommand) :
  dispatched (map preCall pre) = filter (λ c, isWaitFor c = false) pre.
Proof.
  induction pre as [| c pre IH]; [reflexivity |].
  rewrite filter_cons. cbn [map]. rewrite dispatched_cons, IH.
  unfold preCall, timedWait. destruct (isWaitFor c) eqn:Hc.
  - destruct (decide (true = false)); [discriminate | reflexivity].
  - destruct (decide (false = false)); [reflexivity | contradiction].
Qed.

Section Pre.
Variable objective : jsstring.
Variable waitRetryLimit : N.

Lemma runPreCommands_cons (c : SomCommand) (rest : list SomCommand)
    (agg : list SemanticCommandResult) :
  runPreCommands objective (c :: rest) agg =
  if isWaitFor c then
    let durationMs := clampWaitDuration (requestedSeconds c) in
    run waitForTimeout durationMs in
    runPreCommands objective rest (agg ++ [waitResult durationMs])
  else
    await result := executeSomCommand c in
    match status result with
    | FAILURE => throw (Error (preFailureMessage objective result))
    | SUCCESS => runPreCommands objective rest (agg ++ [result])
    end.
Proof. cbn [runPreCommands]. unfold isWaitFor. destruct (action c); reflexivity. Qed.

(** Pre-commands that all go through: the timed waits without the
    executor, the others with a result of success. *)
Lemma runPreCommands_succeed (pre : list SomCommand) :
  forall (rest : list SomCommand) (agg results : list SemanticCommandResult) (w : World)
         (ex : list (Outcome SemanticCommandResult)),
    length results = length (filter (λ c, isWaitFor c = false) pre) ->
    Forall succeeded results ->
    executeS w = map Returns results ++ ex ->
    runPreCommands objective (pre ++ rest) agg w =
    runPreCommands objective rest (agg ++ preResults pre results)
                   (after w (prepareS w) (updateSomS w) ex (map preCall pre)).
Proof.
  induction pre as [| c pre IH]; intros rest agg results w ex Hlen Hall He.
  - destruct results; [| discriminate]. cbn in *.
    rewrite app_nil_r, <- He, after_same. reflexivity.
  - rewrite filter_cons in Hlen. cbn [app preResults map].
    rewrite runPreCommands_cons. unfold preCall at 1.
    destruct (isWaitFor c) eqn:Hc.
    + destruct (decide (true = false)); [discriminate |].
      cbv zeta. unfold bind at 1, waitForTimeout, log.
      rewrite (IH rest _ results (logged w _) ex Hlen Hall He).
      rewrite <- app_assoc. f_equal.
      unfold after, logged, timedWait. cbn [trace prepareS updateSomS executeS].
      now rewrite <- app_assoc.
    + destruct (decide (false = false)); [| contradiction].
      destruct results as [| res results]; [discriminate |].
      injection Hlen as Hlen. apply Forall_cons in Hall as [Hres Hall].
      cbn in He.
      unfold bind at 1. unfold executeSomCommand at 1. rewrite He, Hres.
      rewrite (IH rest (agg ++ [res]) results
                 {| prepareS := prepareS w; updateSomS := updateSomS w;
                    executeS := map Returns results ++ ex;
                    trace := trace w ++ [CallExecuteSomCommand c] |}
                 ex Hlen Hall eq_refl).
      rewrite <- app_assoc. f_equal.
      unfold after. cbn [trace prepareS updateSomS executeS].
      now rewrite <- app_assoc.
Qed.

(** A pre-command that fails. *)
Lemma runPreCommands_fails (c : SomCommand) (rest : list SomCommand)
    (agg : list SemanticCommandResult) (res : SemanticCommandResult) (w : World)
    (ex : list (Outcome SemanticCommandResult)) :
  isWaitFor c = false ->
  status res = FAILURE ->
  executeS w = Returns res :: ex ->
  runPreCommands objective (c :: rest) agg w =
  Exc (Error (preFailureMessage objective res))
      (after w (prepareS w) (updateSomS w) ex [CallExecuteSomCommand c]).
Proof.
  intros Hc Hres He. rewrite runPreCommands_cons, Hc.
  unfold bind at 1. unfold executeSomCommand at 1. rewrite He, Hres. reflexivity.
Qed.

Lemma refresh_goes_through (w : World) (us : list (option Thrown)) :
  updateSomS w = None :: us ->
  refreshOrNavigation handlerUpdateSom w =
  Val false (after w (prepareS w) us (executeS w) [CallUpdateSom]).
Proof.
  intros Hu. unfold refreshOrNavigation, tryCatch, bind, handlerUpdateSom.
  rewrite Hu. reflexivity.
Qed.

(** Timed waits among the commands to run, each followed by a refresh of
    the marker map that goes through. *)
Lemma runWaitCommands_succeed (waits : list SomCommand) :
  forall (w : World) (us : list (option Thrown)),
    updateSomS w = replicate (length waits) None ++ us ->
    runWaitCommands waits w =
    Val false (after w (prepareS w) us (executeS w) (flat_map waitCalls waits)).
Proof.
  induction waits as [| c waits IH]; intros w us Hu.
  - cbn in *. rewrite <- Hu, after_same. reflexivity.
  - cbn [runWaitCommands]. cbn in Hu.
    rewrite (bind_val (waitForTimeout _) _ w (logged w (timedWait c)) tt eq_refl).
    cbv beta.
    rewrite (bind_val waitForPageStability _ (logged w (timedWait c))
               (logged (logged w (timedWait c)) CallWaitForPageStability) tt eq_refl).
    cbv beta.
    rewrite (bind_val _ _ _ _ _
               (refresh_goes_through
                  (logged (logged w (timedWait c)) CallWaitForPageStability)
                  (replicate (length waits) None ++ us) Hu)).
    cbv beta iota.
    rewrite (IH (after _ _ (replicate (length waits) None ++ us) _ _) us eq_refl).
    f_equal. unfold after. cbn [trace prepareS updateSomS executeS logged flat_map].
    unfold waitCalls at 2. cbn [app]. now rewrite <- !app_assoc.
Qed.

(** A round whose answer is plain and carries commands: the timed waits
    come first, whatever their place among the commands; what the run of the
    other commands gives decides how the round ends. *)
Lemma actRound_mixed (r : AiActionResult) (cmds : list SomCommand)
    (st : ActState) (w : World) (us : list (option Thrown)) :
  plain r ->
  commandsToRun r = Some cmds ->
  cmds <> [] ->
  settles w 1 ->
  updateSomS w =
    replicate (length (filter (λ c, isWaitFor c = true) cmds)) None ++ us ->
  actRound objective waitRetryLimit (Returns r) st w =
  match runCommands (filter (λ c, isWaitFor c = false) cmds) (aggregateResults st)
          (after w (drop 1 (prepareS w)) us (executeS w)
                 (quietRound (CallAiAct (waitCount st) waitRetryLimit) ++
                  flat_map waitCalls (filter (λ c, isWaitFor c = true) cmds))) with
  | Val (agg, AllRan) w2 =>
      Val (Return {| command_results := agg; actStatus := SUCCESS; actError := None |}) w2
  | Val (agg, FailedWith lastError res) w2 =>
      Exc (Error (failureMessage (lit "AI action failed for objective: " ++ objective)
                                 lastError (failedAttempts res))) w2
  | Val (_, RetryRequested) w2 =>
      Val (Continue {| waitCount := bumpCapped (waitCount st) waitRetryLimit;
                       preActionRetryCount := 0; aggregateResults := [] |}) w2
  | Exc e w2 => Exc e w2
  | Stuck => Stuck
  end.
Proof.
  intros (Hw & Hc & Hr & Hpre & Hn) Hcmds Hne Hs Hu. unfold actRound.
  rewrite (bind_val _ _ _ _ _ (stabilize_at_once _ (waitCount st) waitRetryLimit w Hs)).
  unfold callAiAction.
  unfold bind at 1. unfold bind at 1. unfold log at 1. unfold ret at 1.
  rewrite advanced_advanced_logged.
  cbn [app]. fold (quietRound (CallAiAct (waitCount st) waitRetryLimit)).
  rewrite Hw, Hc, Hr, Hpre, Hn, Hcmds.
  change (default [] (Some cmds)) with cmds.
  change ((0 <? length (@nil SomCommand))%nat) with false. cbv iota.
  unfold bind at 1. unfold ret at 1. cbv iota beta.
  replace ((length cmds =? 0)%nat) with false
    by (symmetry; apply Nat.eqb_neq; destruct cmds; [contradiction | discriminate]).
  unfold bind at 1.
  rewrite (runWaitCommands_succeed _
             (advanced w 1 (quietRound (CallAiAct (waitCount st) waitRetryLimit))) us Hu).
  unfold bind at 1. unfold retryState. cbn [waitCount].
  assert (Hworld :
            after (advanced w 1 (quietRound (CallAiAct (waitCount st) waitRetryLimit)))
                  (prepareS (advanced w 1
                               (quietRound (CallAiAct (waitCount st) waitRetryLimit))))
                  us
                  (executeS (advanced w 1
                               (quietRound (CallAiAct (waitCount st) waitRetryLimit))))
                  (flat_map waitCalls (filter (λ c, isWaitFor c = true) cmds)) =
            after w (drop 1 (prepareS w)) us (executeS w)
                  (quietRound (CallAiAct (waitCount st) waitRetryLimit) ++
                   flat_map waitCalls (filter (λ c, isWaitFor c = true) cmds)))
    by (unfold after, advanced; cbn [trace prepareS executeS]; now rewrite <- app_assoc).
  rewrite Hworld.
  destruct (runCommands _ _ _) as [[agg [| lastError res |]] w2 | e w2 |]; reflexivity.
Qed.

End Pre.

(** X9. A pre-command that fails is fatal: [act()] throws an error made of
    the objective, the command's error and its failed attempts. The
    pre-commands before it were run in order (a [WAIT_FOR] as a timed wait,
    the others by the executor), nothing after it is run: neither the
    remaining pre-commands nor the commands of the answer, and the marker map
    is not refreshed. *)
Theorem pre_command_failure_is_fatal (objective : jsstring) (waitRetryLimit : N)
    (r : AiActionResult) (done rest : list SomCommand) (c : SomCommand)
    (results : list SemanticCommandResult) (res : SemanticCommandResult)
    (oracle : list (Outcome AiActionResult)) (w : World)
    (ex : list (Outcome SemanticCommandResult)) :
  runsPreCommands r ->
  preCommands r = Some (done ++ c :: rest) ->
  isWaitFor c = false ->
  length results = length (filter (λ c, isWaitFor c = false) done) ->
  Forall succeeded results ->
  status res = FAILURE ->
  settles w 1 ->
  executeS w = map Returns results ++ Returns res :: ex ->
  let calls := quietRound (CallAiAct 0 waitRetryLimit) ++
               map preCall done ++ [CallExecuteSomCommand c] in
  act objective waitRetryLimit (Returns r :: oracle) w =
    Exc (Error (preFailureMessage objective res))
        (after w (drop 1 (prepareS w)) (updateSomS w) ex calls) /\
  dispatched calls = filter (λ c, isWaitFor c = false) done ++ [c].
Proof.
  intros (Hw & Hc & Hr) Hpre Hwait Hlen Hok Hres Hs He. cbv zeta. split.
  - unfold act. cbn [actLoop]. unfold bind at 1. unfold actRound.
    rewrite (bind_val _ _ _ _ _ (stabilize_at_once _ _ waitRetryLimit w Hs)).
    unfold callAiAction.
    unfold bind at 1. unfold bind at 1. unfold log at 1. unfold ret at 1.
    rewrite advanced_advanced_logged.
    cbn [app waitCount aggregateResults].
    fold (quietRound (CallAiAct 0 waitRetryLimit)).
    rewrite Hw, Hc, Hr, Hpre.
    change (default [] (Some (done ++ c :: rest))) with (done ++ c :: rest).
    replace ((0 <? length (done ++ c :: rest))%nat) with true
      by (symmetry; apply Nat.ltb_lt; rewrite length_app; simpl; lia).
    unfold bind at 1. unfold bind at 1.
    rewrite (runPreCommands_succeed objective done (c :: rest) [] results
               (advanced w 1 (quietRound (CallAiAct 0 waitRetryLimit)))
               (Returns res :: ex) Hlen Hok He).
    rewrite (runPreCommands_fails objective c rest _ res
               (after _ _ _ (Returns res :: ex) _) ex Hwait Hres eq_refl).
    rewrite after_after. f_equal.
    unfold after, advanced. cbn [trace prepareS updateSomS]. now rewrite <- !app_assoc.
  - rewrite !dispatched_app. cbn [quietRound]. rewrite dispatched_preCalls. reflexivity.
Qed.

Lemma pre_command_failure_is_fatal_witness :
  act (lit "save the form") 2
      [Returns (Samples7.commandsAnswer (Some [Samples9.pause; Samples7.click1; Samples7.click2])
                                        [Samples7.click3])]
      (world [None] [] [Returns Samples7.missed]) =
  Exc (Error (preFailureMessage (lit "save the form") Samples7.missed))
      (after (world [None] [] [Returns Samples7.missed]) [] [] []
             (quietRound (CallAiAct 0 2) ++
              [CallWaitForTimeout (Fin 5000); CallExecuteSomCommand Samples7.click1])).
Proof.
  apply (pre_command_failure_is_fatal (lit "save the form") 2
           (Samples7.commandsAnswer (Some [Samples9.pause; Samples7.click1; Samples7.click2])
                                    [Samples7.click3])
           [Samples9.pause] [Samples7.click2] Samples7.click1 [] Samples7.missed []
           (world [None] [] [Returns Samples7.missed]) []).
  - repeat split.
  - reflexivity.
  - reflexivity.
  - reflexivity.
  - constructor.
  - reflexivity.
  - reflexivity.
  - reflexivity.
Defined.

Lemma waits_and_actions (cmds : list SomCommand) :
  length cmds = (length (filter (λ c, isWaitFor c = true) cmds) +
                 length (filter (λ c, isWaitFor c = false) cmds))%nat.
Proof.
  induction cmds as [| c cmds IH]; [reflexivity |].
  rewrite !filter_cons. destruct (isWaitFor c).
  - destruct (decide (true = true)); [| contradiction].
    destruct (decide (true = false)); [discriminate |]. cbn. lia.
  - destruct (decide (false = true)); [discriminate |].
    destruct (decide (false = false)); [| contradiction]. cbn. lia.
Qed.

Lemma dispatched_waitCalls (waits : list SomCommand) :
  dispatched (flat_map waitCalls waits) = [].
Proof. induction waits as [| c waits IH]; [reflexivity | exact IH]. Qed.

(** X10. The [WAIT_FOR] commands of an answer run first, whatever their
    place among the commands, as timed waits that the executor never sees and
    that leave no result; the other commands follow in their order. The
    marker map is refreshed after each wait and after each command. When the
    commands all succeed and these refreshes all go through, [act()] returns
    success with the commands' results. (The page settles at once.) *)
Theorem timed_waits_run_first (objective : jsstring) (waitRetryLimit : N)
    (r : AiActionResult) (cmds : list SomCommand) (results : list SemanticCommandResult)
    (oracle : list (Outcome AiActionResult)) (w : World)
    (ex : list (Outcome SemanticCommandResult)) (us : list (option Thrown)) :
  plain r ->
  commandsToRun r = Some cmds ->
  cmds <> [] ->
  let waits := filter (λ c, isWaitFor c = true) cmds in
  let actions := filter (λ c, isWaitFor c = false) cmds in
  length results = length actions ->
  Forall succeeded results ->
  settles w 1 ->
  executeS w = map Returns results ++ ex ->
  updateSomS w = replicate (length cmds) None ++ us ->
  let calls := quietRound (CallAiAct 0 waitRetryLimit) ++
               flat_map waitCalls waits ++ flat_map commandCalls actions in
  act objective waitRetryLimit (Returns r :: oracle) w =
    Val {| command_results := results; actStatus := SUCCESS; actError := None |}
        (after w (drop 1 (prepareS w)) us ex calls) /\
  dispatched calls = actions.
Proof.
  intros Hplain Hcmds Hne waits actions Hlen Hok Hs He Hu calls. subst calls. split.
  - unfold act. cbn [actLoop]. unfold bind at 1.
    rewrite (waits_and_actions cmds), replicate_add, <- app_assoc in Hu.
    rewrite (actRound_mixed objective waitRetryLimit r cmds _ w _
               Hplain Hcmds Hne Hs Hu).
    cbn [aggregateResults waitCount]. fold waits actions.
    rewrite <- (app_nil_r actions) at 1.
    rewrite (runCommands_succeed actions [] [] results
               (after w (drop 1 (prepareS w)) (replicate (length actions) None ++ us)
                      (executeS w)
                      (quietRound (CallAiAct 0 waitRetryLimit) ++ flat_map waitCalls waits))
               ex us Hlen Hok He eq_refl).
    cbn [runCommands]. unfold ret. cbn [app].
    rewrite after_after, <- app_assoc. reflexivity.
  - rewrite !dispatched_app. cbn [quietRound].
    rewrite dispatched_waitCalls, dispatched_commandCalls. reflexivity.
Qed.

Lemma timed_waits_run_first_witness :
  act (lit "save the form") 2
      [Returns (Samples7.commandsAnswer None
                  [Samples7.click1; Samples9.longPause; Samples7.click2])]
      (world [None] [None; None; None]
             [Returns Samples7.clicked; Returns Samples7.clicked]) =
  Val {| command_results := [Samples7.clicked; Samples7.clicked];
         actStatus := SUCCESS; actError := None |}
      (after (world [None] [None; None; None]
                    [Returns Samples7.clicked; Returns Samples7.clicked])
             [] [] []
             (quietRound (CallAiAct 0 2) ++
              [CallWaitForTimeout (Fin 30000); CallWaitForPageStability; CallUpdateSom] ++
              flat_map commandCalls [Samples7.click1; Samples7.click2])).
Proof.
  apply (timed_waits_run_first (lit "save the form") 2
           (Samples7.commandsAnswer None
              [Samples7.click1; Samples9.longPause; Samples7.click2])
           [Samples7.click1; Samples9.longPause; Samples7.click2]
           [Samples7.clicked; Samples7.clicked] []
           (world [None] [None; None; None]
                  [Returns Samples7.clicked; Returns Samples7.clicked])
           [] []).
  - repeat split.
  - reflexivity.
  - discriminate.
  - reflexivity.
  - repeat constructor.
  - reflexivity.
  - reflexivity.
  - reflexivity.
Defined.

Lemma Qle_bool_false (a b : Q) : (b < a)%Q -> Qle_bool a b = false.
Proof.
  intros H. destruct (Qle_bool a b) eqn:Hle; [| reflexivity].
  apply Qle_bool_iff in Hle. exfalso. eapply Qlt_not_le; eassumption.
Qed.

Lemma Qle_bool_true (a b : Q) : (a <= b)%Q -> Qle_bool a b = true.
Proof. apply Qle_bool_iff. Qed.

(** X11. A timed wait lasts between 5 and 30 seconds, whatever was asked
    for. No duration at all means 5 s. A duration whose product with 1000
    (as the code computes it, in milliseconds) is at most 5000 is raised to
    5 s, also a negative or minus-infinite one; one beyond 30000 is cut to
    30 s, also an infinite one; one in between is kept as it is. The one
    exception is a duration that is not a number, which stays so. *)
Theorem wait_duration_is_clamped :
  clampWaitDuration None = Fin MIN_WAIT_FOR_DURATION_MS /\
  clampWaitDuration (Some NaN) = NaN /\
  clampWaitDuration (Some (Inf true)) = Fin MIN_WAIT_FOR_DURATION_MS /\
  clampWaitDuration (Some (Inf false)) = Fin MAX_WAIT_FOR_DURATION_MS /\
  forall seconds : Q,
    match numTimes1000 (Fin seconds) with
    | Fin ms =>
        ((ms <= MIN_WAIT_FOR_DURATION_MS)%Q ->
         clampWaitDuration (Some (Fin seconds)) = Fin MIN_WAIT_FOR_DURATION_MS) /\
        ((MIN_WAIT_FOR_DURATION_MS < ms)%Q -> (ms <= MAX_WAIT_FOR_DURATION_MS)%Q ->
         clampWaitDuration (Some (Fin seconds)) = Fin ms) /\
        ((MAX_WAIT_FOR_DURATION_MS < ms)%Q ->
         clampWaitDuration (Some (Fin seconds)) = Fin MAX_WAIT_FOR_DURATION_MS)
    | Inf negative =>
        clampWaitDuration (Some (Fin seconds)) =
        Fin (if negative then MIN_WAIT_FOR_DURATION_MS else MAX_WAIT_FOR_DURATION_MS)
    | NaN => False
    end.
Proof.
  repeat split; try reflexivity.
  intros seconds. unfold clampWaitDuration.
  destruct (numTimes1000 (Fin seconds)) as [| negative | ms] eqn:Hms.
  - cbn [numTimes1000] in Hms. unfold mkFin in Hms.
    destruct (Qnum (seconds * 1000) =? 0)%Z; [discriminate |].
    destruct (nearestDouble _ _) as [m p]. destruct (_ && _); discriminate.
  - destruct negative; reflexivity.
  - cbn [numMax numMin]. unfold Qmaxb, Qminb. repeat split.
    + intros Hlow. rewrite (Qle_bool_true _ _ Hlow). reflexivity.
    + intros Hlow Hhigh.
      rewrite (Qle_bool_false _ _ Hlow), (Qle_bool_true _ _ Hhigh). reflexivity.
    + intros Hhigh.
      assert (Hlow : (MIN_WAIT_FOR_DURATION_MS < ms)%Q).
      { eapply Qlt_trans; [| exact Hhigh]. reflexivity. }
      rewrite (Qle_bool_false _ _ Hlow), (Qle_bool_false _ _ Hhigh). reflexivity.
Qed.

Lemma wait_duration_is_clamped_witness :
  clampWaitDuration (Some (Fin (5 # 2))) = Fin 5000 /\
  clampWaitDuration (Some (Fin 12)) = Fin 12000 /\
  clampWaitDuration (Some (Fin 45)) = Fin 30000.
Proof.
  destruct wait_duration_is_clamped as (_ & _ & _ & _ & Hfin).
  pose proof (Hfin (5 # 2)) as H1.
  pose proof (Hfin 12%Q) as H2.
  pose proof (Hfin 45%Q) as H3.
  change (numTimes1000 (Fin (5 # 2))) with (Fin 2500) in H1.
  change (numTimes1000 (Fin 12)) with (Fin 12000) in H2.
  change (numTimes1000 (Fin 45)) with (Fin 45000) in H3.
  cbv beta iota in H1, H2, H3.
  destruct H1 as (Hlow & _ & _), H2 as (_ & Hmid & _), H3 as (_ & _ & Hhigh).
  split; [| split].
  - apply Hlow. discriminate.
  - apply Hmid; [reflexivity | discriminate].
  - apply Hhigh. reflexivity.
Defined.

End PreFacts.

(** ** More on [verify()] *)

Module VerifyMoreFacts.

Import Orchestrator OrchestratorSpec ReadOnlySpec JsFacts OrchestratorFacts VerifyFacts.

Lemma onlyLooks_refl (w : World) : onlyLooks w w.
Proof.
  split; [reflexivity | split; [reflexivity |]].
  exists []. rewrite app_nil_r. split; [reflexivity | constructor].
Qed.

Lemma onlyLooks_trans (w1 w2 w3 : World) :
  onlyLooks w1 w2 -> onlyLooks w2 w3 -> onlyLooks w1 w3.
Proof.
  intros (He & Hu & t & Ht & Hall) (He' & Hu' & t' & Ht' & Hall').
  split; [congruence | split; [congruence |]].
  exists (t ++ t'). rewrite Ht', Ht, <- app_assoc. split; [reflexivity |].
  apply Forall_app. now split.
Qed.

Lemma onlyLooks_logged (w : World) (c : Call) :
  isDomAction c = false -> isRefreshCall c = false -> onlyLooks w (logged w c).
Proof.
  intros Hd Hr. split; [reflexivity | split; [reflexivity |]].
  exists [c]. split; [reflexivity |]. now repeat constructor.
Qed.

(** Stabilization only looks: [prepare] is the one place where it touches
    the marker map. *)
Lemma stabilizeFrom_looks (description : jsstring) (waitCount_ limit : N) (fuel : nat) :
  forall (attemptsUsed : N) (w : World),
    match stabilizeFrom description waitCount_ limit fuel attemptsUsed w with
    | Val _ w' | Exc _ w' => onlyLooks w w'
    | Stuck => True
    end.
Proof.
  induction fuel as [| fuel IH]; intros attemptsUsed w;
    rewrite stabilizeFrom_unfold; cbv zeta;
    set (w1 := if (waitCount_ <? attemptsUsed) && (0 <? NAVIGATION_RETRY_DELAY_MS)
               then logged w _ else w);
    assert (H1 : onlyLooks w w1)
      by (subst w1; destruct (_ && _);
          [now apply onlyLooks_logged | apply onlyLooks_refl]);
    assert (H2 : onlyLooks w (logged w1 CallWaitForPageStability))
      by (eapply onlyLooks_trans; [exact H1 | now apply onlyLooks_logged]);
    set (w2 := logged w1 CallWaitForPageStability) in *;
    assert (H3 : forall ps, onlyLooks w (prepared w2 ps))
      by (intros ps; eapply onlyLooks_trans; [exact H2 |];
          split; [reflexivity | split; [reflexivity |]];
          exists [CallPrepare]; split; [reflexivity | now repeat constructor]);
    destruct (prepareS w2) as [| [e |] ps]; try exact I; try apply H3;
    destruct (isNavigationError e); try apply H3;
    destruct (limit <? attemptsUsed + 1); try apply H3; try exact I.
  specialize (IH (attemptsUsed + 1) (prepared w2 ps)).
  destruct (stabilizeFrom description waitCount_ limit fuel (attemptsUsed + 1)
                          (prepared w2 ps));
    try exact I; eapply onlyLooks_trans; try apply H3; exact IH.
Qed.

Lemma expectThat_looks (ef : ExpectFn) (passed : bool) (message : jsstring) (w : World) :
  match expectThat ef passed message w with
  | Val _ w' | Exc _ w' => onlyLooks w w'
  | Stuck => True
  end.
Proof.
  unfold expectThat, bind, log.
  destruct passed; [now apply onlyLooks_logged |].
  destruct ef; now apply onlyLooks_logged.
Qed.

Section Looks.
Variable requirement : jsstring.
Variable waitRetryLimit : N.
Variable confidence_threshold : option Q.
Variable expectFn : option ExpectFn.

Lemma verifyRound_looks (answer : Outcome AiActionResult) (waitCount_ : N) (w : World) :
  match verifyRound requirement waitRetryLimit confidence_threshold expectFn
                    answer waitCount_ w with
  | Val _ w' | Exc _ w' => onlyLooks w w'
  | Stuck => True
  end.
Proof.
  unfold verifyRound. unfold bind at 1.
  pose proof (stabilizeFrom_looks (lit "ai.verify requirement: " ++ requirement)
                waitCount_ waitRetryLimit
                (N.to_nat (waitRetryLimit - waitCount_)) waitCount_ w) as Hstab.
  unfold stabilizeForLlm.
  destruct (stabilizeFrom _ _ _ _ _ w) as [n w1 | e w1 |]; [| exact Hstab | exact I].
  assert (Hasked : onlyLooks w (logged w1 CallAiVerify))
    by (eapply onlyLooks_trans; [exact Hstab | now apply onlyLooks_logged]).
  unfold bind at 1. unfold tryCatch, callAiAction. unfold bind at 1. unfold bind at 1.
  unfold log at 1.
  destruct answer as [r | e]; unfold ret at 1, throw at 1.
  - unfold ret at 1.
    destruct (truthy_flag (requestSomRefresh r)); [exact Hasked |].
    destruct (extractVerification r) as [v | e]; [| exact Hasked].
    destruct (truthy_flag (stepCompleted r) || vSuccess v); [exact Hasked |].
    destruct expectFn as [ef |]; [| exact Hasked].
    unfold bind at 1.
    pose proof (expectThat_looks ef
                  (Qle_bool (SomHandler.Qmaxb 0 (default DEFAULT_CONFIDENCE_THRESHOLD
                                                          confidence_threshold))
                            (vConfidence v))
                  (lit "AI verification confidence " ++
                   numberToString (Fin (vConfidence v)) ++ lit " is below threshold " ++
                   numberToString (Fin (SomHandler.Qmaxb 0
                                          (default DEFAULT_CONFIDENCE_THRESHOLD
                                                   confidence_threshold))))
                  (logged w1 CallAiVerify)) as H1.
    destruct (expectThat ef _ _ (logged w1 CallAiVerify)) as [[] w2 | e w2 |];
      [| eapply onlyLooks_trans; eassumption | exact I].
    unfold bind at 1.
    pose proof (expectThat_looks ef (vSuccess v)
                  (lit "AI verification failed for requirement: " ++ requirement ++
                   (if truthy_ostr (vReason v)
                    then lit " - " ++ default [] (vReason v) else []))
                  w2) as H2.
    destruct (expectThat ef (vSuccess v) _ w2) as [[] w3 | e w3 |]; [| | exact I];
      (eapply onlyLooks_trans; [exact Hasked |]);
      (eapply onlyLooks_trans; [exact H1 | exact H2]).
  - destruct (isNavigationError e); [| exact Hasked].
    destruct (waitRetryLimit <? bumpCapped n waitRetryLimit); exact Hasked.
Qed.

Lemma verifyLoop_looks (oracle : list (Outcome AiActionResult)) :
  forall (waitCount_ : N) (w : World),
    match verifyLoop requirement waitRetryLimit confidence_threshold expectFn
                     oracle waitCount_ w with
    | Val _ w' | Exc _ w' => onlyLooks w w'
    | Stuck => True
    end.
Proof.
  induction oracle as [| answer oracle IH]; intros waitCount_ w; cbn [verifyLoop].
  - unfold bind.
    pose proof (stabilizeFrom_looks (lit "ai.verify requirement: " ++ requirement)
                  waitCount_ waitRetryLimit
                  (N.to_nat (waitRetryLimit - waitCount_)) waitCount_ w) as Hstab.
    unfold stabilizeForLlm.
    destruct (stabilizeFrom _ _ _ _ _ w); [exact I | exact Hstab | exact I].
  - unfold bind at 1.
    pose proof (verifyRound_looks answer waitCount_ w) as Hround.
    destruct (verifyRound _ _ _ _ answer waitCount_ w) as [[n | v] w1 | e w1 |];
      [| exact Hround | exact Hround | exact I].
    specialize (IH n w1).
    destruct (verifyLoop _ _ _ _ oracle n w1); [| | exact I];
      eapply onlyLooks_trans; eassumption.
Qed.

(** A round in which the oracle call fails. *)
Lemma verifyRound_thrown (e : Thrown) (waitCount_ : N) (w : World) :
  settles w 1 ->
  verifyRound requirement waitRetryLimit confidence_threshold expectFn
              (Throws e) waitCount_ w =
  if isNavigationError e
  then Val (Continue (bumpCapped waitCount_ waitRetryLimit))
           (advanced w 1 (quietRound CallAiVerify))
  else Exc e (advanced w 1 (quietRound CallAiVerify)).
Proof.
  intros Hs. unfold verifyRound.
  rewrite (bind_val _ _ _ _ _ (stabilize_at_once _ waitCount_ waitRetryLimit w Hs)).
  unfold bind at 1. unfold tryCatch, callAiAction. unfold bind at 1. unfold bind at 1.
  unfold log at 1. unfold throw at 1.
  rewrite advanced_advanced_logged. cbn [app]. fold (quietRound CallAiVerify).
  destruct (isNavigationError e); [| reflexivity].
  replace (waitRetryLimit <? bumpCapped waitCount_ waitRetryLimit) with false
    by (symmetry; apply N.ltb_ge; unfold bumpCapped; lia).
  reflexivity.
Qed.

Lemma verify_oracle_interruptions (n : nat) :
  forall (answers rest : list (Outcome AiActionResult)) (waitCount_ : N) (w : World),
    length answers = n ->
    Forall oracleInterrupted answers ->
    waitCount_ <= waitRetryLimit ->
    settles w n ->
    verifyLoop requirement waitRetryLimit confidence_threshold expectFn
               (answers ++ rest) waitCount_ w =
    verifyLoop requirement waitRetryLimit confidence_threshold expectFn
               rest (N.min (waitCount_ + N.of_nat n) waitRetryLimit)
               (advanced w n (verifyRounds n)).
Proof.
  induction n as [| n IH]; intros answers rest waitCount_ w Hlen Hall Hle Hs.
  - destruct answers; [| discriminate]. cbn [app].
    rewrite advanced_0. f_equal. lia.
  - destruct answers as [| a answers]; [discriminate |].
    injection Hlen as Hlen.
    apply Forall_cons in Hall as [(e & -> & He) Hall].
    destruct (settles_advanced w n (quietRound CallAiVerify) Hs) as [Hs1 Hs'].
    cbn [app verifyLoop]. unfold bind at 1.
    rewrite (verifyRound_thrown e waitCount_ w Hs1), He.
    assert (Hle' : bumpCapped waitCount_ waitRetryLimit <= waitRetryLimit)
      by (unfold bumpCapped; lia).
    rewrite (IH answers rest (bumpCapped waitCount_ waitRetryLimit) _ Hlen Hall Hle' Hs').
    rewrite advanced_advanced, <- verifyRounds_S. f_equal.
    unfold bumpCapped. lia.
Qed.

End Looks.

(** X13. [verify()] only looks at the page: however the oracle answers and
    however the run ends, no command goes to the Action Executor and the
    marker map is not refreshed. *)
Theorem verify_only_looks (requirement : jsstring) (waitRetryLimit : N)
    (confidence_threshold : option Q) (expectFn : option ExpectFn)
    (oracle : list (Outcome AiActionResult)) (w : World) :
  match verify requirement waitRetryLimit confidence_threshold expectFn oracle w with
  | Val _ w' | Exc _ w' => onlyLooks w w'
  | Stuck => True
  end.
Proof. apply verifyLoop_looks. Qed.

(** X14. A failure of the oracle call in [verify()] is retried when it is
    a navigation interruption, and thrown on as it is otherwise. The retries
    have no bound: the limit caps the wait counter, and the error the code
    keeps for interruptions beyond the limit is never thrown. After [k]
    interruptions in a row the oracle has been asked [k] times and the loop
    goes on. *)
Theorem verify_rides_out_oracle_interruptions (requirement : jsstring)
    (waitRetryLimit : N) (confidence_threshold : option Q) (expectFn : option ExpectFn)
    (answers rest : list (Outcome AiActionResult)) (w : World) :
  Forall oracleInterrupted answers ->
  settles w (S (length answers)) ->
  verify requirement waitRetryLimit confidence_threshold expectFn (answers ++ rest) w =
    verifyLoop requirement waitRetryLimit confidence_threshold expectFn rest
               (N.min (N.of_nat (length answers)) waitRetryLimit)
               (advanced w (length answers) (verifyRounds (length answers))) /\
  forall e, isNavigationError e = false ->
    verify requirement waitRetryLimit confidence_threshold expectFn
           (answers ++ Throws e :: rest) w =
    Exc e (advanced w (S (length answers)) (verifyRounds (S (length answers)))).
Proof.
  intros Hall Hs.
  assert (Hs0 : settles w (length answers)).
  { unfold settles in *.
    replace (length answers) with (Nat.min (length answers) (S (length answers))) at 1
      by lia.
    rewrite <- take_take, Hs, take_replicate. f_equal. lia. }
  assert (Hs1 : settles (advanced w (length answers) (verifyRounds (length answers))) 1).
  { unfold settles, advanced in *. cbn [prepareS].
    rewrite take_drop_commute.
    replace (length answers + 1)%nat with (S (length answers)) by lia.
    rewrite Hs, drop_replicate. f_equal. lia. }
  split.
  - unfold verify.
    rewrite (verify_oracle_interruptions requirement waitRetryLimit confidence_threshold
               expectFn (length answers) answers rest 0 w eq_refl Hall (N.le_0_l _) Hs0).
    reflexivity.
  - intros e He. unfold verify.
    rewrite (verify_oracle_interruptions requirement waitRetryLimit confidence_threshold
               expectFn (length answers) answers (Throws e :: rest) 0 w eq_refl Hall
               (N.le_0_l _) Hs0).
    cbn [verifyLoop]. unfold bind at 1.
    rewrite (verifyRound_thrown requirement waitRetryLimit confidence_threshold expectFn
               e _ _ Hs1), He.
    rewrite advanced_advanced, verifyRounds_S.
    f_equal. f_equal; [lia |].
    clear. induction (length answers) as [| n IH]; [reflexivity |].
    rewrite verifyRounds_S at 1. rewrite <- app_assoc, IH.
    rewrite <- verifyRounds_S. reflexivity.
Qed.

Lemma verify_rides_out_oracle_interruptions_witness :
  verify (lit "cart is empty") 1 None (Some ThrowingExpect)
         (replicate 3 (Throws Samples6.navigation) ++ [Returns (Samples5.verdict true 90)])
         (Samples5.quietWorld 4) =
  verifyLoop (lit "cart is empty") 1 None (Some ThrowingExpect)
             [Returns (Samples5.verdict true 90)] 1
             (advanced (Samples5.quietWorld 4) 3 (verifyRounds 3)).
Proof.
  assert (H : oracleInterrupted (Throws Samples6.navigation))
    by (eexists; split; [reflexivity | now vm_compute]).
  assert (Hall : Forall oracleInterrupted (replicate 3 (Throws Samples6.navigation)))
    by (repeat (constructor; [exact H |]); constructor).
  destruct (verify_rides_out_oracle_interruptions (lit "cart is empty") 1 None
              (Some ThrowingExpect) (replicate 3 (Throws Samples6.navigation))
              [Returns (Samples5.verdict true 90)] (Samples5.quietWorld 4)
              Hall eq_refl) as [Hrun _].
  exact Hrun.
Defined.

End VerifyMoreFacts.

(** ** More on [extract()] *)

Module ExtractMoreFacts.

Import Extract Orchestrator ExtractSpec JsFacts ExtractFacts.

Lemma castToNumber_finite (value fieldName : jsstring) (x : jsnum) :
  castToNumber value fieldName = Returns x -> isFinite x = true.
Proof.
  unfold castToNumber. destruct (isFinite (Number_ value)) eqn:H; cbn; congruence.
Qed.

Lemma castStringArrayToNumbers_finite (values : list jsstring) (fieldName : jsstring) :
  forall xs, castStringArrayToNumbers values fieldName = Returns xs ->
             length xs = length values /\ Forall (λ x, isFinite x = true) xs.
Proof.
  induction values as [| v vs IH]; intros xs H; cbn in H.
  - injection H as <-. split; [reflexivity | constructor].
  - destruct (castToNumber v fieldName) as [x |] eqn:Hx; [| discriminate].
    destruct (castStringArrayToNumbers vs fieldName) as [ys |]; [| discriminate].
    injection H as <-. destruct (IH ys eq_refl) as [Hlen Hall].
    split; [cbn; now rewrite Hlen |].
    constructor; [eapply castToNumber_finite; eassumption | exact Hall].
Qed.

Lemma computeExtractResult_shaped (r : AiActionResult)
    (rt : option ExtractReturnType) (v : Extracted) :
  computeExtractResult r rt = Returns v -> shaped (default string_ rt) v.
Proof.
  unfold computeExtractResult.
  set (list_ := default [] (extractedContentList r)).
  set (content := extractedContent r).
  destruct (negb (truthy_ostr content) && (length list_ =? 0)%nat) eqn:Hguard;
    [discriminate |].
  assert (Hsome : truthy_ostr content = true \/ list_ <> []).
  { destruct (truthy_ostr content); [now left |]. right.
    destruct list_; [discriminate | discriminate]. }
  assert (Hpick : (if (0 <? length list_)%nat then list_
                   else if truthy_ostr content then [default [] content] else []) <> []).
  { destruct list_ as [| x l]; cbn.
    - destruct Hsome as [-> | Hne]; [discriminate | contradiction].
    - discriminate. }
  destruct (default string_ rt); cbn [shaped].
  - intros H. injection H as <-. exact Hpick.
  - destruct (1 <? length list_)%nat eqn:Hlen.
    + intros H. injection H as <-. now apply Nat.ltb_lt.
    + destruct list_ as [| x [| y l]].
      * destruct (truthy_ostr content); [| discriminate].
        intros H. now injection H as <-.
      * intros H. now injection H as <-.
      * discriminate.
  - destruct (castStringArrayToNumbers _ _) as [xs |] eqn:Hxs; [| discriminate].
    intros H. injection H as <-.
    destruct (castStringArrayToNumbers_finite _ _ _ Hxs) as [Hlen Hall].
    split; [| exact Hall].
    intros ->. cbn in Hlen. symmetry in Hlen. apply length_zero_iff_nil in Hlen.
    contradiction.
  - destruct (truthy_ostr content).
    + destruct (castToNumber _ _) as [x |] eqn:Hx; [| discriminate].
      intros H. injection H as <-. eapply castToNumber_finite; eassumption.
    + destruct list_ as [| x [| y l]]; try discriminate.
      destruct (castToNumber _ _) as [x' |] eqn:Hx; [| discriminate].
      intros H. injection H as <-. eapply castToNumber_finite; eassumption.
Qed.

(** X15. What [extract()] returns has the shape that was asked for: a
    non-empty list of strings for [string_array]; a non-empty list of finite
    numbers for [int_array]; a finite number for [int]; and for [string] (the
    default) a string or, when the oracle listed several, the list of them.
    It never returns an empty list, [NaN] or an infinity. *)
Theorem extract_result_is_shaped (screenshot : option Thrown)
    (answer : Outcome AiActionResult) (return_type : option ExtractReturnType)
    (w w' : World) (v : Extracted) :
  extract screenshot answer return_type w = Val v w' ->
  shaped (default string_ return_type) v.
Proof.
  unfold extract, capturePageScreenshot, callAiAction, bind, log, ret, throw.
  destruct screenshot; [discriminate |].
  destruct answer as [r | e]; [| discriminate].
  destruct (computeExtractResult r return_type) as [x |] eqn:Hx; [| discriminate].
  intros H. injection H as <- _. now apply computeExtractResult_shaped in Hx.
Qed.

Lemma extract_result_is_shaped_witness :
  shaped int_array (ANumberArray [Fin (12 # 1); Fin (7 # 1)]).
Proof.
  apply (extract_result_is_shaped None (Returns Samples.answer_12_7) (Some int_array)
           (world [] [] [])
           (logged (logged (world [] [] []) CallScreenshot) CallAiExtract)
           (ANumberArray [Fin (12 # 1); Fin (7 # 1)])).
  reflexivity.
Defined.

Lemma castToNumber_blank (s fieldName : jsstring) :
  blank s -> castToNumber s fieldName = Returns (Fin 0).
Proof. intros H. unfold castToNumber, Number_. rewrite H. reflexivity. Qed.

Lemma castStringArrayToNumbers_blank (l : list jsstring) (fieldName : jsstring) :
  Forall blank l ->
  castStringArrayToNumbers l fieldName = Returns (map (λ _, Fin 0) l).
Proof.
  induction 1 as [| s l Hs _ IH]; [reflexivity |].
  cbn [castStringArrayToNumbers map]. now rewrite (castToNumber_blank s fieldName Hs), IH.
Qed.

(** X16. Text that is empty or white space only is read as the number 0,
    not rejected: as an entry of the list for [int_array], as the single
    entry of the list for [int], and as a content of white space for
    [int]. *)
Theorem blank_text_reads_as_zero (r : AiActionResult) :
  (forall l, extractedContentList r = Some l -> l <> [] -> Forall blank l ->
             computeExtractResult r (Some int_array) =
             Returns (ANumberArray (map (λ _, Fin 0) l))) /\
  (forall s, extractedContentList r = Some [s] -> blank s ->
             truthy_ostr (extractedContent r) = false ->
             computeExtractResult r (Some int) = Returns (ANumber (Fin 0))) /\
  (forall c, extractedContent r = Some c -> c <> [] -> blank c ->
             computeExtractResult r (Some int) = Returns (ANumber (Fin 0))).
Proof.
  split; [| split].
  - intros l Hl Hne Hall. rewrite (compute_int_array r l Hl Hne).
    now rewrite castStringArrayToNumbers_blank.
  - intros s Hl Hs Hc. unfold computeExtractResult. rewrite Hl, Hc. cbn.
    now rewrite (castToNumber_blank s _ Hs).
  - intros c Hc Hne Hb. unfold computeExtractResult. rewrite Hc.
    assert (Ht : truthy_ostr (Some c) = true) by (destruct c; [contradiction | reflexivity]).
    rewrite Ht. cbn. now rewrite (castToNumber_blank c _ Hb).
Qed.

(** X17. When the oracle's answer carries both a content and a list, the
    list wins for [string_array], [int_array] and [string], and the content
    wins for [int]. *)
Theorem list_and_content_precedence (r : AiActionResult) (c : jsstring)
    (l : list jsstring) :
  extractedContent r = Some c -> c <> [] ->
  extractedContentList r = Some l -> l <> [] ->
  computeExtractResult r (Some string_array) = Returns (AStringArray l) /\
  computeExtractResult r (Some int_array) =
    match castStringArrayToNumbers l (lit "extractedContentList") with
    | Returns xs => Returns (ANumberArray xs)
    | Throws e => Throws e
    end /\
  computeExtractResult r (Some int) =
    match castToNumber c (lit "extractedContent") with
    | Returns x => Returns (ANumber x)
    | Throws e => Throws e
    end /\
  computeExtractResult r None =
    match l with
    | [x] => Returns (AString x)
    | _ => Returns (AStringArray l)
    end.
Proof.
  intros Hc Hcne Hl Hlne.
  assert (Ht : truthy_ostr (Some c) = true) by (destruct c; [contradiction | reflexivity]).
  split; [| split; [| split]].
  - unfold computeExtractResult. rewrite Hc, Hl, Ht. cbn.
    destruct l; [contradiction | reflexivity].
  - now apply compute_int_array.
  - unfold computeExtractResult. rewrite Hc, Hl, Ht. reflexivity.
  - unfold computeExtractResult. rewrite Hc, Hl, Ht. cbn.
    destruct l as [| x [| y l]]; [contradiction | reflexivity | reflexivity].
Qed.

Lemma list_and_content_precedence_witness :
  computeExtractResult Samples10.both (Some int) = Returns (ANumber (Fin (5 # 1))) /\
  computeExtractResult Samples10.both (Some int_array) =
    Returns (ANumberArray [Fin (7 # 1)]).
Proof.
  destruct (list_and_content_precedence Samples10.both (lit "5") [lit "7"]
              eq_refl ltac:(discriminate) eq_refl ltac:(discriminate))
    as (_ & Harr & Hint & _).
  split; [exact Hint | exact Harr].
Defined.

Lemma blank_text_reads_as_zero_witness :
  computeExtractResult Samples10.blanks (Some int_array) =
  Returns (ANumberArray [Fin 0; Fin 0]).
Proof.
  destruct (blank_text_reads_as_zero Samples10.blanks) as (H & _).
  apply (H [[]; [32]]); [reflexivity | discriminate |].
  repeat constructor.
Defined.

End ExtractMoreFacts.

(** ** More on [runCommand] *)

Module CommandMoreFacts.

Import SomHandler CommandSpec JsFacts.

Lemma selectorAttempts_app (a b : list DriverCall) :
  selectorAttempts (a ++ b) = (selectorAttempts a + selectorAttempts b)%nat.
Proof. unfold selectorAttempts. now rewrite filter_app, length_app. Qed.

Lemma coordinateActions_app (a b : list DriverCall) :
  coordinateActions (a ++ b) = (coordinateActions a + coordinateActions b)%nat.
Proof. unfold coordinateActions. now rewrite filter_app, length_app. Qed.

Lemma selectorAttempts_cons (c : DriverCall) (l : list DriverCall) :
  selectorAttempts (c :: l) =
  ((if isSelectorAttempt c then 1 else 0) + selectorAttempts l)%nat.
Proof.
  unfold selectorAttempts. rewrite filter_cons.
  destruct (decide (isSelectorAttempt c = true)) as [H | H].
  - rewrite H. reflexivity.
  - destruct (isSelectorAttempt c); [contradiction | reflexivity].
Qed.

Lemma coordinateActions_cons (c : DriverCall) (l : list DriverCall) :
  coordinateActions (c :: l) =
  ((if isCoordinateAction c then 1 else 0) + coordinateActions l)%nat.
Proof.
  unfold coordinateActions. rewrite filter_cons.
  destruct (decide (isCoordinateAction c = true)) as [H | H].
  - rewrite H. reflexivity.
  - destruct (isCoordinateAction c); [contradiction | reflexivity].
Qed.

Ltac count_calls :=
  cbn [snd];
  rewrite ?selectorAttempts_app, ?coordinateActions_app,
          ?selectorAttempts_cons, ?coordinateActions_cons;
  cbn [isSelectorAttempt isCoordinateAction];
  change (selectorAttempts []) with 0%nat; change (coordinateActions []) with 0%nat.

(** The loop over the semantic selectors tries each selector at most once,
    in order, and never acts on a coordinate. *)
Lemma trySelectors_calls (drv : Driver) (element : SomElement) (command : SomCommand)
    (selectors : list TypedSelector) :
  forall failed,
    let '(found, _, calls) := trySelectors drv element command selectors failed in
    (selectorAttempts calls <= length selectors)%nat /\
    coordinateActions calls = 0%nat /\
    (found = None -> selectorAttempts calls = length selectors).
Proof.
  induction selectors as [| s rest IH]; intros failed; cbn [trySelectors].
  - cbn. repeat split; lia.
  - cbv zeta.
    destruct (status (tryExecuteAction drv s (modifiedCommand element command) element)).
    + destruct (isHoverOrFocus (action command)); count_calls;
        (split; [cbn; lia | split; [reflexivity | intros; discriminate]]).
    + specialize (IH (failed ++ failedAttempts
                        (tryExecuteAction drv s (modifiedCommand element command) element))).
      destruct (trySelectors drv element command rest _) as [[found f] calls].
      destruct IH as (Hle & Hc & Hnone).
      count_calls. rewrite Hc. cbn [length].
      split; [lia | split; [reflexivity |]]. intros Hf. rewrite (Hnone Hf). reflexivity.
Qed.

Lemma attempted_app (a b : list DriverCall) :
  attempted (a ++ b) = attempted a ++ attempted b.
Proof. unfold attempted. apply omap_app. Qed.

(** The selectors the loop calls [tryExecuteAction] with are the first of
    [selectors], in their order. *)
Lemma trySelectors_attempted (drv : Driver) (element : SomElement) (command : SomCommand)
    (selectors : list TypedSelector) :
  forall failed,
    attempted (snd (trySelectors drv element command selectors failed))
      `prefix_of` selectors.
Proof.
  induction selectors as [| s rest IH]; intros failed; cbn [trySelectors].
  - apply prefix_nil.
  - cbv zeta.
    destruct (status (tryExecuteAction drv s (modifiedCommand element command) element)).
    + destruct (isHoverOrFocus (action command)); cbn [snd attempted omap];
        apply prefix_cons, prefix_nil.
    + specialize (IH (failed ++ failedAttempts
                        (tryExecuteAction drv s (modifiedCommand element command) element))).
      destruct (trySelectors drv element command rest _) as [[found f] calls].
      cbn [snd] in *. change (attempted (DoSelectorAttempt s (modifiedCommand element command)
                                          :: calls)) with (s :: attempted calls).
      now apply prefix_cons.
Qed.

(** X18. One [runCommand] calls [tryExecuteAction] at most eight times and
    the coordinate action at most once. The selectors it calls
    [tryExecuteAction] with are, in this order and as far as it gets, the
    marker selector and the first seven semantic selectors of the element
    that the map holds under the command's marker; with
    [useSomIdBasedCommands] the marker selector alone. What a call of
    [tryExecuteAction] tries on the page by itself is not counted. *)
Theorem attempts_are_bounded (h : Handler) (drv : Driver) (command : SomCommand)
    (useSomIdBasedCommands : bool) :
  let calls := snd (runCommand h drv command useSomIdBasedCommands) in
  (selectorAttempts calls <= 8)%nat /\
  (coordinateActions calls <= 1)%nat /\
  (useSomIdBasedCommands = true -> selectorAttempts calls <= 1)%nat /\
  (attempted calls = [] \/
   exists ref element res,
     elementRef command = Some ref /\ somMap h !! ref = Some element /\
     resolveSomTarget (markedNodes drv ref) ref element = Returns res /\
     attempted calls `prefix_of`
       somIdSelector ref res ::
       (if useSomIdBasedCommands then []
        else take 7 (generateSemanticSelectors element))).
Proof.
  cbv zeta. unfold runCommand.
  destruct (negb (pageOpen h)); [count_calls; repeat split; first [lia | now left] |].
  destruct (isNavigation (action command)) eqn:Hnav.
  { destruct (action command); try discriminate;
      try (destruct (navigateOutcome drv command); count_calls;
           repeat split; first [lia | now left]).
    destruct (negb (truthy_ostr (value command)));
      [count_calls; repeat split; first [lia | now left] |].
    destruct (navigateOutcome drv command); count_calls;
      repeat split; first [lia | now left]. }
  destruct (percentageTarget command).
  { destruct (percentageCoordinateOutcome drv command); count_calls;
      repeat split; first [lia | now left]. }
  destruct (negb (truthy_ostr (elementRef command))) eqn:Href;
    [count_calls; repeat split; first [lia | now left] |].
  destruct (elementRef command) as [ref0 |] eqn:Hrefeq; [| discriminate].
  change (default [] (Some ref0)) with ref0.
  destruct (somMap h !! ref0) as [element |] eqn:Hmap;
    [| count_calls; repeat split; first [lia | now left]].
  destruct (resolveSomTarget _ _ element) as [res | e] eqn:Hres;
    [| count_calls; repeat split; first [lia | now left]].
  cbv zeta.
  set (opening := DoQueryMarked ref0 :: _).
  assert (Hopen : selectorAttempts opening = 0%nat /\ coordinateActions opening = 0%nat /\
                  attempted opening = [])
    by (subst opening; destruct (isHoverOrFocus (action command)); count_calls;
        repeat split; reflexivity).
  destruct Hopen as (Ho1 & Ho2 & Ho3).
  assert (Hwhich : forall calls : list DriverCall,
            attempted calls `prefix_of`
              somIdSelector ref0 res ::
              (if useSomIdBasedCommands then []
               else take 7 (generateSemanticSelectors element)) ->
            attempted calls = [] \/
            exists ref element0 res0,
              Some ref0 = Some ref /\ somMap h !! ref = Some element0 /\
              resolveSomTarget (markedNodes drv ref) ref element0 = Returns res0 /\
              attempted calls `prefix_of`
                somIdSelector ref res0 ::
                (if useSomIdBasedCommands then []
                 else take 7 (generateSemanticSelectors element0))).
  { intros calls Hp. right. exists ref0, element, res. now repeat split. }
  destruct (status (tryExecuteAction drv (somIdSelector ref0 res)
                      (modifiedCommand element command) element)).
  - split; [count_calls; rewrite ?Ho1, ?Ho2; lia |].
    split; [count_calls; rewrite ?Ho1, ?Ho2; lia |].
    split; [count_calls; rewrite ?Ho1, ?Ho2; lia |].
    apply Hwhich. cbn [snd]. rewrite !attempted_app, Ho3. cbn [attempted omap app].
    apply prefix_cons, prefix_nil.
  - destruct useSomIdBasedCommands.
    + split; [count_calls; rewrite ?Ho1, ?Ho2; lia |].
      split; [count_calls; rewrite ?Ho1, ?Ho2; lia |].
      split; [count_calls; rewrite ?Ho1, ?Ho2; lia |].
      apply Hwhich. cbn [snd]. rewrite !attempted_app, Ho3. cbn [attempted omap app].
      apply prefix_cons, prefix_nil.
    + pose proof (trySelectors_calls drv element command
                    (take maxAttempts (generateSemanticSelectors element))
                    (failedAttempts (tryExecuteAction drv (somIdSelector ref0 res)
                                       (modifiedCommand element command) element))) as Htry.
      pose proof (trySelectors_attempted drv element command
                    (take maxAttempts (generateSemanticSelectors element))
                    (failedAttempts (tryExecuteAction drv (somIdSelector ref0 res)
                                       (modifiedCommand element command) element))) as Hpre.
      destruct (trySelectors drv element command _ _) as [[found failed] calls].
      destruct Htry as (Hle & Hc & _). cbn [snd] in Hpre.
      assert (Hlen : (length (take maxAttempts (generateSemanticSelectors element))
                      <= maxAttempts)%nat) by (rewrite length_take; lia).
      unfold maxAttempts in *.
      destruct found;
        (split; [count_calls; rewrite ?Ho1, ?Ho2, ?Hc; lia |];
         split; [count_calls; rewrite ?Ho1, ?Ho2, ?Hc; lia |];
         split; [intros; discriminate |];
         apply Hwhich; cbn [snd]; rewrite !attempted_app, Ho3; cbn [attempted omap app];
         rewrite ?app_nil_r; now apply prefix_cons).
Qed.

(** When every selector fails, the loop leaves their failed attempts, in
    order, after those it started with. *)
Lemma trySelectors_all_fail (drv : Driver) (element : SomElement) (command : SomCommand)
    (selectors : list TypedSelector) :
  forall failed,
    allFail drv element command selectors ->
    trySelectors drv element command selectors failed =
    (None, failed ++ attemptsLeftBy drv element command selectors,
     map (λ s, DoSelectorAttempt s (modifiedCommand element command)) selectors).
Proof.
  induction selectors as [| s rest IH]; intros failed Hall; cbn [trySelectors].
  - unfold attemptsLeftBy. cbn. now rewrite app_nil_r.
  - apply Forall_cons in Hall as [Hs Hall]. cbv zeta. rewrite Hs.
    rewrite (IH _ Hall). unfold attemptsLeftBy. cbn [map concat].
    now rewrite <- app_assoc.
Qed.

(** X19. No failed attempt is lost on the way to the coordinate fallback.
    When the marker selector and every semantic selector tried fail, the
    coordinate action runs once, after all of them, and the result is its
    result with the failed attempts of the selectors, in the order they were
    tried, put in front of its own (in place of its own when it
    succeeds). *)
Theorem fallback_keeps_failed_attempts (h : Handler) (drv : Driver)
    (command : SomCommand) (useSomIdBasedCommands : bool)
    (ref : jsstring) (element : SomElement) (res : Resolution) :
  pageOpen h = true ->
  isNavigation (action command) = false ->
  coord command = None ->
  elementRef command = Some ref -> ref <> [] ->
  somMap h !! ref = Some element ->
  resolveSomTarget (markedNodes drv ref) ref element = Returns res ->
  let tried := selectorsTried ref res element useSomIdBasedCommands in
  allFail drv element command tried ->
  let coordResult := executeCoordinateAction drv command element in
  exists opening,
    runCommand h drv command useSomIdBasedCommands =
      (Returns {| failedAttempts :=
                    attemptsLeftBy drv element command tried ++
                    match status coordResult with
                    | SUCCESS => []
                    | FAILURE => failedAttempts coordResult
                    end;
                  successAttempt := successAttempt coordResult;
                  error := error coordResult;
                  status := status coordResult;
                  mutations := mutations coordResult |},
       opening ++
       map (λ s, DoSelectorAttempt s (modifiedCommand element command)) tried ++
       [DoCoordinateAction command; DoDisconnectMutationObserver]) /\
    selectorAttempts opening = 0%nat /\ coordinateActions opening = 0%nat.
Proof.
  intros Hopen Hnav Hcoord Href Hne Hel Hres tried Hall coordResult.
  apply Forall_cons in Hall as [Hfirst Hrest].
  exists (DoQueryMarked ref ::
          (if isHoverOrFocus (action command) then [DoSetupMutationObserver] else [])).
  split; [| destruct (isHoverOrFocus (action command)); count_calls; split; reflexivity].
  unfold runCommand. rewrite Hopen, Hnav. cbn [negb].
  unfold percentageTarget. rewrite Hcoord, Href.
  assert (Ht : truthy_ostr (Some ref) = true) by (destruct ref; [contradiction | reflexivity]).
  rewrite Ht. cbn [negb]. change (default [] (Some ref)) with ref.
  rewrite Hel, Hres. cbv zeta. rewrite Hfirst.
  assert (Htry :
            (if useSomIdBasedCommands
             then (None,
                   failedAttempts
                     (tryExecuteAction drv (somIdSelector ref res)
                        (modifiedCommand element command) element), [])
             else trySelectors drv element command
                    (take maxAttempts (generateSemanticSelectors element))
                    (failedAttempts
                       (tryExecuteAction drv (somIdSelector ref res)
                          (modifiedCommand element command) element))) =
            (None, attemptsLeftBy drv element command tried,
             map (λ s, DoSelectorAttempt s (modifiedCommand element command))
                 (if useSomIdBasedCommands then []
                  else take maxAttempts (generateSemanticSelectors element)))).
  { subst tried. unfold selectorsTried in *. destruct useSomIdBasedCommands.
    - unfold attemptsLeftBy. cbn. now rewrite app_nil_r.
    - rewrite (trySelectors_all_fail _ _ _ _ _ Hrest). reflexivity. }
  rewrite Htry. fold coordResult. f_equal.
  - f_equal. unfold withFailedAttempts.
    destruct (status coordResult) eqn:Hst.
    + now rewrite app_nil_r.
    + destruct (attemptsLeftBy drv element command tried) as [| a l] eqn:Hleft.
      * destruct coordResult; cbn in *. now subst.
      * reflexivity.
  - subst tried. unfold selectorsTried. cbn [map]. rewrite <- !app_assoc. reflexivity.
Qed.

Lemma fallback_keeps_failed_attempts_witness :
  match fst (runCommand Samples11.saveHandler Samples11.stubbornDriver
                        (Samples4.clickOn (Some (lit "3"))) false) with
  | Returns r =>
      status r = FAILURE /\
      map attemptCommand (failedAttempts r) =
      [Some (lit "[tc-som-id=" ++ dquote ++ lit "3" ++ dquote ++ lit "]");
       Some (lit "button"); Some (lit "Save");
       Some (lit "await page.mouse.click(50, 10)")]
  | Throws _ => False
  end.
Proof.
  destruct (fallback_keeps_failed_attempts Samples11.saveHandler Samples11.stubbornDriver
              (Samples4.clickOn (Some (lit "3"))) false (lit "3") Samples.saveButton
              Samples11.noResolution eq_refl eq_refl eq_refl eq_refl
              ltac:(discriminate) eq_refl eq_refl)
    as (opening & Hrun & _).
  - repeat constructor.
  - rewrite Hrun. split; reflexivity.
Defined.

End CommandMoreFacts.

(** ** Navigation commands and the guard around [runCommand] *)

Module ExecutorFacts.

Import SomHandler Orchestrator OrchestratorSpec ActSpec Executor JsFacts OrchestratorFacts
       ActRunFacts.

(** X20. A navigation command needs no marker: on an open page its outcome
    does not depend on the marker map or on [useSomIdBasedCommands], it never
    throws, and the browser is asked to navigate once, or not at all:
    [navigate] without a URL fails before anything is sent. *)
Theorem navigation_needs_no_marker (h h' : Handler) (drv : Driver) (command : SomCommand)
    (u u' : bool) :
  isNavigation (action command) = true ->
  pageOpen h = true -> pageOpen h' = true ->
  runCommand h drv command u = runCommand h' drv command u' /\
  (exists result calls,
      runCommand h drv command u = (Returns result, calls) /\
      (calls = [] \/ calls = [DoNavigate command])) /\
  (action command = NAVIGATE -> truthy_ostr (value command) = false ->
   runCommand h drv command u =
     (Returns (failedResult (lit "Navigation action: navigate")
                            (lit "NAVIGATE action requires URL in value field")), [])).
Proof.
  intros Hnav Hopen Hopen'. unfold runCommand. rewrite Hopen, Hopen', Hnav. cbn [negb].
  split; [reflexivity |]. split.
  - destruct (action command); try discriminate;
      try (destruct (navigateOutcome drv command);
           eexists; eexists; (split; [reflexivity | now right])).
    destruct (negb (truthy_ostr (value command)));
      [eexists; eexists; (split; [reflexivity | now left]) |].
    destruct (navigateOutcome drv command);
      eexists; eexists; (split; [reflexivity | now right]).
  - intros Hact Hval. rewrite Hact, Hval. reflexivity.
Qed.

Lemma navigation_needs_no_marker_witness :
  runCommand Samples2.freshHandler Samples4.obligingDriver Samples12.goBack false =
  runCommand Samples11.saveHandler Samples4.obligingDriver Samples12.goBack true.
Proof.
  destruct (navigation_needs_no_marker Samples2.freshHandler Samples11.saveHandler
              Samples4.obligingDriver Samples12.goBack false true
              eq_refl eq_refl eq_refl) as [Hsame _].
  exact Hsame.
Defined.

(** The message for a failure that left an error and no failed attempt. *)
Lemma failureMessage_last_error (head msg : jsstring) :
  head <> [] -> msg <> [] ->
  failureMessage head (Some msg) [] = head ++ [10] ++ lit "Last error: " ++ msg.
Proof.
  intros Hhead Hmsg. unfold failureMessage.
  destruct head as [| h0 head]; [contradiction |].
  destruct msg as [| m0 msg]; [contradiction |].
  cbn [formatFailedAttemptsLine truthy_ostr truthy_str app].
  change (default [] (Some (m0 :: msg))) with (m0 :: msg).
  rewrite !filter_cons.
  destruct (decide (truthy_str (h0 :: head) = true)) as [_ | Hf];
    [| exfalso; apply Hf; reflexivity].
  destruct (decide _) as [_ | Hf]; [| exfalso; apply Hf; reflexivity].
  reflexivity.
Qed.

Lemma executedOn_missing_marker (h : Handler) (drv : Driver) (timeoutMs : jsnum)
    (command : SomCommand) (ref : jsstring) :
  pageOpen h = true ->
  isNavigation (action command) = false ->
  coord command = None ->
  elementRef command = Some ref -> ref <> [] ->
  somMap h !! ref = None ->
  executedOn h drv timeoutMs command =
  Returns (rejectedResult (lit "Element with SoM ID " ++ dquote ++ ref ++ dquote ++
                           lit " not found in map")).
Proof.
  intros Hopen Hnav Hcoord Href Hne Hmap.
  unfold executedOn, runCommand. rewrite Hopen, Hnav. cbn [negb].
  unfold percentageTarget. rewrite Hcoord, Href.
  assert (Ht : truthy_ostr (Some ref) = true) by (destruct ref; [contradiction | reflexivity]).
  rewrite Ht. cbn [negb]. change (default [] (Some ref)) with ref.
  rewrite Hmap. reflexivity.
Qed.

(** X22. A command aimed at a marker that the map does not hold is rejected
    by [runCommand] with a failure that has no attempts, which
    [executeSomCommand] hands on as it is. [act()] looks at it after the
    refresh of the marker map that follows the command. When that refresh
    goes through, the whole objective fails: [act()] throws an error that
    names the objective and the missing marker, and the oracle is not asked
    again. When a navigation interrupts the refresh, the rejection is dropped
    and the oracle is asked again; when the refresh fails otherwise, its
    error is thrown. Whichever it is, the commands after the rejected one are
    not run in this round. (The command is the first of the answer, and the
    page settles at once.) *)
Theorem missing_marker_fails_the_objective (objective : jsstring) (waitRetryLimit : N)
    (r : AiActionResult) (command : SomCommand) (rest : list SomCommand)
    (ref : jsstring) (h : Handler) (drv : Driver) (timeoutMs : jsnum)
    (refresh : option Thrown)
    (oracle : list (Outcome AiActionResult)) (w : World)
    (ex : list (Outcome SemanticCommandResult)) (us : list (option Thrown)) :
  plain r ->
  commandsToRun r = Some (command :: rest) ->
  Forall (λ c, isWaitFor c = false) (command :: rest) ->
  pageOpen h = true ->
  isNavigation (action command) = false ->
  coord command = None ->
  elementRef command = Some ref -> ref <> [] ->
  somMap h !! ref = None ->
  settles w 1 ->
  executeS w = executedOn h drv timeoutMs command :: ex ->
  updateSomS w = refresh :: us ->
  let calls := quietRound (CallAiAct 0 waitRetryLimit) ++ commandCalls command in
  let w' := after w (drop 1 (prepareS w)) us ex calls in
  act objective waitRetryLimit (Returns r :: oracle) w =
    match refresh with
    | None =>
        Exc (Error (lit "AI action failed for objective: " ++ objective ++ [10] ++
                    lit "Last error: Element with SoM ID " ++ dquote ++ ref ++ dquote ++
                    lit " not found in map")) w'
    | Some e =>
        if isNavigationError e
        then actLoop objective waitRetryLimit oracle
                     {| waitCount := bumpCapped 0 waitRetryLimit;
                        preActionRetryCount := 0; aggregateResults := [] |} w'
        else Exc e w'
    end /\
  dispatched calls = [command].
Proof.
  intros Hplain Hcmds Hall Hopen Hnav Hcoord Href Hne Hmap Hs He Hu. cbv zeta.
  split; [| reflexivity].
  rewrite (executedOn_missing_marker h drv timeoutMs command ref
             Hopen Hnav Hcoord Href Hne Hmap) in He.
  unfold act. cbn [actLoop]. unfold bind at 1.
  rewrite (actRound_commands objective waitRetryLimit r _ _ w
             Hplain Hcmds ltac:(discriminate) Hall Hs).
  cbn [aggregateResults waitCount].
  rewrite (runCommands_answered command rest [] _
             (advanced w 1 (quietRound (CallAiAct 0 waitRetryLimit))) ex refresh us He Hu).
  cbn [status rejectedResult error failedAttempts].
  assert (Hworld :
            after (advanced w 1 (quietRound (CallAiAct 0 waitRetryLimit)))
                  (prepareS (advanced w 1 (quietRound (CallAiAct 0 waitRetryLimit))))
                  us ex (commandCalls command) =
            after w (drop 1 (prepareS w)) us ex
                  (quietRound (CallAiAct 0 waitRetryLimit) ++ commandCalls command))
    by (unfold after, advanced; cbn [trace prepareS updateSomS executeS];
        now rewrite <- app_assoc).
  rewrite Hworld.
  destruct refresh as [e |]; [destruct (isNavigationError e); reflexivity |].
  rewrite failureMessage_last_error by discriminate.
  rewrite <- !app_assoc. reflexivity.
Qed.

Lemma missing_marker_fails_the_objective_witness :
  act (lit "save the form") 2
      [Returns (Samples7.commandsAnswer None [Samples12.click9; Samples7.click1])]
      (world [None] [None]
             [executedOn Samples2.freshHandler Samples4.obligingDriver (Fin 30000)
                         Samples12.click9]) =
  Exc (Error (lit "AI action failed for objective: save the form" ++ [10] ++
              lit "Last error: Element with SoM ID " ++ dquote ++ lit "9" ++ dquote ++
              lit " not found in map"))
      (after (world [None] [None]
                    [executedOn Samples2.freshHandler Samples4.obligingDriver (Fin 30000)
                                Samples12.click9])
             [] [] [] (quietRound (CallAiAct 0 2) ++ commandCalls Samples12.click9)).
Proof.
  apply (missing_marker_fails_the_objective (lit "save the form") 2
           (Samples7.commandsAnswer None [Samples12.click9; Samples7.click1])
           Samples12.click9 [Samples7.click1] (lit "9")
           Samples2.freshHandler Samples4.obligingDriver (Fin 30000) None []
           (world [None] [None]
                  [executedOn Samples2.freshHandler Samples4.obligingDriver (Fin 30000)
                              Samples12.click9]) [] []);
    try reflexivity.
  - repeat split.
  - repeat constructor.
  - discriminate.
Defined.

End ExecutorFacts.

(** ** More on the annotation pass *)

Module AnnotationMoreFacts.

Import SomHandler AnnotationSpec EligibilitySpec JsFacts AnnotationFacts.




Lemma ruledOut_no_marker (v : DomView) (io id_ : bool) (el : nat) :
  ruledOut v id_ el -> getsMarker v io id_ el = false.
Proof.
  unfold ruledOut, getsMarker. cbv zeta.
  intros [Hw | [Hh | [[Hhid Hps] | [Hdis Hid]]]].
  - apply Qeq_bool_iff in Hw. now rewrite Hw.
  - apply Qeq_bool_iff in Hh. rewrite Hh, orb_true_r. reflexivity.
  - rewrite Hhid, Hps. cbn. now destruct (_ || _).
  - rewrite Hdis, Hid. cbn. destruct (_ || _); [reflexivity |]. now destruct (_ && _).
Qed.

(** X24. An element without size, a hidden element without a visible
    pseudo-element, and a disabled element when disabled elements are not
    asked for, gets no marker whatever else holds of it: it is not among the
    marked elements, and its [tc-som-id] attribute is left as it was. *)
Theorem ruled_out_elements_get_no_marker (h : Handler) (v : DomView)
    (attrs : gmap nat jsstring) (includeOffscreen includeDisabled : bool) (el : nat) :
  ruledOut v includeDisabled el ->
  (el ∉ marked v includeOffscreen includeDisabled) /\
  (attrsAfter (updateSom h v attrs includeOffscreen includeDisabled)) !! el = attrs !! el.
Proof.
  intros Hout.
  assert (Hnot : el ∉ marked v includeOffscreen includeDisabled).
  { unfold marked. rewrite list_elem_of_filter.
    intros [Hget _]. rewrite (ruledOut_no_marker v _ _ el Hout) in Hget. discriminate. }
  split; [exact Hnot |].
  unfold updateSom. destruct (negb (pageOpen h)); [reflexivity |].
  cbn [attrsAfter]. unfold scanPage.
  destruct (scan_attrs v includeOffscreen includeDisabled (topLevelInteractive v)
              {| idCounter := 1; scanned := []; somAttr := attrs |}) as [Hkeep _].
  cbn zeta in Hkeep. now apply Hkeep.
Qed.

Lemma ruled_out_elements_get_no_marker_witness :
  (attrsAfter (updateSom Samples2.freshHandler
                 (Samples2.twoButtons (λ el, (el =? 0)%nat) false) ∅ false false))
    !! 0%nat = None.
Proof.
  destruct (ruled_out_elements_get_no_marker Samples2.freshHandler
              (Samples2.twoButtons (λ el, (el =? 0)%nat) false) ∅ false false 0%nat)
    as [_ Hattr].
  - right. right. right. split; reflexivity.
  - rewrite Hattr. reflexivity.
Defined.





End AnnotationMoreFacts.

(** ** More on the score of a candidate *)

Module ScoringMoreFacts.

Import SomHandler ScoringSpec JsFacts ScoringFacts.

Section Bounds.
Variable expected : SomElement.
Variable c : Candidate.

Lemma tagPoints_bound :
  (tagPoints expected c <= 5)%nat /\
  (tagPoints expected c = 5%nat -> cTag c = toLowerCase (tag expected)).
Proof. unfold tagPoints. case_decide; split; try lia; tauto. Qed.

Lemma classPoints_bound :
  (classPoints expected c <= 5)%nat /\
  (classPoints expected c = 5%nat ->
   classTokens (className expected) ⊆ classTokens (cClassName c)).
Proof. unfold classPoints. repeat case_decide; split; try lia; tauto. Qed.

Lemma textPoints_bound :
  (textPoints expected c <= 4)%nat /\
  (textPoints expected c = 4%nat -> trim (cText c) = trim (text expected)).
Proof.
  unfold textPoints. repeat case_decide; try (split; [lia | try tauto; lia]).
  destruct (includes _ _); split; lia.
Qed.

Lemma ariaPoints_bound :
  (ariaPoints expected c <= 2)%nat /\
  (ariaPoints expected c = 2%nat -> trim (cAriaLabel c) = trim (ariaLabel expected)).
Proof. unfold ariaPoints. case_decide; split; try lia; tauto. Qed.

Lemma boxPoints_bound :
  (boxPoints expected c <= 2)%nat /\
  (boxPoints expected c = 2%nat ->
   (widthDiff expected c < 2)%Q /\ (heightDiff expected c < 2)%Q).
Proof. unfold boxPoints. repeat case_decide; split; try lia; tauto. Qed.

End Bounds.

(** X26. A candidate scores at most 18, and 18 only when it has the
    descriptor's tag, all its class tokens, its text, its accessible name
    and, within less than 2px, its width and height. The score does not
    depend on the candidate's place among the duplicates. *)
Theorem score_is_bounded (expected : SomElement) (c : Candidate) :
  (scoreCandidate expected c <= 18)%nat /\
  (scoreCandidate expected c = 18%nat ->
   cTag c = toLowerCase (tag expected) /\
   classTokens (className expected) ⊆ classTokens (cClassName c) /\
   trim (cText c) = trim (text expected) /\
   trim (cAriaLabel c) = trim (ariaLabel expected) /\
   (widthDiff expected c < 2)%Q /\ (heightDiff expected c < 2)%Q) /\
  (forall (n : NodeSnapshot) (i j : nat), nodeScore expected i n = nodeScore expected j n).
Proof.
  rewrite score_parts.
  destruct (tagPoints_bound expected c) as [H1 E1].
  destruct (classPoints_bound expected c) as [H2 E2].
  destruct (textPoints_bound expected c) as [H3 E3].
  destruct (ariaPoints_bound expected c) as [H4 E4].
  destruct (boxPoints_bound expected c) as [H5 E5].
  split; [lia |]. split; [| reflexivity].
  intros Hsum.
  assert (Hall : tagPoints expected c = 5%nat /\ classPoints expected c = 5%nat /\
                 textPoints expected c = 4%nat /\ ariaPoints expected c = 2%nat /\
                 boxPoints expected c = 2%nat) by lia.
  destruct Hall as (T1 & T2 & T3 & T4 & T5).
  destruct (E5 T5) as [Hw Hh].
  repeat split; auto.
Qed.

End ScoringMoreFacts.

(** ** The oracle client *)

Module AiClientFacts.

Import Orchestrator AiClient JsFacts.

Lemma field_app (key : jsstring) (a b : list (jsstring * Json)) :
  field key (a ++ b) =
  match field key a with
  | Some v => Some v
  | None => field key b
  end.
Proof.
  induction a as [| [k v] a IH]; [reflexivity |].
  cbn [app field]. destruct (str_eqb k key); [reflexivity | exact IH].
Qed.

Lemma field_single (key k : jsstring) (v w : Json) :
  field key [(k, v)] = Some w -> k = key /\ v = w.
Proof.
  cbn [field]. destruct (str_eqb k key) eqn:E; [| discriminate].
  intros H. injection H as <-. apply str_eqb_eq in E. now split.
Qed.

(** A check stores the value it was given. *)
Lemma checks_store_the_value (key : string) (check : Json -> Outcome Json) :
  In (key, check) checkedFields ->
  forall value stored, check value = Returns stored -> stored = value.
Proof.
  intros Hin value stored.
  unfold checkedFields in Hin. cbn [In] in Hin.
  repeat (destruct Hin as [Heq | Hin]; [injection Heq as <- <- |]); try contradiction;
    unfold commandArray, ofType, stringArray;
    try (destruct value; try discriminate;
         match goal with
         | |- context [validateEach ?c] => destruct (validateEach c); congruence
         | |- context [forallb ?f ?l] => destruct (forallb f l); congruence
         end);
    match goal with
    | |- context [if ?c then _ else _] => destruct c; congruence
    end.
Qed.

(** Every property of what [copyFields] returns was there before, or was
    copied under one of the rules. *)
Lemma copyFields_origin (data : Json) (rules : list (string * (Json -> Outcome Json))) :
  forall result out,
    copyFields data rules result = Returns out ->
    forall k v,
      field k out = Some v ->
      field k result = Some v \/
      exists key check value,
        In (key, check) rules /\ k = lit key /\
        prop key data = Some value /\ check value = Returns v.
Proof.
  induction rules as [| [key check] rules IH]; intros result out Hrun k v Hk;
    cbn [copyFields] in Hrun.
  - injection Hrun as <-. now left.
  - unfold copyField in Hrun.
    destruct (prop key data) as [value |] eqn:Hprop.
    + destruct (check value) as [stored |] eqn:Hcheck; [| discriminate].
      destruct (IH _ _ Hrun k v Hk) as [Hold | (key' & check' & value' & Hin & Hrest)].
      * rewrite field_app in Hold.
        destruct (field k result) as [x |]; [now left |].
        apply field_single in Hold as [<- <-].
        right. exists key, check, value. repeat split; [now left | | ]; assumption.
      * right. exists key', check', value'. split; [now right | exact Hrest].
    + destruct (IH _ _ Hrun k v Hk) as [Hold | (key' & check' & value' & Hin & Hrest)].
      * now left.
      * right. exists key', check', value'. split; [now right | exact Hrest].
Qed.

(** X27. What [validateAiActionResult] returns holds only properties of the
    payload that it checks, each with the payload's value: the two command
    lists, the three strings and the four flags, the list of extracted
    strings and the confidence. The payload's [requestSomRefresh] and
    [somRefreshReason] are never among them, whatever the oracle sent; and a
    confidence that comes through is a number between 0 and 100. *)
Theorem validation_keeps_checked_fields_only (payload : Json)
    (out : list (jsstring * Json)) :
  validateAiActionResult payload = Returns out ->
  (forall k v,
      field k out = Some v ->
      exists key check,
        In (key, check) checkedFields /\ k = lit key /\
        prop key payload = Some v /\ check v = Returns v) /\
  field (lit "requestSomRefresh") out = None /\
  field (lit "somRefreshReason") out = None /\
  (forall v, field (lit "confidence") out = Some v ->
             exists q, v = JNumber (Fin q) /\ (0 <= q)%Q /\ (q <= 100)%Q).
Proof.
  intros Hrun.
  assert (Horigin : forall k v,
             field k out = Some v ->
             exists key check,
               In (key, check) checkedFields /\ k = lit key /\
               prop key payload = Some v /\ check v = Returns v).
  { intros k v Hk. unfold validateAiActionResult in Hrun.
    assert (Hcopy : copyFields payload checkedFields [] = Returns out)
      by (destruct payload; first [discriminate | exact Hrun]).
    destruct (copyFields_origin payload checkedFields [] out Hcopy k v Hk)
      as [Hnil | (key & check & value & Hin & -> & Hprop & Hcheck)]; [discriminate |].
    pose proof (checks_store_the_value key check Hin value v Hcheck) as ->.
    exists key, check. repeat split; assumption. }
  assert (Hnot : forall name : string,
             (forall key check, In (key, check) checkedFields -> key <> name) ->
             field (lit name) out = None).
  { intros name Hname. destruct (field (lit name) out) as [v |] eqn:Hv; [| reflexivity].
    destruct (Horigin _ _ Hv) as (key & check & Hin & Hkey & _).
    apply lit_inj in Hkey. exfalso. apply (Hname key check Hin). now symmetry. }
  split; [exact Horigin |]. split; [| split].
  - apply Hnot. intros key check Hin. unfold checkedFields in Hin. cbn [In] in Hin.
    repeat (destruct Hin as [Heq | Hin]; [injection Heq as <- _; discriminate |]).
    contradiction.
  - apply Hnot. intros key check Hin. unfold checkedFields in Hin. cbn [In] in Hin.
    repeat (destruct Hin as [Heq | Hin]; [injection Heq as <- _; discriminate |]).
    contradiction.
  - intros v Hv.
    destruct (Horigin _ _ Hv) as (key & check & Hin & Hkey & _ & Hcheck).
    apply lit_inj in Hkey. subst key.
    unfold checkedFields in Hin. cbn [In] in Hin.
    repeat (destruct Hin as [Heq | Hin];
            [apply pair_equal_spec in Heq as [Hk Hc]; try discriminate Hk |]);
      [| contradiction].
    subst check. unfold ofType in Hcheck.
    destruct (isConfidence v) eqn:Hconf; [| discriminate].
    destruct v as [| | [| | q] | | |]; try discriminate.
    apply andb_true_iff in Hconf as [H0 H100].
    exists q. split; [reflexivity |]. split; now apply Qle_bool_iff.
Qed.

Lemma validation_keeps_checked_fields_only_witness :
  field (lit "requestSomRefresh")
        [(lit "stepCompleted", JBool false); (lit "confidence", JNumber (Fin 40))] = None.
Proof.
  destruct (validation_keeps_checked_fields_only Samples13.refreshPayload
              [(lit "stepCompleted", JBool false); (lit "confidence", JNumber (Fin 40))]
              eq_refl) as (_ & Hnone & _).
  exact Hnone.
Defined.

Lemma picks_cons (data : Json) (key : string) (check : Json -> Outcome Json)
    (rules : list (string * (Json -> Outcome Json))) :
  picks data ((key, check) :: rules) =
  match prop key data with
  | Some value => (lit key, value) :: picks data rules
  | None => picks data rules
  end.
Proof. unfold picks. simpl. now destruct (prop key data). Qed.

(** What [copyFields] returns: the properties picked, after what was
    there; and every one of them passed its check. *)
Lemma copyFields_picks (data : Json) (rules : list (string * (Json -> Outcome Json))) :
  (forall key check, In (key, check) rules ->
                     forall value stored, check value = Returns stored -> stored = value) ->
  forall result out,
    copyFields data rules result = Returns out ->
    out = result ++ picks data rules /\
    forall key check value,
      In (key, check) rules -> prop key data = Some value -> check value = Returns value.
Proof.
  induction rules as [| [key check] rules IH]; intros Hstore result out Hrun;
    cbn [copyFields] in Hrun.
  - injection Hrun as <-. split; [| intros ? ? ? []].
    unfold picks. simpl. now rewrite app_nil_r.
  - assert (Hstore' : forall key check, In (key, check) rules ->
                        forall value stored, check value = Returns stored -> stored = value)
      by (intros k c Hin; apply (Hstore k c); now right).
    rewrite picks_cons. unfold copyField in Hrun.
    destruct (prop key data) as [value |] eqn:Hprop.
    + destruct (check value) as [stored |] eqn:Hcheck; [| discriminate].
      pose proof (Hstore key check (or_introl eq_refl) value stored Hcheck) as ->.
      destruct (IH Hstore' _ _ Hrun) as [-> Hpass].
      split; [now rewrite <- app_assoc |].
      intros k c v [Heq | Hin] Hv.
      * injection Heq as <- <-. congruence.
      * eapply Hpass; eassumption.
    + destruct (IH Hstore' _ _ Hrun) as [-> Hpass].
      split; [reflexivity |].
      intros k c v [Heq | Hin] Hv.
      * injection Heq as <- <-. congruence.
      * eapply Hpass; eassumption.
Qed.

Lemma field_picks_absent (data : Json) (rules : list (string * (Json -> Outcome Json)))
    (k : jsstring) :
  k ∉ map (λ rule, lit (fst rule)) rules -> field k (picks data rules) = None.
Proof.
  induction rules as [| [key check] rules IH]; intros Hk; [reflexivity |].
  rewrite picks_cons. cbn [map fst] in Hk.
  apply not_elem_of_cons in Hk as [Hne Hk].
  destruct (prop key data).
  - cbn [field]. destruct (str_eqb (lit key) k) eqn:E.
    + apply str_eqb_eq in E. congruence.
    + now apply IH.
  - now apply IH.
Qed.

Lemma field_picks (data : Json) (rules : list (string * (Json -> Outcome Json))) :
  NoDup (map (λ rule, lit (fst rule)) rules) ->
  forall key check, In (key, check) rules ->
                    field (lit key) (picks data rules) = prop key data.
Proof.
  induction rules as [| [key0 check0] rules IH]; intros Hnd key check Hin; [destruct Hin |].
  cbn [map fst] in Hnd. apply NoDup_cons in Hnd as [Hfresh Hnd].
  rewrite picks_cons. destruct Hin as [Heq | Hin].
  - injection Heq as -> ->.
    destruct (prop key data) as [value |] eqn:Hprop.
    + cbn [field]. unfold str_eqb. now rewrite bool_decide_eq_true_2.
    + now apply field_picks_absent.
  - assert (Hne : lit key0 <> lit key).
    { intros Heq. apply Hfresh. rewrite Heq.
      apply list_elem_of_fmap. exists (key, check). split; [reflexivity |].
      now apply list_elem_of_In. }
    destruct (prop key0 data).
    + cbn [field]. unfold str_eqb. rewrite bool_decide_eq_false_2 by exact Hne.
      eapply IH; eassumption.
    + eapply IH; eassumption.
Qed.

(** Copying from a payload in which the rules find what they find in
    [data]. *)
Lemma copyFields_again (data data' : Json)
    (rules : list (string * (Json -> Outcome Json))) :
  (forall key check, In (key, check) rules -> prop key data' = prop key data) ->
  (forall key check value,
      In (key, check) rules -> prop key data = Some value -> check value = Returns value) ->
  forall result, copyFields data' rules result = Returns (result ++ picks data rules).
Proof.
  induction rules as [| [key check] rules IH]; intros Hsame Hpass result.
  - unfold picks. simpl. now rewrite app_nil_r.
  - cbn [copyFields]. unfold copyField. rewrite picks_cons.
    rewrite (Hsame key check (or_introl eq_refl)).
    destruct (prop key data) as [value |] eqn:Hprop.
    + rewrite (Hpass key check value (or_introl eq_refl) Hprop).
      rewrite IH.
      * now rewrite <- app_assoc.
      * intros k c Hin. apply (Hsame k c). now right.
      * intros k c v Hin. apply (Hpass k c v). now right.
    + apply IH.
      * intros k c Hin. apply (Hsame k c). now right.
      * intros k c v Hin. apply (Hpass k c v). now right.
Qed.

Lemma checkedFields_distinct : NoDup (map (λ rule, lit (fst rule)) checkedFields).
Proof. apply (bool_decide_unpack _). vm_compute. exact I. Qed.

(** X28. Validation is idempotent: a result that [validateAiActionResult]
    returns passes validation as it is, and comes back unchanged. *)
Theorem validation_is_idempotent (payload : Json) (out : list (jsstring * Json)) :
  validateAiActionResult payload = Returns out ->
  validateAiActionResult (JObject out) = Returns out.
Proof.
  intros Hrun. unfold validateAiActionResult in *.
  assert (Hcopy : copyFields payload checkedFields [] = Returns out)
    by (destruct payload; first [discriminate | exact Hrun]).
  destruct (copyFields_picks payload checkedFields checks_store_the_value [] out Hcopy)
    as [Hout Hpass].
  cbn [app] in Hout. subst out.
  apply (copyFields_again payload (JObject (picks payload checkedFields)) checkedFields).
  - intros key check Hin. cbn [prop].
    apply (field_picks payload checkedFields checkedFields_distinct key check Hin).
  - exact Hpass.
Qed.

Lemma validation_is_idempotent_witness :
  validateAiActionResult
    (JObject [(lit "stepCompleted", JBool false); (lit "confidence", JNumber (Fin 40))]) =
  Returns [(lit "stepCompleted", JBool false); (lit "confidence", JNumber (Fin 40))].
Proof.
  apply (validation_is_idempotent Samples13.refreshPayload). reflexivity.
Defined.

Lemma doubling_S (delayMs : N) (k : nat) :
  doubling delayMs (S k) = delayMs :: doubling (delayMs * 2) k.
Proof.
  unfold doubling. change (seq 0 (S k)) with (0%nat :: seq 1 k).
  cbn [map]. f_equal; [cbn; lia |].
  rewrite <- (fmap_S_seq 0 k). rewrite <- list_fmap_compose.
  apply list_fmap_ext. intros _ i _. cbn [compose].
  rewrite Nat2N.inj_succ, N.pow_succ_r'. lia.
Qed.

(** X29. [withRetry] calls [action] at most [retries + 1] times. It goes on
    only after an error that can be retried (no HTTP response, or a status of
    500 and above), pausing before each further call twice as long as before
    the last; it settles with the first success, the first error that cannot
    be retried, or the error of the last call allowed. *)
Theorem retries_are_bounded {A} (answers : list (A + Rejection)) :
  forall (retries : nat) (delayMs : N),
    (retries < length answers)%nat ->
    exists (r : Retried A) (errors : list Rejection),
      withRetry answers retries delayMs = Some r /\
      answers = map inr errors ++ settled r :: unused r /\
      Forall (λ e, isRetryableError e = true) errors /\
      (length errors <= retries)%nat /\
      pauses r = doubling delayMs (length errors) /\
      match settled r with
      | inl _ => True
      | inr e => length errors = retries \/ isRetryableError e = false
      end.
Proof.
  induction answers as [| a answers IH]; intros retries delayMs Hlen;
    [cbn in Hlen; lia |].
  destruct a as [a | error].
  - exists {| settled := inl a; pauses := []; unused := answers |}, [].
    cbn. repeat split; [constructor | lia].
  - destruct retries as [| retries].
    + exists {| settled := inr error; pauses := []; unused := answers |}, [].
      cbn. repeat split; [constructor | lia | now left].
    + cbn [withRetry]. destruct (isRetryableError error) eqn:Hretry; cbn [negb].
      * cbn [length] in Hlen.
        destruct (IH retries (delayMs * 2) ltac:(lia))
          as (r & errors & Hrun & Hans & Hall & Hle & Hp & Hlast).
        rewrite Hrun.
        exists {| settled := settled r; pauses := delayMs :: pauses r;
                  unused := unused r |}, (error :: errors).
        cbn [settled pauses unused map app length].
        split; [reflexivity |]. split; [now rewrite Hans |].
        split; [now constructor |]. split; [lia |].
        split; [now rewrite doubling_S, Hp |].
        destruct (settled r); [exact I |].
        destruct Hlast as [Heq | Hno]; [left; lia | now right].
      * exists {| settled := inr error; pauses := []; unused := answers |}, [].
        cbn. repeat split; [constructor | lia | now right].
Qed.

Lemma retries_are_bounded_witness :
  exists (r : Retried jsstring) (errors : list Rejection),
    withRetry [inr (Other (lit "socket hang up"));
               inr (WithResponse (Some 503) (lit "Service Unavailable"));
               inr (WithResponse (Some 401) (lit "Unauthorized"));
               inl (lit "{}")]
              DEFAULT_RETRIES DEFAULT_RETRY_DELAY_MS = Some r /\
    [inr (Other (lit "socket hang up"));
     inr (WithResponse (Some 503) (lit "Service Unavailable"));
     inr (WithResponse (Some 401) (lit "Unauthorized"));
     inl (lit "{}")] = map inr errors ++ settled r :: unused r /\
    Forall (λ e, isRetryableError e = true) errors /\
    (length errors <= DEFAULT_RETRIES)%nat /\
    pauses r = doubling DEFAULT_RETRY_DELAY_MS (length errors) /\
    match settled r with
    | inl _ => True
    | inr e => length errors = DEFAULT_RETRIES \/ isRetryableError e = false
    end.
Proof.
  apply (retries_are_bounded
           [inr (Other (lit "socket hang up"));
            inr (WithResponse (Some 503) (lit "Service Unavailable"));
            inr (WithResponse (Some 401) (lit "Unauthorized"));
            inl (lit "{}")] DEFAULT_RETRIES DEFAULT_RETRY_DELAY_MS).
  cbn. unfold DEFAULT_RETRIES. lia.
Defined.

End AiClientFacts.

(** ** What the oracle's answer loses on its way through the client *)

Module OracleFacts.

Import Orchestrator OrchestratorSpec ActSpec WaitSpec AiClient ClientSpec JsFacts
       OrchestratorFacts AiClientFacts.

(** A property of the validated result was copied from the payload under
    one of the checked names. *)
Lemma validated_property (payload : Json) (out : list (jsstring * Json))
    (k : jsstring) (v : Json) :
  validateAiActionResult payload = Returns out ->
  field k out = Some v ->
  exists key check value,
    In (key, check) checkedFields /\ k = lit key /\ prop key payload = Some value.
Proof.
  intros Hrun Hk. unfold validateAiActionResult in Hrun.
  assert (Hcopy : copyFields payload checkedFields [] = Returns out)
    by (destruct payload; first [discriminate | exact Hrun]).
  destruct (copyFields_origin payload checkedFields [] out Hcopy k v Hk)
    as [Hnil | (key & check & value & Hin & -> & Hprop & _)]; [discriminate |].
  now exists key, check, value.
Qed.

(** A name that is not among the checked ones is not in the result. *)
Lemma unchecked_is_dropped (payload : Json) (out : list (jsstring * Json)) (name : string) :
  validateAiActionResult payload = Returns out ->
  name ∉ map fst checkedFields ->
  field (lit name) out = None.
Proof.
  intros Hrun Hname. destruct (field (lit name) out) as [v |] eqn:Hv; [| reflexivity].
  destruct (validated_property payload out _ v Hrun Hv) as (key & check & value & Hin & Hkey & _).
  apply lit_inj in Hkey. subst key. exfalso. apply Hname.
  apply list_elem_of_fmap. exists (name, check). split; [reflexivity |].
  now apply list_elem_of_In.
Qed.

Lemma validated_without_refresh (payload : Json) (r : AiActionResult) :
  validated payload = Returns r ->
  requestSomRefresh r = None /\ somRefreshReason r = None.
Proof.
  unfold validated. destruct (validateAiActionResult payload) as [out |] eqn:Hrun;
    [| discriminate].
  intros Heq. injection Heq as <-. unfold asAiActionResult. cbn [requestSomRefresh somRefreshReason].
  rewrite (unchecked_is_dropped payload out "requestSomRefresh" Hrun),
          (unchecked_is_dropped payload out "somRefreshReason" Hrun).
  - split; reflexivity.
  - apply (bool_decide_unpack _). vm_compute. exact I.
  - apply (bool_decide_unpack _). vm_compute. exact I.
Qed.

(** What [callAiAction] returns went through the validation. *)
Lemma callAiAction_validated (JSON_parse : jsstring -> Outcome Json)
    (answers : list (jsstring + Rejection)) (r : AiActionResult) :
  callAiAction JSON_parse answers = Some (Returns r) ->
  exists payload, validated payload = Returns r.
Proof.
  unfold callAiAction.
  destruct (withRetry _ _ _) as [got |]; [| discriminate].
  destruct (settled got) as [raw | error]; [| discriminate].
  destruct (JSON_parse raw) as [parsed |]; [| discriminate].
  intros Heq. injection Heq as Heq. now exists parsed.
Qed.

Section FirstAnswer.
Variable requirement : jsstring.
Variable waitRetryLimit : N.
Variable confidence_threshold : option Q.
Variable expectFn : option ExpectFn.

(** A round on an answer that does not ask for a refresh ends [verify()]:
    with a verdict or an error, and after one oracle call. *)
Lemma verifyRound_settles (r : AiActionResult) (waitCount_ : N) (w : World) :
  settles w 1 ->
  truthy_flag (requestSomRefresh r) = false ->
  match verifyRound requirement waitRetryLimit confidence_threshold expectFn
                    (Returns r) waitCount_ w with
  | Val (Continue _) _ | Stuck => False
  | Val (Return _) w' | Exc _ w' =>
      exists t, w' = advanced w 1 (quietRound CallAiVerify ++ t) /\ oracleCalls t = 0%nat
  end.
Proof.
  intros Hs Hr. unfold verifyRound.
  rewrite (bind_val _ _ _ _ _ (stabilize_at_once _ waitCount_ waitRetryLimit w Hs)).
  match goal with
  | |- context [tryCatch ?m ?h] =>
      rewrite (bind_val (tryCatch m h) _
                 (advanced w 1 [CallWaitForPageStability; CallPrepare])
                 (advanced w 1 (quietRound CallAiVerify)) (inl r))
  end.
  2: { unfold tryCatch, Orchestrator.callAiAction, bind, log, ret.
       now rewrite advanced_advanced_logged. }
  rewrite Hr.
  assert (Hnone : exists t, advanced w 1 (quietRound CallAiVerify) =
                            advanced w 1 (quietRound CallAiVerify ++ t) /\
                            oracleCalls t = 0%nat)
    by (exists []; now rewrite app_nil_r).
  destruct (extractVerification r) as [v | e]; [| exact Hnone].
  destruct (truthy_flag (stepCompleted r) || vSuccess v); [exact Hnone |].
  destruct expectFn as [ef |]; [| exact Hnone].
  unfold expectThat, bind, log, ret, throw, logged, advanced.
  destruct ef, (Qle_bool _ _), (vSuccess v);
    cbn [trace prepareS updateSomS executeS]; rewrite <- ?app_assoc;
    eexists; (split; [reflexivity | reflexivity]).
Qed.

End FirstAnswer.

(** C9. The claim fails on the code, by a slip of the client: the prompts
    ask the oracle for [requestSomRefresh], and [verify()] tests it, but
    [validateAiActionResult] copies neither it nor [somRefreshReason] into
    what [callAiAction] returns. So, whatever the oracle sent, the answer
    [verify()] gets asks for no refresh, and the first answer settles the
    call after one oracle call: no round trip is repeated, the answers that
    would follow are never asked for. An answer without a verdict, as one
    that only asks for the refresh, ends [verify()] in the error about the
    missing [verificationSuccess]. The page is taken to settle at once. *)
Theorem refresh_request_is_lost (JSON_parse : jsstring -> Outcome Json)
    (answers : list (jsstring + Rejection)) (r : AiActionResult)
    (requirement : jsstring) (waitRetryLimit : N) (confidence_threshold : option Q)
    (expectFn : option ExpectFn) (oracle : list (Outcome AiActionResult)) (w : World) :
  callAiAction JSON_parse answers = Some (Returns r) ->
  settles w 1 ->
  requestSomRefresh r = None /\
  verify requirement waitRetryLimit confidence_threshold expectFn (Returns r :: oracle) w =
    verify requirement waitRetryLimit confidence_threshold expectFn [Returns r] w /\
  match verify requirement waitRetryLimit confidence_threshold expectFn [Returns r] w with
  | Val _ w' | Exc _ w' => oracleCalls (trace w') = S (oracleCalls (trace w))
  | Stuck => False
  end /\
  (verificationSuccess r = None ->
   verify requirement waitRetryLimit confidence_threshold expectFn (Returns r :: oracle) w =
     Exc (Error (lit "LLM response missing verificationSuccess field."))
         (advanced w 1 (quietRound CallAiVerify))).
Proof.
  intros Hcall Hs.
  destruct (callAiAction_validated JSON_parse answers r Hcall) as (payload & Hvalid).
  destruct (validated_without_refresh payload r Hvalid) as [Hrefresh _].
  assert (Hr : truthy_flag (requestSomRefresh r) = false) by now rewrite Hrefresh.
  pose proof (verifyRound_settles requirement waitRetryLimit confidence_threshold expectFn
                r 0 w Hs Hr) as Hround.
  split; [exact Hrefresh |]. unfold verify. cbn [verifyLoop].
  split; [| split].
  - unfold bind.
    destruct (verifyRound _ _ _ _ _ _ _) as [[st | v] w' | e w' |]; try reflexivity;
      contradiction.
  - unfold bind at 1.
    destruct (verifyRound _ _ _ _ _ _ _) as [[st | v] w' | e w' |]; try contradiction;
      destruct Hround as (t & -> & Ht); unfold ret, advanced; cbn [trace];
      rewrite !oracleCalls_app, Ht;
      change (oracleCalls (quietRound CallAiVerify)) with 1%nat; lia.
  - intros Hnone.
    destruct (VerifyFacts.verifyRound_answered requirement waitRetryLimit confidence_threshold expectFn
                r 0 w Hs) as (k & Hrun & _ & Hk & _).
    unfold bind at 1.
    rewrite Hrun, (Hk Hr (Error (lit "LLM response missing verificationSuccess field."))).
    + reflexivity.
    + unfold extractVerification. now rewrite Hnone.
Qed.

Lemma refresh_request_is_lost_witness :
  callAiAction Samples13.parseSample [inl Samples13.refreshOnlyText] =
    Some (Returns emptyResult) /\
  verify (lit "cart is empty") 2 None (Some ThrowingExpect)
         [Returns emptyResult; Returns (Samples5.verdict true 90)] (Samples5.quietWorld 2) =
    Exc (Error (lit "LLM response missing verificationSuccess field."))
        (advanced (Samples5.quietWorld 2) 1 (quietRound CallAiVerify)).
Proof.
  split; [reflexivity |].
  destruct (refresh_request_is_lost Samples13.parseSample [inl Samples13.refreshOnlyText]
              emptyResult (lit "cart is empty") 2 None (Some ThrowingExpect)
              [Returns (Samples5.verdict true 90)] (Samples5.quietWorld 2)
              eq_refl eq_refl) as (_ & _ & _ & Hthrown).
  exact (Hthrown eq_refl).
Defined.

Section ImplicitWaits.
Variable objective : jsstring.
Variable waitRetryLimit : N.


End ImplicitWaits.





End OracleFacts.

(** ** Rounds of [act()] that ask for a retry after the pre-commands *)

Module RetryFacts.

Import SomHandler Orchestrator OrchestratorSpec ActSpec WaitSpec PreSpec RetrySpec JsFacts
       OrchestratorFacts ActRunFacts PreFacts.

Section Retries.
Variable objective : jsstring.
Variable waitRetryLimit : N.

(** One such round: the pre-commands run, the map is refreshed after them,
    and the retry is granted or refused. *)
Lemma actRound_retry_after_pre (x : RetryRound) (st : ActState) (w : World)
    (ex : list (Outcome SemanticCommandResult)) (us : list (option Thrown)) :
  retriesAfterPre x ->
  settles w 1 ->
  executeS w = roundScript x ++ ex ->
  updateSomS w = roundRefreshes x ++ us ->
  actRound objective waitRetryLimit (Returns (retryAnswer x)) st w =
  if waitRetryLimit <=? preActionRetryCount st
  then Exc (Error (preActionLimitMessage waitRetryLimit))
           (after w (drop 1 (prepareS w)) us ex
                  (roundCalls waitRetryLimit (waitCount st) x))
  else Val (Continue {| waitCount := 0;
                        preActionRetryCount := preActionRetryCount st + 1;
                        aggregateResults :=
                          aggregateResults st ++ preResults (preOf x) (retryResults x) |})
           (after w (drop 1 (prepareS w)) us ex
                  (roundCalls waitRetryLimit (waitCount st) x)).
Proof.
  intros ((Hw & Hc & Hr) & Hn & Hlen & Hok) Hs He Hu. unfold actRound.
  rewrite (bind_val _ _ _ _ _ (stabilize_at_once _ (waitCount st) waitRetryLimit w Hs)).
  unfold Orchestrator.callAiAction.
  unfold bind at 1. unfold bind at 1. unfold log at 1. unfold ret at 1.
  rewrite advanced_advanced_logged.
  cbn [app]. fold (quietRound (CallAiAct (waitCount st) waitRetryLimit)).
  rewrite Hw, Hc, Hr, Hn.
  unfold roundCalls, roundRefreshes, roundScript, preOf in *.
  destruct (default [] (preCommands (retryAnswer x))) as [| c pre] eqn:Hpre.
  - change ((0 <? length (@nil SomCommand))%nat) with false. cbv iota.
    unfold bind at 1. unfold ret at 1. cbv iota beta.
    destruct (retryResults x); [| discriminate].
    cbn [map app] in *. cbn [preResults].
    rewrite !app_nil_r.
    assert (Hworld : advanced w 1 (quietRound (CallAiAct (waitCount st) waitRetryLimit)) =
                     after w (drop 1 (prepareS w)) us ex
                           (quietRound (CallAiAct (waitCount st) waitRetryLimit)))
      by (unfold advanced, after; now rewrite He, Hu).
    rewrite Hworld.
    destruct (waitRetryLimit <=? preActionRetryCount st); reflexivity.
  - change ((0 <? length (c :: pre))%nat) with true. cbv iota.
    unfold bind at 1. unfold bind at 1.
    rewrite <- (app_nil_r (c :: pre)) at 1.
    rewrite (runPreCommands_succeed objective (c :: pre) [] (aggregateResults st)
               (retryResults x)
               (advanced w 1 (quietRound (CallAiAct (waitCount st) waitRetryLimit)))
               ex Hlen Hok He).
    cbn [runPreCommands]. unfold ret at 1.
    unfold bind at 1. unfold waitForPageStability at 1, log at 1.
    unfold bind at 1.
    rewrite (refresh_goes_through _ us); [| exact Hu].
    unfold ret at 1. cbv iota beta.
    assert (Hworld :
              after (logged (after (advanced w 1 (quietRound (CallAiAct (waitCount st)
                                                                         waitRetryLimit)))
                                   (prepareS (advanced w 1 (quietRound
                                                (CallAiAct (waitCount st) waitRetryLimit))))
                                   (updateSomS (advanced w 1 (quietRound
                                                (CallAiAct (waitCount st) waitRetryLimit))))
                                   ex (map preCall (c :: pre)))
                            CallWaitForPageStability)
                    (prepareS (logged (after (advanced w 1 (quietRound (CallAiAct (waitCount st)
                                                                         waitRetryLimit)))
                                   (prepareS (advanced w 1 (quietRound
                                                (CallAiAct (waitCount st) waitRetryLimit))))
                                   (updateSomS (advanced w 1 (quietRound
                                                (CallAiAct (waitCount st) waitRetryLimit))))
                                   ex (map preCall (c :: pre)))
                            CallWaitForPageStability))
                    us
                    (executeS (logged (after (advanced w 1 (quietRound (CallAiAct (waitCount st)
                                                                         waitRetryLimit)))
                                   (prepareS (advanced w 1 (quietRound
                                                (CallAiAct (waitCount st) waitRetryLimit))))
                                   (updateSomS (advanced w 1 (quietRound
                                                (CallAiAct (waitCount st) waitRetryLimit))))
                                   ex (map preCall (c :: pre)))
                            CallWaitForPageStability))
                    [CallUpdateSom] =
              after w (drop 1 (prepareS w)) us ex
                    (quietRound (CallAiAct (waitCount st) waitRetryLimit) ++
                     map preCall (c :: pre) ++ [CallWaitForPageStability; CallUpdateSom])).
    { unfold after, logged, advanced. cbn [trace prepareS updateSomS executeS].
      now rewrite <- !app_assoc. }
    rewrite Hworld.
    destruct (waitRetryLimit <=? preActionRetryCount st); reflexivity.
Qed.

Lemma settles_after (w : World) (n : nat) (us : list (option Thrown))
    (ex : list (Outcome SemanticCommandResult)) (calls : list Call) :
  settles w (S n) ->
  settles w 1 /\ settles (after w (drop 1 (prepareS w)) us ex calls) n.
Proof.
  intros Hs. destruct (settles_advanced w n [] Hs) as [Hs1 Hs']. split; [exact Hs1 |].
  exact Hs'.
Qed.

(** Such rounds in a row, up to and past the limit. *)
Lemma act_retries_out (n : nat) :
  forall (st : ActState) (rounds : list RetryRound)
         (rest : list (Outcome AiActionResult)) (w : World)
         (ex : list (Outcome SemanticCommandResult)) (us : list (option Thrown)),
    length rounds = S n ->
    Forall retriesAfterPre rounds ->
    preActionRetryCount st + N.of_nat n = waitRetryLimit ->
    settles w (S n) ->
    executeS w = flat_map roundScript rounds ++ ex ->
    updateSomS w = flat_map roundRefreshes rounds ++ us ->
    actLoop objective waitRetryLimit
            (map (λ x, Returns (retryAnswer x)) rounds ++ rest) st w =
    Exc (Error (preActionLimitMessage waitRetryLimit))
        (after w (drop (S n) (prepareS w)) us ex
               (retryCalls waitRetryLimit (waitCount st) rounds)).
Proof.
  induction n as [| n IH]; intros st rounds rest w ex us Hlen Hall Hcount Hs He Hu.
  - destruct rounds as [| x [| y rounds]]; try discriminate.
    apply Forall_cons in Hall as [Hx _].
    cbn [flat_map] in He, Hu. rewrite app_nil_r in He, Hu.
    cbn [map app actLoop retryCalls]. unfold bind at 1.
    rewrite (actRound_retry_after_pre x st w ex us Hx Hs He Hu).
    replace (waitRetryLimit <=? preActionRetryCount st) with true
      by (symmetry; apply N.leb_le; lia).
    now rewrite app_nil_r.
  - destruct rounds as [| x rounds]; [discriminate |].
    injection Hlen as Hlen.
    apply Forall_cons in Hall as [Hx Hall].
    cbn [flat_map] in He, Hu. rewrite <- app_assoc in He, Hu.
    destruct (settles_after w (S n) (flat_map roundRefreshes rounds ++ us)
                (flat_map roundScript rounds ++ ex)
                (roundCalls waitRetryLimit (waitCount st) x) Hs) as [Hs1 Hs'].
    cbn [map app actLoop retryCalls]. unfold bind at 1.
    rewrite (actRound_retry_after_pre x st w _ _ Hx Hs1 He Hu).
    replace (waitRetryLimit <=? preActionRetryCount st) with false
      by (symmetry; apply N.leb_gt; lia).
    rewrite (IH _ rounds rest _ ex us Hlen Hall); [| cbn; lia | exact Hs' | reflexivity ..].
    cbn [waitCount]. rewrite after_after. f_equal.
    unfold after. cbn [prepareS]. now rewrite drop_drop.
Qed.

Lemma retryCalls_oracle (rounds : list RetryRound) :
  forall waitCount_, oracleCalls (retryCalls waitRetryLimit waitCount_ rounds) = length rounds.
Proof.
  induction rounds as [| x rounds IH]; intros waitCount_; [reflexivity |].
  cbn [retryCalls length]. unfold roundCalls.
  rewrite !oracleCalls_app, IH.
  assert (Hpre : forall pre, oracleCalls (map preCall pre) = 0%nat).
  { induction pre as [| c pre IHp]; [reflexivity |].
    cbn [map]. unfold preCall at 1, timedWait. destruct (isWaitFor c); exact IHp. }
  rewrite Hpre. destruct (preOf x); reflexivity.
Qed.

Lemma retryCalls_dispatched (rounds : list RetryRound) :
  forall waitCount_,
    dispatched (retryCalls waitRetryLimit waitCount_ rounds) =
    flat_map (λ x, filter (λ c, isWaitFor c = false) (preOf x)) rounds.
Proof.
  induction rounds as [| x rounds IH]; intros waitCount_; [reflexivity |].
  cbn [retryCalls flat_map]. unfold roundCalls.
  rewrite !dispatched_app, IH, dispatched_preCalls. cbn [quietRound].
  change (dispatched [CallWaitForPageStability; CallPrepare;
                      CallAiAct waitCount_ waitRetryLimit]) with (@nil SomCommand).
  destruct (preOf x); cbn [app filter]; [reflexivity |].
  change (dispatched [CallWaitForPageStability; CallUpdateSom]) with (@nil SomCommand).
  now rewrite app_nil_r.
Qed.

End Retries.

(** X8. Retries after pre-commands have a budget of their own. An answer
    that sets [needsRetryAfterPreActions] has its pre-commands run (the map
    is refreshed after them) and then has the oracle asked again, with the
    retry counter raised by one and the wait counter set back to 0, whatever
    it stood at; its [commandsToRun] are never given to the executor. With a
    limit of [L] and the retry counter at [L - n], the [n + 1]-th such answer
    in a row makes [act()] throw an error that quotes the limit, after its
    pre-commands were run. (The pre-commands succeed, their refreshes go
    through, and the page settles at once in each round.) *)
Theorem pre_action_retries_are_bounded (objective : jsstring) (waitRetryLimit : N)
    (n : nat) (st : ActState) (rounds : list RetryRound)
    (rest : list (Outcome AiActionResult)) (w : World)
    (ex : list (Outcome SemanticCommandResult)) (us : list (option Thrown)) :
  length rounds = S n ->
  Forall retriesAfterPre rounds ->
  preActionRetryCount st + N.of_nat n = waitRetryLimit ->
  settles w (S n) ->
  executeS w = flat_map roundScript rounds ++ ex ->
  updateSomS w = flat_map roundRefreshes rounds ++ us ->
  let calls := retryCalls waitRetryLimit (waitCount st) rounds in
  actLoop objective waitRetryLimit (map (λ x, Returns (retryAnswer x)) rounds ++ rest) st w =
    Exc (Error (preActionLimitMessage waitRetryLimit))
        (after w (drop (S n) (prepareS w)) us ex calls) /\
  includes (preActionLimitMessage waitRetryLimit) (decimal waitRetryLimit) = true /\
  oracleCalls calls = S n /\
  dispatched calls = flat_map (λ x, filter (λ c, isWaitFor c = false) (preOf x)) rounds.
Proof.
  intros Hlen Hall Hcount Hs He Hu. cbv zeta. split; [| split; [| split]].
  - now apply act_retries_out.
  - unfold preActionLimitMessage. apply includes_at.
  - now rewrite retryCalls_oracle.
  - apply retryCalls_dispatched.
Qed.

Lemma pre_action_retries_are_bounded_witness :
  actLoop (lit "open the cart") 1
          (map (λ x, Returns (retryAnswer x)) [Samples14.retryWithPre; Samples14.retryWithout]
           ++ [])
          {| waitCount := 1; preActionRetryCount := 0; aggregateResults := [] |}
          (world [None; None] [None] [Returns Samples7.clicked]) =
  Exc (Error (lit "LLM requested retry after pre-actions beyond max attempts (1)."))
      (after (world [None; None] [None] [Returns Samples7.clicked]) [] [] []
             (quietRound (CallAiAct 1 1) ++
              [CallWaitForTimeout (Fin 5000); CallExecuteSomCommand Samples7.click1;
               CallWaitForPageStability; CallUpdateSom] ++
              quietRound (CallAiAct 0 1))).
Proof.
  assert (Hall : Forall retriesAfterPre [Samples14.retryWithPre; Samples14.retryWithout])
    by repeat constructor.
  destruct (pre_action_retries_are_bounded (lit "open the cart") 1 1
              {| waitCount := 1; preActionRetryCount := 0; aggregateResults := [] |}
              [Samples14.retryWithPre; Samples14.retryWithout] []
              (world [None; None] [None] [Returns Samples7.clicked]) [] []
              eq_refl Hall eq_refl eq_refl eq_refl eq_refl)
    as [Hrun _].
  exact Hrun.
Defined.

End RetryFacts.

(** ** The guard around [runCommand], case by case *)

Module GuardFacts.

Import SomHandler Orchestrator ActSpec Executor GuardSpec AiClient JsFacts.

(** X21. [executeSomCommand] rejects only to have the round done again, and
    does so whenever [runCommand] rejects with the request for a
    re-annotation, which it throws on as it is, or with an error that reads
    like a navigation interruption, for which it throws a
    [NavigationInProgressError] with the same message. Every other error of
    [runCommand], and a timer that fires first, comes back as a failure
    result with one failed attempt that names the action and carries the
    message; a result of [runCommand] comes back as it is. *)
Theorem executor_rejects_only_for_retry (command : SomCommand) (timeoutMs : jsnum) :
  let settle := executeSomCommandOutcome command timeoutMs in
  let failure := λ message, failedResult (actionName (action command)) message in
  settle None =
    Returns (failure (lit "Command timed out after " ++ numberToString timeoutMs ++
                      lit "ms")) /\
  (forall result, settle (Some (Returns result)) = Returns result) /\
  (forall m, settle (Some (Throws (SomReannotationRequiredError m))) =
             Throws (SomReannotationRequiredError m)) /\
  (forall e, (forall m, e <> SomReannotationRequiredError m) ->
             isNavigationError e = true ->
             settle (Some (Throws e)) =
             Throws (NavigationInProgressError (thrownMessage e))) /\
  (forall e, ~ rejectsFor e ->
             settle (Some (Throws e)) = Returns (failure (thrownMessage e))) /\
  (forall ran e, settle ran = Throws e ->
                 asksForRetry e /\
                 exists e', ran = Some (Throws e') /\ rejectsFor e' /\
                            thrownMessage e = thrownMessage e').
Proof.
  cbv zeta. unfold executeSomCommandOutcome, rejectsFor.
  split; [reflexivity |]. split; [reflexivity |]. split; [reflexivity |].
  split; [| split].
  - intros e Hclass Hnav. rewrite Hnav.
    destruct e as [m | m | m | m]; try reflexivity. now destruct (Hclass m).
  - intros e Hno.
    destruct e as [m | m | m | m];
      try (destruct (isNavigationError _) eqn:Hnav; [exfalso; apply Hno; now right |];
           reflexivity).
    exfalso. apply Hno. left. now exists m.
  - intros ran e Hrun.
    destruct ran as [[result | e'] |]; try discriminate.
    destruct e' as [m | m | m | m];
      try (destruct (isNavigationError _) eqn:Hnav; [| discriminate];
           injection Hrun as <-;
           split; [right; left; eexists; reflexivity |];
           eexists; split; [reflexivity |]; split; [now right | reflexivity]).
    injection Hrun as <-. split; [left; eexists; reflexivity |].
    eexists. split; [reflexivity |]. split; [left; eexists; reflexivity | reflexivity].
Qed.

Lemma executor_rejects_only_for_retry_witness :
  executeSomCommandOutcome Samples7.click1 (Fin 30000)
    (Some (Throws Samples6.navigation)) =
    Throws (NavigationInProgressError (thrownMessage Samples6.navigation)) /\
  executeSomCommandOutcome Samples7.click1 (Fin 30000)
    (Some (Throws Samples6.detached)) =
    Returns (failedResult (lit "click") (lit "Element is not attached to the DOM")) /\
  executeSomCommandOutcome Samples7.click1 (Fin 30000) None =
    Returns (failedResult (lit "click") (lit "Command timed out after 30000ms")).
Proof.
  destruct (executor_rejects_only_for_retry Samples7.click1 (Fin 30000))
    as (Htimer & _ & _ & Hnav & Hother & _).
  split; [| split].
  - apply Hnav; [discriminate | reflexivity].
  - apply Hother. intros [[m Hm] | Hn]; discriminate.
  - exact Htimer.
Defined.

Lemma numMax_positive (q : Q) : (0 < q)%Q -> numMax (Fin q) 0 = Fin q.
Proof.
  intros Hq. cbn [numMax]. unfold Qmaxb.
  destruct (Qle_bool q 0) eqn:H; [| reflexivity].
  apply Qle_bool_iff in H. exfalso. eapply Qlt_not_le; eassumption.
Qed.

Lemma Qltb_true (a b : Q) : Qltb a b = true <-> (a < b)%Q.
Proof.
  unfold Qltb. rewrite negb_true_iff. split.
  - intros H. destruct (Qlt_le_dec a b) as [Hlt | Hle]; [exact Hlt |].
    apply Qle_bool_iff in Hle. congruence.
  - intros H. destruct (Qle_bool b a) eqn:Hle; [| reflexivity].
    apply Qle_bool_iff in Hle. exfalso. eapply Qlt_not_le; eassumption.
Qed.

(** [parseTimeout], by what the variable holds. *)
Lemma parseTimeout_cases (env : option jsstring) (fallback : Q) :
  parseTimeout env fallback =
  match numberHeld false env with
  | Some q => if Qltb 0 q then Fin q else Fin fallback
  | None => Fin fallback
  end.
Proof.
  unfold parseTimeout, numberHeld.
  destruct env as [[| c text] |]; try reflexivity.
  cbn [truthy_ostr truthy_str negb].
  change (default [] (Some (c :: text))) with (c :: text).
  destruct (Number_ (c :: text)) as [| neg | q]; reflexivity.
Qed.

(** X30. What is read from the environment is made safe before use. The
    navigation and the command timeout are the number the variable holds
    when that is a positive finite number, and 30000 otherwise (unset, empty,
    no number, infinite, zero or negative): a positive finite number in any
    case, so that the [Math.max] with 0 around them changes nothing. The
    wait-retry limit is the number the trimmed variable holds, rounded down,
    when that is a finite number that is not negative, and 2 otherwise: a
    natural number in any case. (Each function reads a variable of its own,
    [env] here; a number is held as the double nearest to what the text
    says.) *)
Theorem settings_are_sanitised (env : option jsstring) :
  (forall q, numberHeld false env = Some q -> (0 < q)%Q ->
             getNavigationTimeout env = Fin q /\ getCommandTimeout env = Fin q) /\
  ((forall q, numberHeld false env = Some q -> (q <= 0)%Q) ->
   getNavigationTimeout env = Fin NAVIGATION_TIMEOUT_MS /\
   getCommandTimeout env = Fin COMMAND_TIMEOUT_MS) /\
  (exists q, getNavigationTimeout env = Fin q /\ (0 < q)%Q) /\
  (exists q, getCommandTimeout env = Fin q /\ (0 < q)%Q) /\
  (forall q, numberHeld true env = Some q -> (0 <= q)%Q ->
             getMaxWaitRetries env = Fin (inject_Z (Qfloor q)) /\
             (inject_Z (Qfloor q) <= q)%Q /\ (q < inject_Z (Qfloor q + 1))%Q) /\
  ((forall q, numberHeld true env = Some q -> (q < 0)%Q) ->
   getMaxWaitRetries env = Fin (inject_Z (Z.of_N DEFAULT_WAIT_RETRY_LIMIT))) /\
  (exists n : N, getMaxWaitRetries env = Fin (inject_Z (Z.of_N n))).
Proof.
  assert (Hlimit :
            getMaxWaitRetries env =
            match numberHeld true env with
            | Some q => if Qle_bool 0 q then Fin (inject_Z (Qfloor q))
                        else Fin (inject_Z (Z.of_N DEFAULT_WAIT_RETRY_LIMIT))
            | None => Fin (inject_Z (Z.of_N DEFAULT_WAIT_RETRY_LIMIT))
            end).
  { unfold getMaxWaitRetries, numberHeld. cbv zeta.
    destruct env as [text |]; [| reflexivity].
    cbn [option_map truthy_ostr].
    destruct (trim text) as [| c rest] eqn:Htrim; [reflexivity |].
    cbn [truthy_str negb]. change (default [] (Some (c :: rest))) with (c :: rest).
    destruct (Number_ (c :: rest)) as [| neg | q]; try reflexivity.
    all: cbn [isFinite isNonNegative andb mathFloor]; now destruct (Qle_bool 0 q). }
  assert (Htimeout : forall fallback, (0 < fallback)%Q ->
            (forall q, numberHeld false env = Some q -> (0 < q)%Q ->
                       numMax (parseTimeout env fallback) 0 = Fin q) /\
            ((forall q, numberHeld false env = Some q -> (q <= 0)%Q) ->
             numMax (parseTimeout env fallback) 0 = Fin fallback) /\
            (exists q, numMax (parseTimeout env fallback) 0 = Fin q /\ (0 < q)%Q)).
  { intros fallback Hfb. rewrite parseTimeout_cases.
    split; [| split].
    - intros q Hq Hpos. rewrite Hq.
      apply Qltb_true in Hpos as Hb. rewrite Hb. now apply numMax_positive.
    - intros Hno. destruct (numberHeld false env) as [q |]; [| now apply numMax_positive].
      specialize (Hno q eq_refl).
      destruct (Qltb 0 q) eqn:Hq; [| now apply numMax_positive].
      apply Qltb_true in Hq. exfalso. eapply Qlt_not_le; eassumption.
    - destruct (numberHeld false env) as [q |];
        [| exists fallback; split; [now apply numMax_positive | exact Hfb]].
      destruct (Qltb 0 q) eqn:Hq;
        [| exists fallback; split; [now apply numMax_positive | exact Hfb]].
      apply Qltb_true in Hq. exists q. split; [now apply numMax_positive | exact Hq]. }
  destruct (Htimeout NAVIGATION_TIMEOUT_MS eq_refl) as (Hn1 & Hn2 & Hn3).
  destruct (Htimeout COMMAND_TIMEOUT_MS eq_refl) as (Hc1 & Hc2 & Hc3).
  unfold getNavigationTimeout, getCommandTimeout.
  split; [| split; [| split; [| split; [| split; [| split]]]]].
  - intros q Hq Hpos. split; [now apply Hn1 | now apply Hc1].
  - intros Hno. split; [now apply Hn2 | now apply Hc2].
  - exact Hn3.
  - exact Hc3.
  - intros q Hq Hpos. rewrite Hlimit, Hq.
    apply Qle_bool_iff in Hpos as Hb. rewrite Hb.
    split; [reflexivity |]. split; [apply Qfloor_le | apply Qlt_floor].
  - intros Hno. rewrite Hlimit. destruct (numberHeld true env) as [q |]; [| reflexivity].
    specialize (Hno q eq_refl).
    destruct (Qle_bool 0 q) eqn:Hq; [| reflexivity].
    apply Qle_bool_iff in Hq. exfalso. eapply Qlt_not_le; eassumption.
  - rewrite Hlimit. destruct (numberHeld true env) as [q |];
      [| now exists DEFAULT_WAIT_RETRY_LIMIT].
    destruct (Qle_bool 0 q) eqn:Hq; [| now exists DEFAULT_WAIT_RETRY_LIMIT].
    apply Qle_bool_iff in Hq.
    exists (Z.to_N (Qfloor q)). rewrite Z2N.id; [reflexivity |].
    change 0%Z with (Qfloor 0). now apply Qfloor_resp_le.
Qed.

Lemma settings_are_sanitised_witness :
  getMaxWaitRetries (Some (lit " 3.7 ")) = Fin 3 /\
  getMaxWaitRetries (Some (lit "-1")) = Fin 2 /\
  getMaxWaitRetries (Some (lit "0.99999999999999999999")) = Fin 1 /\
  getNavigationTimeout (Some (lit "1500")) = Fin 1500 /\
  getCommandTimeout (Some (lit "1e-400")) = Fin 30000.
Proof.
  destruct (settings_are_sanitised (Some (lit " 3.7 "))) as (_ & _ & _ & _ & Hfloor & _).
  destruct (settings_are_sanitised (Some (lit "-1"))) as (_ & _ & _ & _ & _ & Hneg & _).
  destruct (settings_are_sanitised (Some (lit "0.99999999999999999999")))
    as (_ & _ & _ & _ & Hround & _).
  destruct (settings_are_sanitised (Some (lit "1500"))) as (Hnav & _).
  destruct (settings_are_sanitised (Some (lit "1e-400"))) as (_ & Hunder & _).
  assert (E1 : numberHeld true (Some (lit " 3.7 ")) =
               Some (4165829655317709 # 1125899906842624)%Q) by (vm_compute; reflexivity).
  assert (E2 : numberHeld true (Some (lit "0.99999999999999999999")) = Some 1%Q)
    by (vm_compute; reflexivity).
  assert (E3 : numberHeld false (Some (lit "1500")) = Some 1500%Q)
    by (vm_compute; reflexivity).
  split; [| split; [| split; [| split]]].
  - destruct (Hfloor _ E1) as [H _]; [discriminate | exact H].
  - apply Hneg. intros q Hq. vm_compute in Hq. injection Hq as <-. reflexivity.
  - destruct (Hround _ E2) as [H _]; [discriminate | exact H].
  - destruct (Hnav _ E3) as [H _]; [reflexivity | exact H].
  - destruct Hunder as [_ H]; [| exact H].
    intros q Hq. vm_compute in Hq. injection Hq as <-. discriminate.
Defined.

End GuardFacts.
